(** * codebase-constellations: the analysis pipeline of [parser.js] and the
      file endpoint of the server

    The development embeds the static analyser (file graph and symbol graph)
    and the [/api/file] handler of the server, and states the repository's
    documented properties about them.

    Conventions of the embedding.
    - A JavaScript string is a [string]; its code units are the characters
      of [ascii].
    - [undefined]/[null] results are [None]; a thrown exception of the
      file system is [None] in the error monad of the analysis.
    - An AST is the tree @babel/parser builds: every node carries its
      [type] tag, its source range, and the children [traverse] visits, each
      under the property name it hangs from.
    - Objects used as dictionaries keep their own properties in insertion
      order; where the key of a lookup is an arbitrary string the members
      inherited from [Object.prototype] are taken into account.
    - The condition arrays of call facts live in an explicit store, because
      [analyzeSymbols] hands the same array to several edges and later
      pushes into it. *)

From Stdlib Require Import List String Ascii Arith Bool Lia PeanoNat ZArith.
Import ListNotations.
Local Open Scope list_scope.
Local Open Scope string_scope.

(* ================================================================== *)
(** ** JavaScript strings *)

Module Str.

Definition chars : string -> list ascii := list_ascii_of_string.
Definition of_chars : list ascii -> string := string_of_list_ascii.

(** [s.startsWith(p)] *)
Definition startsWith (s p : string) : bool := String.prefix p s.

Fixpoint list_prefix (p l : list ascii) : bool :=
  match p, l with
  | [], _ => true
  | a :: p', b :: l' => Ascii.eqb a b && list_prefix p' l'
  | _ :: _, [] => false
  end.

(** [s.endsWith(p)] *)
Definition endsWith (s p : string) : bool :=
  list_prefix (rev (chars p)) (rev (chars s)).

(** [s.includes(p)] *)
Fixpoint includes (s p : string) : bool :=
  String.prefix p s ||
  match s with
  | EmptyString => false
  | String _ s' => includes s' p
  end.

(** [s.slice(a, b)] for [0 <= a], [0 <= b] *)
Definition slice (s : string) (a b : nat) : string :=
  String.substring a (b - a) s.

(** [s.split(c)] for a one-character separator: never the empty list. *)
Fixpoint split_chars (c : ascii) (cur : list ascii) (l : list ascii)
  : list string :=
  match l with
  | [] => [of_chars (rev cur)]
  | x :: l' =>
      if Ascii.eqb x c then of_chars (rev cur) :: split_chars c [] l'
      else split_chars c (x :: cur) l'
  end.

Definition split (c : ascii) (s : string) : list string :=
  split_chars c [] (chars s).

(** [l.join(sep)] *)
Definition join (sep : string) (l : list string) : string :=
  String.concat sep l.

(** a non-empty string is truthy *)
Definition truthy (s : string) : bool := negb (String.eqb s "").

(** [o || d] for a possibly undefined string *)
Definition orElse (o : option string) (d : option string) : option string :=
  match o with
  | Some s => if truthy s then Some s else d
  | None => d
  end.

Definition some_truthy (o : option string) : bool :=
  match o with Some s => truthy s | None => false end.

(** The characters [\s] matches and [trim] strips, among the code units
    below 256: TAB, LF, VT, FF, CR, SPACE and NBSP. *)
Definition is_space (c : ascii) : bool :=
  let n := nat_of_ascii c in
  (Nat.leb 9 n && Nat.leb n 13) || Nat.eqb n 32 || Nat.eqb n 160.

(** [text.replace(/\s+/g, " ")] *)
Fixpoint collapse (in_run : bool) (l : list ascii) : list ascii :=
  match l with
  | [] => []
  | c :: l' =>
      if is_space c
      then if in_run then collapse true l' else " "%char :: collapse true l'
      else c :: collapse false l'
  end.

Fixpoint dropWhile {A} (f : A -> bool) (l : list A) : list A :=
  match l with
  | [] => []
  | x :: l' => if f x then dropWhile f l' else l
  end.

(** [text.trim()] *)
Definition trim_chars (l : list ascii) : list ascii :=
  rev (dropWhile is_space (rev (dropWhile is_space l))).

Definition collapse_trim (s : string) : string :=
  of_chars (trim_chars (collapse false (chars s))).

(** number of elements of [code.split("\n")] *)
Definition lineCount (s : string) : nat :=
  List.length (split "010"%char s).

(** [[a, b].sort()]: the default comparison orders strings by code
    units; the sort is stable. *)
Definition sort2 (a b : string) : string * string :=
  if String.ltb b a then (b, a) else (a, b).

Fixpoint insert_sorted (x : string) (l : list string) : list string :=
  match l with
  | [] => [x]
  | y :: l' => if String.ltb x y then x :: l else y :: insert_sorted x l'
  end.

(** [l.sort()] on strings *)
Definition sort (l : list string) : list string :=
  fold_left (fun acc x => insert_sorted x acc) l [].

Definition mem (x : string) (l : list string) : bool :=
  existsb (String.eqb x) l.

(** [[...new Set(l)]]: first occurrences, in order *)
Fixpoint dedup_acc (seen : list string) (l : list string) : list string :=
  match l with
  | [] => []
  | x :: l' =>
      if mem x seen then dedup_acc seen l' else x :: dedup_acc (x :: seen) l'
  end.

Definition dedup (l : list string) : list string := dedup_acc [] l.

End Str.

(* ================================================================== *)
(** ** The POSIX flavour of Node's [path] module *)

Module Path.

Definition sep : ascii := "/"%char.

Definition isAbsolute (p : string) : bool := Str.startsWith p "/".

(** [normalizeString]: the segments of a path with [.] and empty
    segments dropped and [..] resolved; [above] keeps a [..] that climbs
    over the start. The accumulator holds the result reversed. *)
Fixpoint normSegs (above : bool) (acc : list string) (segs : list string)
  : list string :=
  match segs with
  | [] => rev acc
  | s :: rest =>
      if String.eqb s "" || String.eqb s "." then normSegs above acc rest
      else if String.eqb s ".." then
        match acc with
        | top :: acc' =>
            if String.eqb top ".."
            then normSegs above (if above then ".." :: acc else acc) rest
            else normSegs above acc' rest
        | [] => normSegs above (if above then [".."] else []) rest
        end
      else normSegs above (s :: acc) rest
  end.

Definition normalizeString (p : string) (above : bool) : string :=
  Str.join "/" (normSegs above [] (Str.split sep p)).

(** [path.normalize(p)] *)
Definition normalize (p : string) : string :=
  if String.eqb p "" then "."
  else
    let abs := isAbsolute p in
    let trailing := Str.endsWith p "/" in
    let q := normalizeString p (negb abs) in
    if String.eqb q "" then
      (if abs then "/" else if trailing then "./" else ".")
    else
      let q' := if trailing then q ++ "/" else q in
      if abs then "/" ++ q' else q'.

(** [path.join(a, b)] *)
Definition join (a b : string) : string :=
  let parts := filter Str.truthy [a; b] in
  match parts with
  | [] => "."
  | _ => normalize (Str.join "/" parts)
  end.

(** [path.resolve(...args)] in a process whose working directory is
    [cwd]: the arguments are prepended right to left until the path is
    absolute. *)
Fixpoint resolveAcc (acc : string) (rargs : list string) : string * bool :=
  match rargs with
  | [] => (acc, false)
  | p :: rest =>
      if String.eqb p "" then resolveAcc acc rest
      else
        let acc' := p ++ "/" ++ acc in
        if isAbsolute p then (acc', true) else resolveAcc acc' rest
  end.

Definition resolve (cwd : string) (args : list string) : string :=
  let '(p, abs) := resolveAcc "" (rev args ++ [cwd])%list in
  let q := normalizeString p (negb abs) in
  if abs then "/" ++ q
  else if String.eqb q "" then "." else q.

(** [path.dirname(p)] *)
Definition dirname (p : string) : string :=
  match Str.chars p with
  | [] => "."
  | c0 :: rest =>
      let hasRoot := Ascii.eqb c0 sep in
      let r1 := Str.dropWhile (Ascii.eqb sep) (rev rest) in
      let r2 := Str.dropWhile (fun c => negb (Ascii.eqb sep c)) r1 in
      match r2 with
      | [] => if hasRoot then "/" else "."
      | _ :: r3 =>
          match r3 with
          | [] => if hasRoot then "//" else Str.of_chars [c0]
          | _ => Str.of_chars (c0 :: rev r3)
          end
      end
  end.

(** the last path segment, trailing separators ignored, reversed *)
Definition revBasename (p : string) : list ascii :=
  let r := Str.dropWhile (Ascii.eqb sep) (rev (Str.chars p)) in
  let fix take (l : list ascii) : list ascii :=
    match l with
    | [] => []
    | c :: l' => if Ascii.eqb c sep then [] else c :: take l'
    end in
  take r.

Fixpoint untilDot (l : list ascii) (acc : list ascii)
  : option (list ascii * list ascii) :=
  match l with
  | [] => None
  | c :: l' =>
      if Ascii.eqb c "."%char then Some (c :: acc, l')
      else untilDot l' (c :: acc)
  end.

(** [path.extname(p)]: from the last dot of the last segment, unless that
    dot starts the segment or the segment is [..]. *)
Definition extname (p : string) : string :=
  let rb := revBasename p in
  match untilDot rb [] with
  | None => ""
  | Some (ext, before) =>
      match before with
      | [] => ""
      | _ =>
          if String.eqb (Str.of_chars (rev rb)) ".." then ""
          else Str.of_chars ext
      end
  end.

Definition segments (cwd p : string) : list string :=
  normSegs false [] (Str.split sep (resolve cwd [p])).

Fixpoint stripCommon (a b : list string) : list string * list string :=
  match a, b with
  | x :: a', y :: b' =>
      if String.eqb x y then stripCommon a' b' else (a, b)
  | _, _ => (a, b)
  end.

(** [path.relative(from, to)] *)
Definition relative (cwd from to : string) : string :=
  let '(f, t) := stripCommon (segments cwd from) (segments cwd to) in
  Str.join "/" (map (fun _ => "..") f ++ t)%list.

End Path.

(* ================================================================== *)
(** ** Plain objects used as dictionaries *)

Module JsObj.

(** The property names every object inherits from [Object.prototype]. *)
Definition prototype_names : list string :=
  [ "constructor"; "__defineGetter__"; "__defineSetter__";
    "hasOwnProperty"; "__lookupGetter__"; "__lookupSetter__";
    "isPrototypeOf"; "propertyIsEnumerable"; "toString"; "valueOf";
    "__proto__"; "toLocaleString" ].

(** Own properties, in insertion order (no key here is an array index). *)
Definition dict (A : Type) : Type := list (string * A).

Fixpoint own {A} (d : dict A) (k : string) : option A :=
  match d with
  | [] => None
  | (k', v) :: d' => if String.eqb k k' then Some v else own d' k
  end.

Fixpoint replace {A} (d : dict A) (k : string) (v : A) : dict A :=
  match d with
  | [] => []
  | (k', v') :: d' =>
      if String.eqb k k' then (k', v) :: d' else (k', v') :: replace d' k v
  end.

(** [m.set(k, v)] on a [Map]: a new key goes last, a known one keeps
    its place. *)
Definition put {A} (d : dict A) (k : string) (v : A) : dict A :=
  match own d k with
  | Some _ => replace d k v
  | None => (d ++ [(k, v)])%list
  end.

(** [d[k] = v] on an object whose values are primitives or records of the
    analysis: assigning to [__proto__] adds no property. *)
Definition set {A} (d : dict A) (k : string) (v : A) : dict A :=
  if String.eqb k "__proto__" then d else put d k v.

Inductive slot (A : Type) : Type :=
| Own (a : A)
| Inherited
| Missing.
Arguments Own {A} a.
Arguments Inherited {A}.
Arguments Missing {A}.

(** [d[k]]: an own property, a member of [Object.prototype], or
    [undefined]. *)
Definition get {A} (d : dict A) (k : string) : slot A :=
  match own d k with
  | Some a => Own a
  | None => if Str.mem k prototype_names then Inherited else Missing
  end.

(** truthiness of [d[k]] when the own values are objects *)
Definition truthyAt {A} (d : dict A) (k : string) : bool :=
  match get d k with
  | Missing => false
  | _ => true
  end.

Definition keys {A} (d : dict A) : list string := map fst d.
Definition values {A} (d : dict A) : list A := map snd d.

End JsObj.

(* ================================================================== *)
(** ** Babel syntax trees and [traverse] *)

Module Ast.

Record attrs : Type := mkAttrs {
  a_type : string;              (* node.type *)
  a_key : string;               (* the property of the parent holding it *)
  a_start : nat;                (* node.start *)
  a_end : nat;                  (* node.end *)
  a_loc : option (nat * nat);   (* loc.start.line, loc.end.line *)
  a_name : option string;       (* node.name *)
  a_value : option string       (* node.value *)
}.

(** A node and its children in the order of Babel's visitor keys. *)
#[warnings="-register-all"]
Inductive node : Type :=
| Node (a : attrs) (kids : list node).

Definition info (n : node) : attrs := let 'Node a _ := n in a.
Definition kids (n : node) : list node := let 'Node _ ks := n in ks.
Definition type (n : node) : string := a_type (info n).
Definition key (n : node) : string := a_key (info n).
Definition isType (t : string) (n : node) : bool := String.eqb (type n) t.

(** [n.k] for a property holding one node, and for one holding an array *)
Definition field (k : string) (n : node) : option node :=
  find (fun c => String.eqb (key c) k) (kids n).
Definition fields (k : string) (n : node) : list node :=
  filter (fun c => String.eqb (key c) k) (kids n).

(** [n?.name] and [n?.value] *)
Definition name (o : option node) : option string :=
  match o with Some n => a_name (info n) | None => None end.
Definition value (o : option node) : option string :=
  match o with Some n => a_value (info n) | None => None end.

(** the name of a node the parser always names *)
Definition nameOf (o : option node) : string :=
  match name o with Some s => s | None => "" end.

Definition startLine (n : node) : nat :=
  match a_loc (info n) with Some (l, _) => l | None => 0 end.
Definition endLine (n : node) : nat :=
  match a_loc (info n) with Some (_, l) => l | None => 0 end.

(** A [NodePath]: the node and its ancestors, nearest first; the last
    ancestor is the root handed to [traverse], which has no path. *)
Record NodePath : Type := mkPath {
  p_node : node;
  p_ancestors : list node
}.

Definition parent (p : NodePath) : option node := hd_error (p_ancestors p).
Definition grandParent (p : NodePath) : option node :=
  hd_error (tl (p_ancestors p)).
Definition parentIs (t : string) (p : NodePath) : bool :=
  match parent p with Some n => isType t n | None => false end.

Fixpoint pathsFrom (anc : list node) (n : node) : list NodePath :=
  match n with
  | Node _ ks => mkPath n anc :: flat_map (pathsFrom (n :: anc)) ks
  end.

(** The paths [traverse(ast, visitor)] enters, in order (depth first,
    parents before children). Before it visits, the library builds the
    scopes of the tree, and it throws on a tree it finds ill-scoped (a
    duplicate declaration in a file the parser accepts). That exception is
    not followed here: the visits are described for the trees the library
    walks. *)
Definition traverse (ast : node) : list NodePath :=
  flat_map (pathsFrom [ast]) (kids ast).

End Ast.
Import Ast.

(* ================================================================== *)
(** ** The environment of a run *)

(** What a run observes of the outside world. *)
Record World : Type := mkWorld {
  (* process.cwd() *)
  cwd : string;
  (* the files glob finds walking down from a directory, as relative paths *)
  entries : string -> list string;
  (* fs.existsSync *)
  existsSync : string -> bool;
  (* fs.readFileSync(p, "utf-8"); None when it throws *)
  readFileSync : string -> option string;
  (* babelParser.parse(code, { ..., plugins }); None when it throws *)
  babelParse : string -> list string -> option node;
  (* the first capture group of each successive match of [srcRegex], the
     script-tag pattern of extractHtmlScriptRefs, in a text *)
  scriptSrcMatches : string -> list string
}.

(** The computations of the analysis: [None] is a thrown exception. The
    exceptions followed are those of the file system (the parser's are
    caught in [parseFile]); those of the traversal library and of a read on
    an inherited member are not (see [traverse] and [lookupOf]). So [None]
    is a run that throws, and the properties of a result [Some] are
    properties of the runs that return. *)
Definition bind {A B} (m : option A) (k : A -> option B) : option B :=
  match m with
  | Some a => k a
  | None => None
  end.

Notation "x <- m ;; k" := (bind m (fun x => k))
  (at level 61, m at next level, right associativity).

Definition EXTENSIONS : list string :=
  [".js"; ".jsx"; ".ts"; ".tsx"; ".mjs"; ".cjs"].
Definition ALL_EXTENSIONS : list string :=
  (EXTENSIONS ++ [".html"; ".htm"])%list.

Definition IGNORE_DIRS : list string :=
  [ "node_modules"; "dist"; "build"; ".next"; "coverage"; ".git";
    "vendor"; "__pycache__" ].

(** A path lies below an ignored directory. *)
Definition ignored (file : string) : bool :=
  existsb (fun seg => Str.mem seg IGNORE_DIRS)
          (removelast (Str.split Path.sep file)).

(** [glob] for the pattern of one extension, run from [rootDir] with the
    ignore patterns of [IGNORE_DIRS] *)
Definition glob (w : World) (rootDir ext : string) : list string :=
  filter (fun f => Str.endsWith f ext && negb (ignored f)) (entries w rootDir).

Definition scan (w : World) (rootDir : string) (exts : list string)
  : list string :=
  Str.dedup (flat_map (glob w rootDir) exts).

Definition isHtml (ext : string) : bool :=
  String.eqb ext ".html" || String.eqb ext ".htm".

Definition parseFile (w : World) (filePath : string) : option (option node) :=
  code <- readFileSync w filePath ;;
  let ext := Path.extname filePath in
  let isTS := String.eqb ext ".ts" || String.eqb ext ".tsx" in
  let isJSX := String.eqb ext ".jsx" || String.eqb ext ".tsx" in
  let plugins :=
    ([ "decorators-legacy"; "classProperties"; "classPrivateProperties";
       "classPrivateMethods"; "exportDefaultFrom"; "exportNamespaceFrom";
       "dynamicImport"; "nullishCoalescingOperator"; "optionalChaining";
       "topLevelAwait" ]
     ++ (if isTS then ["typescript"] else [])
     ++ (if isJSX || negb isTS then ["jsx"] else []))%list in
  Some (babelParse w code plugins).

(* ================================================================== *)
(** ** Exports, imports and global declarations of one file *)

Record Export : Type := mkExport {
  x_name : string;
  x_type : string
}.

Definition hasField (k : string) (n : node) : bool :=
  match field k n with Some _ => true | None => false end.

Definition exportsOfDeclaration (decl : node) : list Export :=
  let id := field "id" decl in
  if isType "FunctionDeclaration" decl && hasField "id" decl
  then [mkExport (nameOf id) "function"]
  else if isType "ClassDeclaration" decl && hasField "id" decl
  then [mkExport (nameOf id) "class"]
  else if isType "VariableDeclaration" decl
  then flat_map
         (fun d => match name (field "id" d) with
                   | Some s => if Str.truthy s
                               then [mkExport s "variable"] else []
                   | None => []
                   end)
         (fields "declarations" decl)
  else if isType "TSTypeAliasDeclaration" decl && hasField "id" decl
  then [mkExport (nameOf id) "type"]
  else if isType "TSInterfaceDeclaration" decl && hasField "id" decl
  then [mkExport (nameOf id) "interface"]
  else if isType "TSEnumDeclaration" decl && hasField "id" decl
  then [mkExport (nameOf id) "enum"]
  else [].

Definition isModuleExports (lhs : node) : bool :=
  isType "MemberExpression" lhs
  && match name (field "object" lhs) with
     | Some s => String.eqb s "module" | None => false end
  && match name (field "property" lhs) with
     | Some s => String.eqb s "exports" | None => false end.

(** The three visitors of [extractExports] on one path. *)
Definition exportsAt (p : NodePath) : list Export :=
  let n := p_node p in
  if isType "ExportNamedDeclaration" n then
    ((match field "declaration" n with
      | Some decl => exportsOfDeclaration decl
      | None => []
      end)
     ++ flat_map
          (fun spec => match field "exported" spec with
                       | Some e => [mkExport (nameOf (Some e)) "re-export"]
                       | None => []
                       end)
          (fields "specifiers" n))%list
  else if isType "ExportDefaultDeclaration" n then
    let decl := field "declaration" n in
    let nm := Str.orElse (name (match decl with
                                | Some d => field "id" d
                                | None => None end))
                (Str.orElse (name decl) (Some "default")) in
    [mkExport (match nm with Some s => s | None => "default" end) "default"]
  else if isType "AssignmentExpression" n then
    match field "left" n, field "right" n with
    | Some lhs, Some rhs =>
        if isModuleExports lhs then
          if isType "Identifier" rhs
          then [mkExport (nameOf (Some rhs)) "cjs-default"]
          else if isType "ObjectExpression" rhs
          then flat_map
                 (fun prop => match name (field "key" prop) with
                              | Some s => if Str.truthy s
                                          then [mkExport s "cjs"] else []
                              | None => []
                              end)
                 (fields "properties" rhs)
          else [mkExport "default" "cjs-default"]
        else if isType "MemberExpression" lhs
                && match name (field "object" lhs) with
                   | Some s => String.eqb s "exports" | None => false end
                && Str.some_truthy (name (field "property" lhs))
        then [mkExport (nameOf (field "property" lhs)) "cjs"]
        else []
    | _, _ => []
    end
  else [].

Definition extractExports (ast : node) (filePath : string) : list Export :=
  flat_map exportsAt (traverse ast).

Definition getCandidates (base : string) : list string :=
  ([base]
   ++ map (fun ext => String.append base ext) EXTENSIONS
   ++ map (fun ext => Path.join base (String.append "index" ext)) EXTENSIONS)%list.

Definition resolveImport (w : World) (source fromFile rootDir : string)
  : option string :=
  if negb (Str.startsWith source ".") && negb (Str.startsWith source "/")
  then None
  else
    let dir := Path.dirname fromFile in
    let resolved := Path.resolve (cwd w) [dir; source] in
    match find (existsSync w) (getCandidates resolved) with
    | Some candidate => Some (Path.relative (cwd w) rootDir candidate)
    | None => None
    end.

Record Specifier : Type := mkSpecifier {
  s_name : string;
  s_type : string
}.

Record Import : Type := mkImport {
  i_source : string;
  i_resolved : string;
  i_specifiers : list Specifier
}.

Definition specifierOf (s : node) : Specifier :=
  if isType "ImportDefaultSpecifier" s
  then mkSpecifier (nameOf (field "local" s)) "default"
  else if isType "ImportNamespaceSpecifier" s
  then mkSpecifier (nameOf (field "local" s)) "namespace"
  else mkSpecifier
         (match Str.orElse (name (field "imported" s))
                  (name (field "local" s)) with
          | Some x => x | None => "" end)
         "named".

(** a resolution that is neither [null] nor the empty string *)
Definition resolvedTruthy (r : option string) : option string :=
  match r with
  | Some s => if Str.truthy s then Some s else None
  | None => None
  end.

Definition stringArg (args : list node) : option string :=
  match args with
  | a :: _ => if isType "StringLiteral" a
              then Some (match a_value (info a) with
                         | Some v => v | None => "" end)
              else None
  | [] => None
  end.

(** The two visitors of [extractImports] on one path. *)
Definition importsAt (w : World) (filePath rootDir : string) (p : NodePath)
  : list Import :=
  let n := p_node p in
  if isType "ImportDeclaration" n then
    let source := match value (field "source" n) with
                  | Some v => v | None => "" end in
    match resolvedTruthy (resolveImport w source filePath rootDir) with
    | None => []
    | Some resolved =>
        [mkImport source resolved (map specifierOf (fields "specifiers" n))]
    end
  else if isType "CallExpression" n then
    let callee := field "callee" n in
    let args := fields "arguments" n in
    let viaRequire :=
      if match name callee with
         | Some s => String.eqb s "require" | None => false end
         && Nat.eqb (List.length args) 1
      then match stringArg args with
           | Some source =>
               match resolvedTruthy
                       (resolveImport w source filePath rootDir) with
               | Some resolved =>
                   [mkImport source resolved [mkSpecifier "default" "require"]]
               | None => []
               end
           | None => []
           end
      else [] in
    let viaDynamic :=
      if match callee with Some c => isType "Import" c | None => false end
         && Nat.leb 1 (List.length args)
      then match stringArg args with
           | Some source =>
               match resolvedTruthy
                       (resolveImport w source filePath rootDir) with
               | Some resolved =>
                   [mkImport source resolved [mkSpecifier "default" "dynamic"]]
               | None => []
               end
           | None => []
           end
      else [] in
    (viaRequire ++ viaDynamic)%list
  else [].

Definition extractImports (w : World) (ast : node) (filePath rootDir : string)
  : list Import :=
  flat_map (importsAt w filePath rootDir) (traverse ast).

(** The three visitors of [extractGlobalDeclarations] on one path. *)
Definition globalsAt (p : NodePath) : list Export :=
  let n := p_node p in
  if isType "FunctionDeclaration" n then
    if parentIs "Program" p
    then [mkExport (nameOf (field "id" n)) "function"] else []
  else if isType "ClassDeclaration" n then
    if parentIs "Program" p && hasField "id" n
    then [mkExport (nameOf (field "id" n)) "class"] else []
  else if isType "VariableDeclaration" n then
    if parentIs "Program" p
    then flat_map
           (fun d =>
              match field "id" d with
              | Some id =>
                  match a_name (info id) with
                  | Some s =>
                      if negb (Str.truthy s) then []
                      else if Nat.ltb (String.length s) 3 then []
                      else if match field "init" d with
                              | Some init =>
                                  isType "CallExpression" init
                                  && match name (field "callee" init) with
                                     | Some c => String.eqb c "require"
                                     | None => false end
                              | None => false
                              end then []
                      else if isType "ObjectPattern" id then []
                      else [mkExport s "variable"]
                  | None => []
                  end
              | None => []
              end)
           (fields "declarations" n)
    else []
  else [].

Definition extractGlobalDeclarations (ast : node) : list Export :=
  flat_map globalsAt (traverse ast).

Definition isExternalUrl (src : string) : bool :=
  Str.startsWith src "http://" || Str.startsWith src "https://"
  || Str.startsWith src "//".

Definition extractHtmlScriptRefs (w : World) (filePath rootDir : string)
  : option (list string) :=
  html <- readFileSync w filePath ;;
  Some (flat_map
          (fun src =>
             if isExternalUrl src then []
             else
               let dir := Path.dirname filePath in
               let resolved := Path.resolve (cwd w) [dir; src] in
               if existsSync w resolved
               then [Path.relative (cwd w) rootDir resolved] else [])
          (scriptSrcMatches w html)).

(* ================================================================== *)
(** ** The file graph: [analyzeCodebase] *)

Record FileData : Type := mkFileData {
  fd_exports : list Export;
  fd_imports : list Import;
  fd_lines : nat;
  fd_globals : option (list Export);
  fd_htmlScriptRefs : option (list string)
}.

Record FileNode : Type := mkFileNode {
  n_id : string;
  n_exports : list Export;
  n_lines : nat;
  n_folder : string;
  n_extension : string;
  n_incomingCount : nat
}.

Record FileEdge : Type := mkFileEdge {
  fe_source : string;
  fe_target : string;
  fe_weight : nat;
  fe_references : list string
}.

Record FileGraph : Type := mkFileGraph {
  g_nodes : list FileNode;
  g_edges : list FileEdge;
  g_folders : list string;
  g_extensions : list string
}.

(** A [for ... of] loop whose body may throw. *)
Fixpoint foldM {A S} (f : S -> A -> option S) (l : list A) (s : S)
  : option S :=
  match l with
  | [] => Some s
  | a :: l' => s' <- f s a ;; foldM f l' s'
  end.

(** First pass over one file: exports and line count. *)
Definition firstPassFile (w : World) (rootDir : string)
  (fileData : JsObj.dict FileData) (file : string)
  : option (JsObj.dict FileData) :=
  let fullPath := Path.join rootDir file in
  let ext := Path.extname file in
  if isHtml ext then
    code <- readFileSync w fullPath ;;
    let lines := Str.lineCount code in
    scriptRefs <- extractHtmlScriptRefs w fullPath rootDir ;;
    Some (JsObj.set fileData file
            (mkFileData [] [] lines (Some []) (Some scriptRefs)))
  else
    ast <- parseFile w fullPath ;;
    match ast with
    | None => Some (JsObj.set fileData file (mkFileData [] [] 0 None None))
    | Some ast =>
        code <- readFileSync w fullPath ;;
        let lines := Str.lineCount code in
        let exports := extractExports ast fullPath in
        Some (JsObj.set fileData file (mkFileData exports [] lines None None))
    end.

(** Second pass over one file: imports and global declarations. (The set
    of referenced identifiers collected here is stored on the record and
    read by nothing that builds the graph; it is left out.) *)
Definition secondPassFile (w : World) (rootDir : string)
  (fileData : JsObj.dict FileData) (file : string)
  : option (JsObj.dict FileData) :=
  let ext := Path.extname file in
  if isHtml ext then Some fileData
  else
    let fullPath := Path.join rootDir file in
    ast <- parseFile w fullPath ;;
    match ast with
    | None => Some fileData
    | Some ast =>
        let imports := extractImports w ast fullPath rootDir in
        data <- JsObj.own fileData file ;;
        Some (JsObj.set fileData file
                (mkFileData (fd_exports data) imports (fd_lines data)
                   (Some (extractGlobalDeclarations ast))
                   (fd_htmlScriptRefs data)))
    end.

Definition collectFileData (w : World) (rootDir : string)
  (uniqueFiles : list string) : option (JsObj.dict FileData) :=
  fileData <- foldM (firstPassFile w rootDir) uniqueFiles [] ;;
  foldM (secondPassFile w rootDir) uniqueFiles fileData.

Definition nodeOf (fileData : JsObj.dict FileData) (file : string)
  : option FileNode :=
  data <- JsObj.own fileData file ;;
  let exportNames := map x_name (fd_exports data) in
  let globals := match fd_globals data with Some g => g | None => [] end in
  let allExports :=
    (fd_exports data
     ++ filter (fun g => negb (Str.mem (x_name g) exportNames)) globals)%list in
  Some (mkFileNode file allExports (fd_lines data)
          (Path.dirname file) (Path.extname file) 0).

Fixpoint mapM {A B} (f : A -> option B) (l : list A) : option (list B) :=
  match l with
  | [] => Some []
  | a :: l' => b <- f a ;; bs <- mapM f l' ;; Some (b :: bs)
  end.

(** [[a, b].sort().join("|||")] *)
Definition edgeKey (a b : string) : string :=
  let '(x, y) := Str.sort2 a b in x ++ "|||" ++ y.

(** [e.weight += weight; e.references.push(...refs)] *)
Definition bump (e : FileEdge) (weight : nat) (refs : list string)
  : FileEdge :=
  mkFileEdge (fe_source e) (fe_target e) (fe_weight e + weight)
    (fe_references e ++ refs)%list.

(** Create the record of the pair if there is none, then accumulate. *)
Definition accumulate (edgeMap : JsObj.dict FileEdge)
  (file target : string) (weight : nat) (refs : list string)
  : JsObj.dict FileEdge :=
  let key := edgeKey file target in
  let e := match JsObj.own edgeMap key with
           | Some e => e
           | None => mkFileEdge file target 0 []
           end in
  JsObj.set edgeMap key (bump e weight refs).

Definition importEdges (fileData : JsObj.dict FileData)
  (edgeMap : JsObj.dict FileEdge) (file : string)
  : option (JsObj.dict FileEdge) :=
  data <- JsObj.own fileData file ;;
  Some (fold_left
          (fun em imp =>
             if negb (Str.truthy (i_resolved imp))
                || negb (JsObj.truthyAt fileData (i_resolved imp))
             then em
             else accumulate em file (i_resolved imp)
                    (List.length (i_specifiers imp))
                    (map s_name (i_specifiers imp)))
          (fd_imports data) edgeMap).

Definition scriptEdges (fileData : JsObj.dict FileData)
  (edgeMap : JsObj.dict FileEdge) (file : string)
  : option (JsObj.dict FileEdge) :=
  data <- JsObj.own fileData file ;;
  match fd_htmlScriptRefs data with
  | None => Some edgeMap
  | Some refs =>
      Some (fold_left
              (fun em scriptFile =>
                 if negb (JsObj.truthyAt fileData scriptFile) then em
                 else accumulate em file scriptFile 1 ["script-src"])
              refs edgeMap)
  end.

(** Counters are read back under node ids only. *)
Definition countIncoming (fileData : JsObj.dict FileData)
  (counts : JsObj.dict nat) (file : string) : option (JsObj.dict nat) :=
  data <- JsObj.own fileData file ;;
  Some (fold_left
          (fun cs imp =>
             if Str.truthy (i_resolved imp)
             then JsObj.set cs (i_resolved imp)
                    (match JsObj.own cs (i_resolved imp) with
                     | Some n => n | None => 0 end + 1)
             else cs)
          (fd_imports data) counts).

Definition buildGraph (uniqueFiles : list string)
  (fileData : JsObj.dict FileData) : option FileGraph :=
  nodes <- mapM (nodeOf fileData) uniqueFiles ;;
  edgeMap <- foldM (importEdges fileData) uniqueFiles [] ;;
  edgeMap <- foldM (scriptEdges fileData) uniqueFiles edgeMap ;;
  let edges := JsObj.values edgeMap in
  incomingCounts <- foldM (countIncoming fileData) uniqueFiles [] ;;
  let nodes :=
    map (fun n =>
           mkFileNode (n_id n) (n_exports n) (n_lines n) (n_folder n)
             (n_extension n)
             (match JsObj.own incomingCounts (n_id n) with
              | Some c => c | None => 0 end))
        nodes in
  let folders := Str.sort (Str.dedup (map n_folder nodes)) in
  let extensions := Str.sort (Str.dedup (map n_extension nodes)) in
  Some (mkFileGraph nodes edges folders extensions).

Definition uniqueFilesOf (w : World) (rootDir : string) (exts : list string)
  : list string := scan w rootDir exts.

Definition analyzeCodebase (w : World) (rootDir : string)
  : option FileGraph :=
  let uniqueFiles := uniqueFilesOf w rootDir ALL_EXTENSIONS in
  fileData <- collectFileData w rootDir uniqueFiles ;;
  buildGraph uniqueFiles fileData.

(* ================================================================== *)
(** ** Symbols and call facts of one file: [extractSymbols] *)

Record Condition : Type := mkCondition {
  c_condition : string;
  c_branch : string
}.

Definition conditionToString (n : node) (sourceCode : string)
  : option string :=
  if Str.truthy sourceCode then
    let text := Str.slice sourceCode (a_start (info n)) (a_end (info n)) in
    let text := Str.collapse_trim text in
    Some (if Nat.ltb 40 (String.length text)
          then Str.slice text 0 37 ++ "..."
          else text)
  else None.

(** the text of [scope.node.test], when it is a non-empty string *)
Definition condTextOf (scope : node) (sourceCode : string) : option string :=
  match field "test" scope with
  | Some test =>
      match conditionToString test sourceCode with
      | Some t => if Str.truthy t then Some t else None
      | None => None
      end
  | None => None
  end.

Definition isFunctionBoundary (n : node) : bool :=
  isType "FunctionDeclaration" n || isType "ArrowFunctionExpression" n
  || isType "FunctionExpression" n || isType "ClassMethod" n.

(** which branch of an [if] holds the call *)
Definition ifBranch (call scope : node) : string :=
  match field "alternate" scope with
  | Some alt =>
      if Nat.leb (a_start (info alt)) (a_start (info call))
         && Nat.leb (a_end (info call)) (a_end (info alt))
      then "else" else "if"
  | None => "if"
  end.

(** which arm of a conditional expression holds the call *)
Definition ternaryBranch (call scope : node) : string :=
  match field "alternate" scope with
  | Some alt =>
      if Nat.leb (a_start (info alt)) (a_start (info call))
      then ":" else "?"
  | None => "?"
  end.

(** The loop of [getEnclosingConditions] over the paths above the call,
    nearest first; the root (last of the chain) has no path. *)
Fixpoint enclosingFrom (call : node) (sourceCode : string)
  (chain : list node) : list Condition :=
  match chain with
  | scope :: ((_ :: _) as rest) =>
      let continue :=
        if isFunctionBoundary scope then []
        else enclosingFrom call sourceCode rest in
      if isType "IfStatement" scope then
        match condTextOf scope sourceCode with
        | Some condText => [mkCondition condText (ifBranch call scope)]
        | None => continue
        end
      else if isType "ConditionalExpression" scope then
        match condTextOf scope sourceCode with
        | Some condText => [mkCondition condText (ternaryBranch call scope)]
        | None => continue
        end
      else continue
  | _ => []
  end.

Definition getEnclosingConditions (p : NodePath) (sourceCode : string)
  : list Condition :=
  enclosingFrom (p_node p) sourceCode (p_ancestors p).

Record Symbol : Type := mkSymbol {
  sy_id : string;
  sy_name : string;
  sy_type : string;
  sy_file : string;
  sy_startLine : nat;
  sy_endLine : nat;
  sy_params : option (list string);
  sy_exported : option bool;
  sy_parent : option string;
  sy_methods : option (list string);
  sy_superClass : option (option string)
}.

Record Call : Type := mkCall {
  k_caller : string;
  k_callee : string;
  k_objectName : option string;
  k_conditions : list Condition;
  k_line : nat
}.

Definition symbolId (relFile name : string) : string :=
  relFile ++ "::" ++ name.

Definition paramName (rest : bool) (p : node) : string :=
  if isType "Identifier" p then nameOf (Some p)
  else if isType "AssignmentPattern" p
          && match field "left" p with
             | Some l => isType "Identifier" l | None => false end
  then nameOf (field "left" p)
  else if rest && isType "RestElement" p
          && match field "argument" p with
             | Some a => isType "Identifier" a | None => false end
  then "..." ++ nameOf (field "argument" p)
  else "...".

Definition exportedUnder (ts : list string) (o : option node) : bool :=
  match o with
  | Some n => Str.mem (type n) ts
  | None => false
  end.

Definition methodSymbols (relFile className : string) (cls : node)
  : list Symbol :=
  flat_map
    (fun member =>
       if isType "ClassMethod" member
          && Str.some_truthy (name (field "key" member))
       then
         let m := nameOf (field "key" member) in
         [mkSymbol (symbolId relFile (className ++ "." ++ m))
            (className ++ "." ++ m) "method" relFile
            (startLine member) (endLine member)
            (Some (map (paramName true) (fields "params" member)))
            None (Some (symbolId relFile className)) None None]
       else [])
    (match field "body" cls with
     | Some b => fields "body" b
     | None => []
     end).

Definition methodNames (cls : node) : list string :=
  flat_map
    (fun member =>
       if isType "ClassMethod" member
          && Str.some_truthy (name (field "key" member))
       then [nameOf (field "key" member)] else [])
    (match field "body" cls with
     | Some b => fields "body" b
     | None => []
     end).

Definition isRequireCall (o : option node) : bool :=
  match o with
  | Some init =>
      isType "CallExpression" init
      && match name (field "callee" init) with
         | Some c => String.eqb c "require" | None => false end
  | None => false
  end.

Definition initIs (t : string) (d : node) : bool :=
  match field "init" d with Some i => isType t i | None => false end.

Definition variableSymbols (relFile : string) (p : NodePath) : list Symbol :=
  let n := p_node p in
  flat_map
    (fun d =>
       match name (field "id" d) with
       | Some s =>
           if negb (Str.truthy s) then []
           else if Nat.ltb (String.length s) 2 then []
           else if isRequireCall (field "init" d) then []
           else if initIs "ArrowFunctionExpression" d then []
           else if initIs "FunctionExpression" d then []
           else
             [mkSymbol (symbolId relFile s) s "variable" relFile
                (if Nat.eqb (startLine d) 0 then startLine n else startLine d)
                (if Nat.eqb (endLine d) 0 then endLine n else endLine d)
                None (Some (parentIs "ExportNamedDeclaration" p))
                None None None]
       | None => []
       end)
    (fields "declarations" n).

(** The symbol visitors of [extractSymbols] on one path. *)
Definition symbolsAt (relFile : string) (p : NodePath) : list Symbol :=
  let n := p_node p in
  if isType "FunctionDeclaration" n then
    if negb (hasField "id" n) then []
    else
      let nm := nameOf (field "id" n) in
      [mkSymbol (symbolId relFile nm) nm "function" relFile
         (startLine n) (endLine n)
         (Some (map (paramName false) (fields "params" n)))
         (Some (exportedUnder
                  ["ExportNamedDeclaration"; "ExportDefaultDeclaration"]
                  (parent p)))
         None None None]
  else if isType "ArrowFunctionExpression" n then
    match parent p with
    | Some par =>
        if negb (isType "VariableDeclarator" par)
           || negb (Str.some_truthy (name (field "id" par)))
        then []
        else
          let nm := nameOf (field "id" par) in
          [mkSymbol (symbolId relFile nm) nm "function" relFile
             (startLine n) (endLine n)
             (Some (map (paramName false) (fields "params" n)))
             (Some (exportedUnder ["ExportNamedDeclaration"] (grandParent p)))
             None None None]
    | None => []
    end
  else if isType "ClassDeclaration" n then
    if negb (hasField "id" n) then []
    else
      let className := nameOf (field "id" n) in
      (methodSymbols relFile className n
       ++ [mkSymbol (symbolId relFile className) className "class" relFile
             (startLine n) (endLine n) None
             (Some (exportedUnder
                      ["ExportNamedDeclaration"; "ExportDefaultDeclaration"]
                      (parent p)))
             None (Some (methodNames n))
             (Some (match name (field "superClass" n) with
                    | Some s => if Str.truthy s then Some s else None
                    | None => None
                    end))])%list
  else if isType "VariableDeclaration" n then
    if negb (parentIs "Program" p)
       && negb (parentIs "ExportNamedDeclaration" p)
    then []
    else variableSymbols relFile p
  else if isType "TSTypeAliasDeclaration" n then
    if negb (hasField "id" n) then []
    else
      let nm := nameOf (field "id" n) in
      [mkSymbol (symbolId relFile nm) nm "type" relFile
         (startLine n) (endLine n) None
         (Some (parentIs "ExportNamedDeclaration" p)) None None None]
  else if isType "TSInterfaceDeclaration" n then
    if negb (hasField "id" n) then []
    else
      let nm := nameOf (field "id" n) in
      [mkSymbol (symbolId relFile nm) nm "interface" relFile
         (startLine n) (endLine n) None
         (Some (parentIs "ExportNamedDeclaration" p)) None None None]
  else [].

(** The name under which a call is attributed, walking up from the call
    itself; [None] when no enclosing function claims it. *)
Fixpoint findCaller (chain : list node) : option string :=
  match chain with
  | scope :: ((par :: _) as rest) =>
      if isType "FunctionDeclaration" scope && hasField "id" scope
      then Some (nameOf (field "id" scope))
      else if (isType "ArrowFunctionExpression" scope
               || isType "FunctionExpression" scope)
              && isType "VariableDeclarator" par
              && Str.some_truthy (name (field "id" par))
      then Some (nameOf (field "id" par))
      else if isType "ClassMethod" scope
              && Str.some_truthy (name (field "key" scope))
      then
        match find (isType "ClassDeclaration") (removelast rest) with
        | Some cls =>
            if Str.some_truthy (name (field "id" cls))
            then Some (nameOf (field "id" cls) ++ "."
                       ++ nameOf (field "key" scope))
            else None
        | None => None
        end
      else findCaller rest
  | _ => None
  end.

(** The call visitor of [extractSymbols] on one path. *)
Definition callsAt (sourceCode : string) (p : NodePath) : list Call :=
  let n := p_node p in
  if isType "CallExpression" n then
    let callee := field "callee" n in
    let '(calledName, objectName) :=
      match callee with
      | Some c =>
          if isType "Identifier" c then (name callee, None)
          else if isType "MemberExpression" c
                  && Str.some_truthy (name (field "property" c))
          then (name (field "property" c),
                match field "object" c with
                | Some o => if isType "Identifier" o
                            then a_name (info o) else None
                | None => None
                end)
          else (None, None)
      | None => (None, None)
      end in
    match calledName with
    | Some called =>
        if negb (Str.truthy called) || String.eqb called "require" then []
        else
          let conditions := getEnclosingConditions p sourceCode in
          match findCaller (n :: p_ancestors p) with
          | Some caller =>
              [mkCall caller called objectName conditions (startLine n)]
          | None => []
          end
    | None => []
    end
  else [].

Definition extractSymbols (ast : node) (filePath relFile sourceCode : string)
  : list Symbol * list Call :=
  (flat_map (symbolsAt relFile) (traverse ast),
   flat_map (callsAt sourceCode) (traverse ast)).

(* ================================================================== *)
(** ** The symbol graph: [analyzeSymbols] *)

(** The arrays of conditions, by address. Every call fact owns the array
    [getEnclosingConditions] returned for it; an edge built from the fact
    holds the same array, not a copy. *)
Definition Store : Type := list (list Condition).

(** Computations over the store that may throw. *)
Definition ST (A : Type) : Type := Store -> option (A * Store).

Definition ret {A} (a : A) : ST A := fun h => Some (a, h).

Definition bindS {A B} (m : ST A) (k : A -> ST B) : ST B :=
  fun h => match m h with
           | Some (a, h') => k a h'
           | None => None
           end.

Notation "x <~ m ;; k" := (bindS m (fun x => k))
  (at level 61, m at next level, right associativity).

Definition lift {A} (o : option A) : ST A :=
  fun h => match o with Some a => Some (a, h) | None => None end.

(** a new array with the given content *)
Definition alloc (cs : list Condition) : ST nat :=
  fun h => Some (List.length h, (h ++ [cs])%list).

Definition readArr (r : nat) : ST (list Condition) :=
  fun h => Some (nth r h [], h).

Fixpoint updateAt {A} (r : nat) (f : A -> A) (h : list A) : list A :=
  match h, r with
  | [], _ => []
  | x :: h', 0 => f x :: h'
  | x :: h', S r' => x :: updateAt r' f h'
  end.

(** [arr.push(c)] *)
Definition pushArr (r : nat) (c : Condition) : ST unit :=
  fun h => Some (tt, updateAt r (fun cs => (cs ++ [c])%list) h).

Fixpoint foldS {A S} (f : S -> A -> ST S) (l : list A) (s : S) : ST S :=
  match l with
  | [] => ret s
  | a :: l' => s' <~ f s a ;; foldS f l' s'
  end.

(** A call fact together with the address of its condition array. *)
Record CallFact : Type := mkCallFact {
  cf_call : Call;
  cf_conditions : nat
}.

Fixpoint adopt (calls : list Call) : ST (list CallFact) :=
  match calls with
  | [] => ret []
  | c :: calls' =>
      r <~ alloc (k_conditions c) ;;
      rest <~ adopt calls' ;;
      ret (mkCallFact c r :: rest)
  end.

(** An edge while the graph is built. *)
Record RawEdge : Type := mkRawEdge {
  re_source : string;
  re_target : string;
  re_type : string;
  re_conditions : option nat
}.

Record ImportRef : Type := mkImportRef {
  ir_localName : string;
  ir_importedName : string;
  ir_fromFile : string
}.

(** [new Map(pairs).get(k)]: the last pair of a key wins. *)
Definition mapGet (pairs : list (string * string)) (k : string)
  : option string :=
  JsObj.own (rev pairs) k.

Definition lastSegment (s : string) : string :=
  last (Str.split "."%char s) "".

(** [methodsByName.get(callee) || []] *)
Definition methodsNamed (symbols : list Symbol) (callee : string)
  : list Symbol :=
  filter (fun s => String.eqb (sy_type s) "method"
                   && Str.includes (sy_name s) "."
                   && String.eqb (lastSegment (sy_name s)) callee)
         symbols.

(** the conditions an edge takes from a call: none when the array is
    empty *)
Definition condsOf (cf : CallFact) : option nat :=
  if Nat.ltb 0 (List.length (k_conditions (cf_call cf)))
  then Some (cf_conditions cf) else None.

Definition intraFileEdge (symbols : list Symbol) (cf : CallFact)
  : list RawEdge :=
  let call := cf_call cf in
  let symbolNames := map (fun s => (sy_name s, sy_id s)) symbols in
  match mapGet symbolNames (k_caller call) with
  | None => []
  | Some callerId =>
      if negb (Str.truthy callerId) then []
      else
        let direct :=
          match mapGet symbolNames (k_callee call) with
          | Some i => if Str.truthy i then Some i else None
          | None => None
          end in
        let calleeId :=
          match direct with
          | Some i => Some i
          | None =>
              if Str.some_truthy (k_objectName call) then
                match methodsNamed symbols (k_callee call) with
                | [] => None
                | [c] => Some (sy_id c)
                | (c0 :: _) as candidates =>
                    let wanted :=
                      (match k_objectName call with
                       | Some o => o | None => "" end)
                      ++ "." ++ k_callee call in
                    match find (fun c => String.eqb (sy_name c) wanted)
                            candidates with
                    | Some exact => Some (sy_id exact)
                    | None => Some (sy_id c0)
                    end
                end
              else None
          end in
        match calleeId with
        | Some i =>
            if Str.truthy i && negb (String.eqb callerId i)
            then [mkRawEdge callerId i "calls" (condsOf cf)]
            else []
        | None => []
        end
  end.

Definition importRefs (imports : list Import) : list ImportRef :=
  flat_map
    (fun imp =>
       if Str.truthy (i_resolved imp) then
         map (fun spec =>
                mkImportRef (s_name spec)
                  (if String.eqb (s_type spec) "default"
                   then "default" else s_name spec)
                  (i_resolved imp))
             (i_specifiers imp)
       else [])
    imports.

Record Pass1 : Type := mkPass1 {
  allSymbols : list Symbol;
  allEdges : list RawEdge;
  fileImports : JsObj.dict (list ImportRef)
}.

Definition firstPassSymbols (w : World) (rootDir : string)
  (acc : Pass1) (file : string) : ST Pass1 :=
  let fullPath := Path.join rootDir file in
  ast <~ lift (parseFile w fullPath) ;;
  match ast with
  | None => ret acc
  | Some ast =>
      sourceCode <~ lift (readFileSync w fullPath) ;;
      let '(symbols, calls) := extractSymbols ast fullPath file sourceCode in
      facts <~ adopt calls ;;
      let edges := flat_map (intraFileEdge symbols) facts in
      let imports := extractImports w ast fullPath rootDir in
      ret (mkPass1 (allSymbols acc ++ symbols)%list
             (allEdges acc ++ edges)%list
             (JsObj.set (fileImports acc) file (importRefs imports)))
  end.

(** [symbolByFile]: file -> symbol name -> symbol id *)
Definition indexSymbols (symbols : list Symbol)
  : JsObj.dict (JsObj.dict string) :=
  fold_left
    (fun idx sym =>
       let inner := match JsObj.own idx (sy_file sym) with
                    | Some d => d | None => [] end in
       JsObj.set idx (sy_file sym)
         (JsObj.set inner (sy_name sym) (sy_id sym)))
    symbols [].

(** [lookup[a] || lookup[b] || ...] on the names of one file. A member
    inherited from [Object.prototype] is truthy and ends the search; it is
    no symbol id, the edge built from it never passes the final filter, and
    so the search reports nothing for it. *)
Fixpoint firstId (lookup : JsObj.dict string) (names : list string)
  : option string :=
  match names with
  | [] => None
  | k :: names' =>
      match JsObj.get lookup k with
      | JsObj.Own i => if Str.truthy i then Some i else firstId lookup names'
      | JsObj.Inherited => None
      | JsObj.Missing => firstId lookup names'
      end
  end.

(** [symbolByFile[f]] as a table of ids: an inherited member holds no id
    of a symbol (see [firstId]), an unknown file holds nothing. In the code
    an inherited member, a function of [Object.prototype], is kept as the
    table and read by name; no id comes of it, but the read of its [caller]
    or [arguments] throws. That exception is not followed here. *)
Definition lookupOf (symbolByFile : JsObj.dict (JsObj.dict string))
  (f : string) : option (JsObj.dict string) :=
  match JsObj.get symbolByFile f with
  | JsObj.Own d => Some d
  | _ => None
  end.

Definition importEdgesOf (symbolByFile : JsObj.dict (JsObj.dict string))
  (file : string) (imports : list ImportRef) : list RawEdge :=
  flat_map
    (fun imp =>
       match lookupOf symbolByFile (ir_fromFile imp) with
       | None => []
       | Some targetLookup =>
           match firstId targetLookup
                   [ir_importedName imp; ir_localName imp] with
           | Some targetId =>
               [mkRawEdge (symbolId file (ir_localName imp)) targetId
                  "imports" None]
           | None => []
           end
       end)
    imports.

(** [localImportMap]: its own entries, and the import record that an
    assignment to [__proto__] has made its prototype. *)
Record ImportMap : Type := mkImportMap {
  im_own : JsObj.dict ImportRef;
  im_proto : option ImportRef
}.

Definition importMapSet (m : ImportMap) (imp : ImportRef) : ImportMap :=
  if String.eqb (ir_localName imp) "__proto__"
  then mkImportMap (im_own m) (Some imp)
  else mkImportMap (JsObj.put (im_own m) (ir_localName imp) imp) (im_proto m).

Definition localImportMapOf (imports : list ImportRef) : ImportMap :=
  fold_left importMapSet imports (mkImportMap [] None).

(** [localImportMap[k]]: an import record, a truthy value that is none
    (whose [fromFile] is undefined), or [undefined]. *)
Definition importMapGet (m : ImportMap) (k : string) : JsObj.slot ImportRef :=
  match JsObj.own (im_own m) k with
  | Some imp => JsObj.Own imp
  | None =>
      match im_proto m with
      | Some p =>
          if String.eqb k "__proto__" then JsObj.Own p
          else if String.eqb k "localName" then
                 if Str.truthy (ir_localName p)
                 then JsObj.Inherited else JsObj.Missing
          else if String.eqb k "importedName" then
                 if Str.truthy (ir_importedName p)
                 then JsObj.Inherited else JsObj.Missing
          else if String.eqb k "fromFile" then
                 if Str.truthy (ir_fromFile p)
                 then JsObj.Inherited else JsObj.Missing
          else if Str.mem k JsObj.prototype_names
          then JsObj.Inherited else JsObj.Missing
      | None =>
          if Str.mem k JsObj.prototype_names
          then JsObj.Inherited else JsObj.Missing
      end
  end.

(** The edges one call fact contributes in the second pass. *)
Definition crossFileEdges (symbolByFile : JsObj.dict (JsObj.dict string))
  (file : string) (localImportMap : ImportMap) (cf : CallFact)
  : list RawEdge :=
  let call := cf_call cf in
  match lookupOf symbolByFile file with
  | None => []
  | Some callerSymbols =>
      match firstId callerSymbols [k_caller call] with
      | None => []
      | Some callerId =>
          let conds := condsOf cf in
          let viaImport (imp : ImportRef) (names : list string) :=
            match lookupOf symbolByFile (ir_fromFile imp) with
            | None => []
            | Some targetLookup =>
                match firstId targetLookup names with
                | Some targetId =>
                    [mkRawEdge callerId targetId "calls" conds]
                | None => []
                end
            end in
          match importMapGet localImportMap (k_callee call) with
          | JsObj.Own imp =>
              viaImport imp [ir_importedName imp; ir_localName imp]
          | JsObj.Inherited => []
          | JsObj.Missing =>
              match k_objectName call with
              | None => []
              | Some objectName =>
                  if negb (Str.truthy objectName) then []
                  else
                    match importMapGet localImportMap objectName with
                    | JsObj.Own imp =>
                        viaImport imp
                          [ ir_importedName imp ++ "." ++ k_callee call;
                            ir_localName imp ++ "." ++ k_callee call;
                            k_callee call ]
                    | JsObj.Inherited => []
                    | JsObj.Missing =>
                        flat_map
                          (fun targetFile =>
                             match JsObj.own symbolByFile targetFile with
                             | None => []
                             | Some targetLookup =>
                                 flat_map
                                   (fun symName =>
                                      if Str.endsWith symName
                                           ("." ++ k_callee call)
                                         && Str.includes symName "."
                                      then
                                        match JsObj.own targetLookup symName
                                        with
                                        | Some targetId =>
                                            if Str.truthy targetId
                                               && negb (String.eqb targetId
                                                          callerId)
                                            then [mkRawEdge callerId targetId
                                                    "calls" conds]
                                            else []
                                        | None => []
                                        end
                                      else [])
                                   (JsObj.keys targetLookup)
                             end)
                          (JsObj.keys symbolByFile)
                    end
              end
          end
      end
  end.

Definition secondPassSymbols (w : World) (rootDir : string)
  (fileImports : JsObj.dict (list ImportRef))
  (symbolByFile : JsObj.dict (JsObj.dict string))
  (edges : list RawEdge) (file : string) : ST (list RawEdge) :=
  let imports := match JsObj.own fileImports file with
                 | Some l => l | None => [] end in
  let edges := (edges ++ importEdgesOf symbolByFile file imports)%list in
  let fullPath := Path.join rootDir file in
  ast <~ lift (parseFile w fullPath) ;;
  match ast with
  | None => ret edges
  | Some ast =>
      sourceCode <~ lift (readFileSync w fullPath) ;;
      let '(_, calls) := extractSymbols ast fullPath file sourceCode in
      facts <~ adopt calls ;;
      let localImportMap := localImportMapOf imports in
      ret (edges
           ++ flat_map (crossFileEdges symbolByFile file localImportMap)
                facts)%list
  end.

Definition rawKey (e : RawEdge) : string :=
  re_source e ++ "|" ++ re_target e ++ "|" ++ re_type e.

Definition sameCondition (a b : Condition) : bool :=
  String.eqb (c_condition a) (c_condition b)
  && String.eqb (c_branch a) (c_branch b).

(** [arr.some(ec => ec.condition === c.condition && ec.branch === c.branch)] *)
Definition hasCondition (arr : list Condition) (c : Condition) : bool :=
  existsb (fun ec => sameCondition ec c) arr.

(** push [c] into the array at [r] unless an equal entry is there *)
Definition pushIfNew (r : nat) (c : Condition) : ST unit :=
  existing <~ readArr r ;;
  if hasCondition existing c then ret tt else pushArr r c.

(** One round of the deduplication loop. *)
Definition dedupStep (edgeMap2 : JsObj.dict RawEdge) (edge : RawEdge)
  : ST (JsObj.dict RawEdge) :=
  let key := rawKey edge in
  match JsObj.own edgeMap2 key with
  | None => ret (JsObj.put edgeMap2 key edge)
  | Some existing =>
      match re_conditions edge with
      | None => ret edgeMap2
      | Some r =>
          target <~ match re_conditions existing with
                    | Some r' => ret r'
                    | None => alloc []
                    end ;;
          let edgeMap2 :=
            JsObj.put edgeMap2 key
              (mkRawEdge (re_source existing) (re_target existing)
                 (re_type existing) (Some target)) in
          cs <~ readArr r ;;
          _ <~ foldS (fun _ c => pushIfNew target c) cs tt ;;
          ret edgeMap2
      end
  end.

Definition dedupEdges (edges : list RawEdge) : ST (list RawEdge) :=
  edgeMap2 <~ foldS dedupStep edges [] ;;
  ret (JsObj.values edgeMap2).

(** An edge as the caller of [analyzeSymbols] reads it. *)
Record SymbolEdge : Type := mkSymbolEdge {
  e_source : string;
  e_target : string;
  e_type : string;
  e_conditions : option (list Condition)
}.

Record SymbolGraph : Type := mkSymbolGraph {
  sg_symbols : list Symbol;
  sg_edges : list SymbolEdge;
  sg_files : list string
}.

Definition isValidEdge (symbolIds : list string) (e : RawEdge) : bool :=
  Str.mem (re_source e) symbolIds && Str.mem (re_target e) symbolIds.

Definition viewEdge (h : Store) (e : RawEdge) : SymbolEdge :=
  mkSymbolEdge (re_source e) (re_target e) (re_type e)
    (match re_conditions e with
     | Some r => Some (nth r h [])
     | None => None
     end).

(** The two passes: the symbols, and every edge emitted, in order. *)
Definition collectRun (w : World) (rootDir : string)
  : ST (list Symbol * list RawEdge * list string) :=
  let uniqueFiles := uniqueFilesOf w rootDir EXTENSIONS in
  p1 <~ foldS (firstPassSymbols w rootDir) uniqueFiles (mkPass1 [] [] []) ;;
  let symbolByFile := indexSymbols (allSymbols p1) in
  edges <~ foldS (secondPassSymbols w rootDir (fileImports p1) symbolByFile)
             uniqueFiles (allEdges p1) ;;
  ret (allSymbols p1, edges, uniqueFiles).

Definition symbolRun (w : World) (rootDir : string)
  : ST (list Symbol * list RawEdge * list string) :=
  collected <~ collectRun w rootDir ;;
  let '(symbols, edges, uniqueFiles) := collected in
  dedupedEdges <~ dedupEdges edges ;;
  let symbolIds := map sy_id symbols in
  let validEdges := filter (isValidEdge symbolIds) dedupedEdges in
  ret (symbols, validEdges, uniqueFiles).

Definition analyzeSymbols (w : World) (rootDir : string)
  : option SymbolGraph :=
  match symbolRun w rootDir [] with
  | Some ((symbols, validEdges, files), h) =>
      Some (mkSymbolGraph symbols (map (viewEdge h) validEdges) files)
  | None => None
  end.

(* ================================================================== *)
(** ** The file endpoint of the server: [GET /api/file] *)

Module Server.

Inductive Response : Type :=
| NoCodebase                           (* 404: nothing analysed yet *)
| MissingPath                          (* 400 *)
| Forbidden                            (* 403 *)
| Content (path content : string)      (* 200 *)
| NotFound (path : string).            (* 404 *)

(** The handler, given [cachedTarget] and [req.query.path]. *)
Definition apiFile (w : World) (cachedTarget : option string)
  (queryPath : option string) : Response :=
  match cachedTarget with
  | None => NoCodebase
  | Some target =>
      match queryPath with
      | None => MissingPath
      | Some relPath =>
          if negb (Str.truthy relPath) then MissingPath
          else
            let fullPath := Path.resolve (cwd w) [target; relPath] in
            if negb (Str.startsWith fullPath
                       (Path.resolve (cwd w) [target]))
            then Forbidden
            else match readFileSync w fullPath with
                 | Some content => Content relPath content
                 | None => NotFound relPath
                 end
      end
  end.

Fixpoint segPrefix (a b : list string) : bool :=
  match a, b with
  | [], _ => true
  | x :: a', y :: b' => String.eqb x y && segPrefix a' b'
  | _ :: _, [] => false
  end.

(** A path is the directory [root] or lies below it: the segments of
    [root] lead to it. *)
Definition insideRoot (w : World) (root p : string) : bool :=
  segPrefix (Path.segments (cwd w) root) (Path.segments (cwd w) p).

End Server.

(* ================================================================== *)
(** ** The identifiers a file refers to: [extractReferencedIdentifiers] *)

(** An identifier that names what its parent declares, imports or
    re-exports. *)
Definition isDeclarationSite (par n : node) : bool :=
  (isType "FunctionDeclaration" par && String.eqb (key n) "id")
  || (isType "ClassDeclaration" par && String.eqb (key n) "id")
  || (isType "VariableDeclarator" par && String.eqb (key n) "id")
  || isType "ImportSpecifier" par
  || isType "ImportDefaultSpecifier" par
  || isType "ImportNamespaceSpecifier" par
  || isType "ExportSpecifier" par.

(** The [Identifier] visitor of [extractReferencedIdentifiers] on one
    path. [computed n] is the flag [n.computed] the parser sets on a member
    expression; the trees of this development do not carry it. In a parsed
    file every identifier has a parent. *)
Definition identifierRefsAt (computed : node -> bool) (p : NodePath)
  : list string :=
  let n := p_node p in
  if isType "Identifier" n then
    match parent p with
    | Some par =>
        if isDeclarationSite par n then []
        else if isType "MemberExpression" par
                && String.eqb (key n) "property" && negb (computed par)
        then []
        else [nameOf (Some n)]
    | None => []
    end
  else [].

(** Its [CallExpression] visitor. *)
Definition calleeRefsAt (p : NodePath) : list string :=
  let n := p_node p in
  if isType "CallExpression" n then
    match field "callee" n with
    | Some c => if isType "Identifier" c then [nameOf (Some c)] else []
    | None => []
    end
  else [].

(** The set [refs], in the order of insertion. *)
Definition extractReferencedIdentifiers (computed : node -> bool) (ast : node)
  : list string :=
  Str.dedup
    (flat_map (fun p => (identifierRefsAt computed p ++ calleeRefsAt p)%list)
       (traverse ast)).

(* ================================================================== *)
(** ** The server: the caches and the other endpoints *)

Module Api.

(** The three module variables of the server. *)
Record State : Type := mkState {
  cachedGraph : option FileGraph;
  cachedTarget : option string;
  cachedSymbols : option SymbolGraph
}.

(** Nothing is cached when the server starts. *)
Definition start : State := mkState None None None.

Inductive Request : Type :=
| PostAnalyze (bodyPath : option string)   (* POST /api/analyze *)
| GetSymbols                               (* GET /api/symbols *)
| GetFile (queryPath : option string)      (* GET /api/file *)
| GetGraph                                 (* GET /api/graph *)
| AutoAnalyze (targetArg : string).        (* the target given on the
                                              command line *)

Inductive Reply : Type :=
| Graph (g : FileGraph)            (* 200 with the file graph *)
| Symbols (s : SymbolGraph)        (* 200 with the symbol graph *)
| File (r : Server.Response)       (* what the file handler answers *)
| NotAnalyzed                      (* 404 *)
| Failed                           (* 500 *)
| Silent.                          (* no response: not a request *)

Section Handlers.

(** The process, and the two builders the server imports from the
    analyser, as a handler sees them: what a call resolves to, [None] when
    it throws. A handler relies on nothing else of them, so they stand for
    every behaviour of the analyser, a call that throws after the other
    one has returned included. *)
Variable w : World.
Variable fileGraphOf : string -> option FileGraph.      (* analyzeCodebase *)
Variable symbolGraphOf : string -> option SymbolGraph.  (* analyzeSymbols *)

(** [app.post("/api/analyze")]: graph and target are assigned before the
    symbols are built; when that throws they stay assigned, the cached
    symbols stay what they were, and the answer is 500. *)
Definition postAnalyze (st : State) (bodyPath : option string)
  : State * Reply :=
  let targetDir :=
    match bodyPath with
    | Some p => if Str.truthy p then p else cwd w
    | None => cwd w
    end in
  let resolved := Path.resolve (cwd w) [targetDir] in
  match fileGraphOf resolved with
  | None => (st, Failed)
  | Some graph =>
      let st1 := mkState (Some graph) (Some resolved) (cachedSymbols st) in
      match symbolGraphOf resolved with
      | None => (st1, Failed)
      | Some symbols =>
          (mkState (Some graph) (Some resolved) (Some symbols), Graph graph)
      end
  end.

(** [app.get("/api/symbols")] *)
Definition getSymbols (st : State) : State * Reply :=
  match cachedSymbols st, cachedTarget st with
  | Some symbols, Some target =>
      if Str.truthy target then (st, Symbols symbols)
      else (st, NotAnalyzed)
  | _, None => (st, NotAnalyzed)
  | None, Some target =>
      if Str.truthy target then
        match symbolGraphOf target with
        | Some symbols =>
            (mkState (cachedGraph st) (cachedTarget st) (Some symbols),
             Symbols symbols)
        | None => (st, Failed)
        end
      else (st, NotAnalyzed)
  end.

(** [app.get("/api/graph")] *)
Definition getGraph (st : State) : State * Reply :=
  match cachedGraph st with
  | Some g => (st, Graph g)
  | None => (st, NotAnalyzed)
  end.

(** The analysis started when a target is given on the command line, once
    it has run to its end. A failure of the file graph is not caught (the
    promise is rejected, nothing is assigned); a failure of the symbol
    graph is logged, after graph and target have been assigned. *)
Definition autoAnalyze (st : State) (targetArg : string) : State * Reply :=
  if Str.truthy targetArg then
    let resolved := Path.resolve (cwd w) [targetArg] in
    match fileGraphOf resolved with
    | None => (st, Silent)
    | Some graph =>
        let st1 := mkState (Some graph) (Some resolved) (cachedSymbols st) in
        match symbolGraphOf resolved with
        | None => (st1, Silent)
        | Some symbols =>
            (mkState (Some graph) (Some resolved) (Some symbols), Silent)
        end
    end
  else (st, Silent).

(** One request served to its end before the next one starts. *)
Definition serve (st : State) (r : Request) : State * Reply :=
  match r with
  | PostAnalyze bodyPath => postAnalyze st bodyPath
  | GetSymbols => getSymbols st
  | GetFile queryPath =>
      (st, File (Server.apiFile w (cachedTarget st) queryPath))
  | GetGraph => getGraph st
  | AutoAnalyze targetArg => autoAnalyze st targetArg
  end.

Fixpoint run (st : State) (rs : list Request) : State :=
  match rs with
  | [] => st
  | r :: rs' => run (fst (serve st r)) rs'
  end.

(** Graph and target are set together, and the graph is that of the
    target. *)
Definition graphOfTarget (st : State) : Prop :=
  match cachedTarget st with
  | None => cachedGraph st = None
  | Some target =>
      cachedGraph st <> None /\ cachedGraph st = fileGraphOf target
  end.

(** Cached symbols come with a target and are the symbols of a directory:
    of the target, or of an earlier one. *)
Definition symbolsOfSomeTarget (st : State) : Prop :=
  forall s, cachedSymbols st = Some s ->
            cachedTarget st <> None /\ exists dir, symbolGraphOf dir = Some s.

(** The caches agree: graph and symbols are those of the cached target. *)
Definition coherent (st : State) : Prop :=
  match cachedTarget st with
  | None => cachedGraph st = None /\ cachedSymbols st = None
  | Some target =>
      cachedGraph st = fileGraphOf target /\
      cachedSymbols st = symbolGraphOf target /\
      cachedGraph st <> None /\ cachedSymbols st <> None
  end.

End Handlers.

End Api.

(* ================================================================== *)
(** ** The pages that show the graphs: search box, file panel, galaxy *)

Module View.

(** [c.toLowerCase()] on one code unit below 256: the letters A-Z, and the
    capital letters of Latin-1 (all of U+00C0-U+00DE but the sign U+00D7). *)
Definition lowerChar (c : ascii) : ascii :=
  let n := nat_of_ascii c in
  if (Nat.leb 65 n && Nat.leb n 90)
     || (Nat.leb 192 n && Nat.leb n 222 && negb (Nat.eqb n 215))
  then ascii_of_nat (n + 32) else c.

(** [s.toLowerCase()] *)
Definition toLowerCase (s : string) : list ascii := map lowerChar (Str.chars s).

(** [l.indexOf(q)]: where [q] first occurs in [l], counting from [i] *)
Fixpoint indexOf (q l : list ascii) (i : nat) : option nat :=
  if Str.list_prefix q l then Some i
  else match l with
       | [] => None
       | _ :: l' => indexOf q l' (S i)
       end.

(** The loop of [fuzzyMatch]: the characters of [q] left unmatched, and the
    score. *)
Fixpoint fuzzyLoop (l q : list ascii) (score : nat) : list ascii * nat :=
  match l, q with
  | _, [] => ([], score)
  | [], _ => (q, score)
  | x :: l', c :: q' =>
      if Ascii.eqb x c then fuzzyLoop l' q' (score + 1)
      else fuzzyLoop l' q score
  end.

(** [fuzzyMatch(query, text)] of the search box *)
Definition fuzzyMatch (query text : string) : Z :=
  let lower := toLowerCase text in
  let q := toLowerCase query in
  match indexOf q lower 0 with
  | Some 0 => 100%Z
  | Some (S _) => 80%Z
  | None =>
      match fuzzyLoop lower q 0 with
      | ([], score) => Z.of_nat score
      | (_ :: _, _) => (-1)%Z
      end
  end.

(** [str.replace(/c/g, rep)] for a one-character pattern *)
Definition replaceAll (c : ascii) (rep : string) (l : list ascii) : list ascii :=
  flat_map (fun x => if Ascii.eqb x c then Str.chars rep else [x]) l.

(** [escapeHtml(str)] *)
Definition escapeHtml (str : string) : string :=
  Str.of_chars
    (replaceAll ">" "&gt;"
       (replaceAll "<" "&lt;"
          (replaceAll "&" "&amp;" (Str.chars str)))).

(** [x | 0]: the signed 32-bit integer of an integer *)
Definition toInt32 (x : Z) : Z :=
  ((x + 2147483648) mod 4294967296 - 2147483648)%Z.

Definition FOLDER_COLORS : list Z :=
  [ 0x8b5cf6; 0x06b6d4; 0x10b981; 0xf59e0b; 0xef4444;
    0xec4899; 0x6366f1; 0x14b8a6; 0x84cc16; 0xf97316 ]%Z.

(** the [hash] of [folderColor] after its loop *)
Definition folderHash (folder : string) : Z :=
  fold_left
    (fun hash c => toInt32 (hash * 31 + Z.of_nat (nat_of_ascii c))%Z)
    (Str.chars folder) 0%Z.

(** [folderColor(folder)]; [None] is [undefined] *)
Definition folderColor (folder : string) : option Z :=
  nth_error FOLDER_COLORS
    (Z.to_nat (Z.abs (folderHash folder)
               mod Z.of_nat (List.length FOLDER_COLORS))).

(** The filters of the side bar: the two sets and the weight threshold. *)
Record Filters : Type := mkFilters {
  f_folders : list string;
  f_extensions : list string;
  f_minWeight : nat
}.

(** [applyFilters(data, filters)] *)
Definition applyFilters (data : FileGraph) (filters : Filters)
  : list FileNode * list FileEdge :=
  let nodes :=
    filter
      (fun n =>
         if Nat.ltb 0 (List.length (f_folders filters))
            && negb (Str.mem (n_folder n) (f_folders filters))
         then false
         else if Nat.ltb 0 (List.length (f_extensions filters))
                 && negb (Str.mem (n_extension n) (f_extensions filters))
         then false
         else true)
      (g_nodes data) in
  let nodeIds := map n_id nodes in
  let edges :=
    filter
      (fun e =>
         if negb (Str.mem (fe_source e) nodeIds)
            || negb (Str.mem (fe_target e) nodeIds)
         then false
         else if Nat.ltb (fe_weight e) (f_minWeight filters) then false
         else true)
      (g_edges data) in
  (nodes, edges).

End View.

(* ================================================================== *)
(** ** Small projects used as test inputs *)

Module Scenarios.

(** A node on line 1 of its file. *)
Definition mk (ty key : string) (s e : nat) (nm val : option string)
  (ks : list node) : node :=
  Node (mkAttrs ty key s e (Some (1, 1)) nm val) ks.

(** One file of a project: relative path, text, and what the parser
    makes of the text. *)
Record ProjectFile : Type := mkProjectFile {
  pf_path : string;
  pf_text : string;
  pf_ast : option node
}.

(** The world of a project checked out at [/proj]. *)
Definition project (files : list ProjectFile) : World :=
  let full f := Path.join "/proj" (pf_path f) in
  {| cwd := "/";
     entries := fun root =>
       if String.eqb root "/proj" then map pf_path files else [];
     existsSync := fun p =>
       String.eqb p "/proj" || existsb (fun f => String.eqb p (full f)) files;
     readFileSync := fun p =>
       option_map pf_text (find (fun f => String.eqb p (full f)) files);
     babelParse := fun code _ =>
       match find (fun f => String.eqb code (pf_text f)) files with
       | Some f => pf_ast f
       | None => None
       end;
     scriptSrcMatches := fun _ => [] |}.

Definition cond_src : string :=
  "function foo() { if (cond) { bar(); } } function bar() {}".

Definition cond_ast : node :=
  mk "File" "" 0 57 None None
    [ mk "Program" "program" 0 57 None None
        [ mk "FunctionDeclaration" "body" 0 39 None None
            [ mk "Identifier" "id" 9 12 (Some "foo") None [];
              mk "BlockStatement" "body" 15 39 None None
                [ mk "IfStatement" "body" 17 37 None None
                    [ mk "Identifier" "test" 21 25 (Some "cond") None [];
                      mk "BlockStatement" "consequent" 27 37 None None
                        [ mk "ExpressionStatement" "body" 29 35 None None
                            [ mk "CallExpression" "expression" 29 34 None None
                                [ mk "Identifier" "callee" 29 32 (Some "bar") None [] ] ] ] ] ] ];
          mk "FunctionDeclaration" "body" 40 57 None None
            [ mk "Identifier" "id" 49 52 (Some "bar") None [];
              mk "BlockStatement" "body" 55 57 None None [] ] ] ].

Definition cjs_src : string :=
  "module.exports = { x, y };".

Definition cjs_ast : node :=
  mk "File" "" 0 26 None None
    [ mk "Program" "program" 0 26 None None
        [ mk "ExpressionStatement" "body" 0 26 None None
            [ mk "AssignmentExpression" "expression" 0 25 None None
                [ mk "MemberExpression" "left" 0 14 None None
                    [ mk "Identifier" "object" 0 6 (Some "module") None [];
                      mk "Identifier" "property" 7 14 (Some "exports") None [] ];
                  mk "ObjectExpression" "right" 17 25 None None
                    [ mk "ObjectProperty" "properties" 19 20 None None
                        [ mk "Identifier" "key" 19 20 (Some "x") None [];
                          mk "Identifier" "value" 19 20 (Some "x") None [] ];
                      mk "ObjectProperty" "properties" 22 23 None None
                        [ mk "Identifier" "key" 22 23 (Some "y") None [];
                          mk "Identifier" "value" 22 23 (Some "y") None [] ] ] ] ] ] ].

Definition selfimp_src : string :=
  "import * as self from './a.js';".

Definition selfimp_ast : node :=
  mk "File" "" 0 31 None None
    [ mk "Program" "program" 0 31 None None
        [ mk "ImportDeclaration" "body" 0 31 None None
            [ mk "ImportNamespaceSpecifier" "specifiers" 7 16 None None
                [ mk "Identifier" "local" 12 16 (Some "self") None [] ];
              mk "StringLiteral" "source" 22 30 None (Some "./a.js") [] ] ] ].

Definition side_src : string :=
  "import './b.js';".

Definition side_ast : node :=
  mk "File" "" 0 16 None None
    [ mk "Program" "program" 0 16 None None
        [ mk "ImportDeclaration" "body" 0 16 None None
            [ mk "StringLiteral" "source" 7 15 None (Some "./b.js") [] ] ] ].

Definition dup_src : string :=
  "function foo() {} function foo() {}".

Definition dup_ast : node :=
  mk "File" "" 0 35 None None
    [ mk "Program" "program" 0 35 None None
        [ mk "FunctionDeclaration" "body" 0 17 None None
            [ mk "Identifier" "id" 9 12 (Some "foo") None [];
              mk "BlockStatement" "body" 15 17 None None [] ];
          mk "FunctionDeclaration" "body" 18 35 None None
            [ mk "Identifier" "id" 27 30 (Some "foo") None [];
              mk "BlockStatement" "body" 33 35 None None [] ] ] ].

Definition lib_src : string :=
  "export class A { render() {} } export class B { render() {} }".

Definition lib_ast : node :=
  mk "File" "" 0 61 None None
    [ mk "Program" "program" 0 61 None None
        [ mk "ExportNamedDeclaration" "body" 0 30 None None
            [ mk "ClassDeclaration" "declaration" 7 30 None None
                [ mk "Identifier" "id" 13 14 (Some "A") None [];
                  mk "ClassBody" "body" 15 30 None None
                    [ mk "ClassMethod" "body" 17 28 None None
                        [ mk "Identifier" "key" 17 23 (Some "render") None [];
                          mk "BlockStatement" "body" 26 28 None None [] ] ] ] ];
          mk "ExportNamedDeclaration" "body" 31 61 None None
            [ mk "ClassDeclaration" "declaration" 38 61 None None
                [ mk "Identifier" "id" 44 45 (Some "B") None [];
                  mk "ClassBody" "body" 46 61 None None
                    [ mk "ClassMethod" "body" 48 59 None None
                        [ mk "Identifier" "key" 48 54 (Some "render") None [];
                          mk "BlockStatement" "body" 57 59 None None [] ] ] ] ] ] ].

Definition app_src : string :=
  "import { A } from './g.js'; function foo(obj) { if (p) { obj.render(); } if (q) { A.render(); } }".

Definition app_ast : node :=
  mk "File" "" 0 97 None None
    [ mk "Program" "program" 0 97 None None
        [ mk "ImportDeclaration" "body" 0 27 None None
            [ mk "ImportSpecifier" "specifiers" 9 10 None None
                [ mk "Identifier" "imported" 9 10 (Some "A") None [];
                  mk "Identifier" "local" 9 10 (Some "A") None [] ];
              mk "StringLiteral" "source" 18 26 None (Some "./g.js") [] ];
          mk "FunctionDeclaration" "body" 28 97 None None
            [ mk "Identifier" "id" 37 40 (Some "foo") None [];
              mk "Identifier" "params" 41 44 (Some "obj") None [];
              mk "BlockStatement" "body" 46 97 None None
                [ mk "IfStatement" "body" 48 72 None None
                    [ mk "Identifier" "test" 52 53 (Some "p") None [];
                      mk "BlockStatement" "consequent" 55 72 None None
                        [ mk "ExpressionStatement" "body" 57 70 None None
                            [ mk "CallExpression" "expression" 57 69 None None
                                [ mk "MemberExpression" "callee" 57 67 None None
                                    [ mk "Identifier" "object" 57 60 (Some "obj") None [];
                                      mk "Identifier" "property" 61 67 (Some "render") None [] ] ] ] ] ];
                  mk "IfStatement" "body" 73 95 None None
                    [ mk "Identifier" "test" 77 78 (Some "q") None [];
                      mk "BlockStatement" "consequent" 80 95 None None
                        [ mk "ExpressionStatement" "body" 82 93 None None
                            [ mk "CallExpression" "expression" 82 92 None None
                                [ mk "MemberExpression" "callee" 82 90 None None
                                    [ mk "Identifier" "object" 82 83 (Some "A") None [];
                                      mk "Identifier" "property" 84 90 (Some "render") None [] ] ] ] ] ] ] ] ] ].

Definition vars_src : string :=
  "const limit = 10; const n = 2;".

Definition vars_ast : node :=
  mk "File" "" 0 30 None None
    [ mk "Program" "program" 0 30 None None
        [ mk "VariableDeclaration" "body" 0 17 None None
            [ mk "VariableDeclarator" "declarations" 6 16 None None
                [ mk "Identifier" "id" 6 11 (Some "limit") None [];
                  mk "NumericLiteral" "init" 14 16 None None [] ] ];
          mk "VariableDeclaration" "body" 18 30 None None
            [ mk "VariableDeclarator" "declarations" 24 29 None None
                [ mk "Identifier" "id" 24 25 (Some "n") None [];
                  mk "NumericLiteral" "init" 28 29 None None [] ] ] ] ].

(** The tree of [module.exports = { n1, n2, ... }] for any list of
    shorthand properties (positions are left at 0: export extraction does
    not read them). *)
Definition shorthand (n : string) : node :=
  mk "ObjectProperty" "properties" 0 0 None None
    [ mk "Identifier" "key" 0 0 (Some n) None [];
      mk "Identifier" "value" 0 0 (Some n) None [] ].

Definition exportsObject (names : list string) : node :=
  mk "ObjectExpression" "right" 0 0 None None (map shorthand names).

Definition exportsAssignment (names : list string) : node :=
  mk "AssignmentExpression" "expression" 0 0 None None
    [ mk "MemberExpression" "left" 0 0 None None
        [ mk "Identifier" "object" 0 0 (Some "module") None [];
          mk "Identifier" "property" 0 0 (Some "exports") None [] ];
      exportsObject names ].

Definition moduleExportsObject (names : list string) : node :=
  mk "File" "" 0 0 None None
    [ mk "Program" "program" 0 0 None None
        [ mk "ExpressionStatement" "body" 0 0 None None
            [ exportsAssignment names ] ] ].

Definition twice_src : string :=
  "function foo() { if (p) { bar(); } if (q) { bar(); } } function bar() {}".

Definition twice_ast : node :=
  mk "File" "" 0 72 None None
    [ mk "Program" "program" 0 72 None None
        [ mk "FunctionDeclaration" "body" 0 54 None None
            [ mk "Identifier" "id" 9 12 (Some "foo") None [];
              mk "BlockStatement" "body" 15 54 None None
                [ mk "IfStatement" "body" 17 34 None None
                    [ mk "Identifier" "test" 21 22 (Some "p") None [];
                      mk "BlockStatement" "consequent" 24 34 None None
                        [ mk "ExpressionStatement" "body" 26 32 None None
                            [ mk "CallExpression" "expression" 26 31 None None
                                [ mk "Identifier" "callee" 26 29 (Some "bar") None [] ] ] ] ];
                  mk "IfStatement" "body" 35 52 None None
                    [ mk "Identifier" "test" 39 40 (Some "q") None [];
                      mk "BlockStatement" "consequent" 42 52 None None
                        [ mk "ExpressionStatement" "body" 44 50 None None
                            [ mk "CallExpression" "expression" 44 49 None None
                                [ mk "Identifier" "callee" 44 47 (Some "bar") None [] ] ] ] ] ] ];
          mk "FunctionDeclaration" "body" 55 72 None None
            [ mk "Identifier" "id" 64 67 (Some "bar") None [];
              mk "BlockStatement" "body" 70 72 None None [] ] ] ].

Definition swapped_src : string :=
  "function foo() { if (q) { bar(); } if (p) { bar(); } } function bar() {}".

Definition swapped_ast : node :=
  mk "File" "" 0 72 None None
    [ mk "Program" "program" 0 72 None None
        [ mk "FunctionDeclaration" "body" 0 54 None None
            [ mk "Identifier" "id" 9 12 (Some "foo") None [];
              mk "BlockStatement" "body" 15 54 None None
                [ mk "IfStatement" "body" 17 34 None None
                    [ mk "Identifier" "test" 21 22 (Some "q") None [];
                      mk "BlockStatement" "consequent" 24 34 None None
                        [ mk "ExpressionStatement" "body" 26 32 None None
                            [ mk "CallExpression" "expression" 26 31 None None
                                [ mk "Identifier" "callee" 26 29 (Some "bar") None [] ] ] ] ];
                  mk "IfStatement" "body" 35 52 None None
                    [ mk "Identifier" "test" 39 40 (Some "p") None [];
                      mk "BlockStatement" "consequent" 42 52 None None
                        [ mk "ExpressionStatement" "body" 44 50 None None
                            [ mk "CallExpression" "expression" 44 49 None None
                                [ mk "Identifier" "callee" 44 47 (Some "bar") None [] ] ] ] ] ] ];
          mk "FunctionDeclaration" "body" 55 72 None None
            [ mk "Identifier" "id" 64 67 (Some "bar") None [];
              mk "BlockStatement" "body" 70 72 None None [] ] ] ].

(** A file the parser rejects. *)
Definition broken_src : string :=
  "function (
".

(** A file of comments only: an empty program. *)
Definition empty_src : string := "// nothing to see".
Definition empty_ast : node :=
  mk "File" "" 0 17 None None [ mk "Program" "program" 0 17 None None [] ].

Definition condProject : World :=
  project [mkProjectFile "a.js" cond_src (Some cond_ast)].

Definition cjsProject : World :=
  project [mkProjectFile "a.js" cjs_src (Some cjs_ast)].

Definition selfImportProject : World :=
  project [mkProjectFile "a.js" selfimp_src (Some selfimp_ast)].

Definition sideEffectProject : World :=
  project [ mkProjectFile "a.js" side_src (Some side_ast);
            mkProjectFile "b.js" empty_src (Some empty_ast) ].

Definition brokenProject : World :=
  project [ mkProjectFile "broken.js" broken_src None;
            mkProjectFile "a.js" cond_src (Some cond_ast) ].

Definition duplicateProject : World :=
  project [mkProjectFile "dup.js" dup_src (Some dup_ast)].

Definition sharedProject : World :=
  project [ mkProjectFile "f.js" app_src (Some app_ast);
            mkProjectFile "g.js" lib_src (Some lib_ast) ].

Definition varsProject : World :=
  project [mkProjectFile "a.js" vars_src (Some vars_ast)].

(** The edge and the symbol the runs on [condProject] and [varsProject]
    are expected to return. *)
Definition condEdge : SymbolEdge :=
  mkSymbolEdge "a.js::foo" "a.js::bar" "calls"
    (Some [mkCondition "cond" "if"]).

Definition limitSymbol : Symbol :=
  mkSymbol "a.js::limit" "limit" "variable" "a.js" 1 1 None (Some false)
    None None None.

Definition noSymbols : SymbolGraph := mkSymbolGraph [] [] [].
Definition noFiles : FileGraph := mkFileGraph [] [] [] [].

(** What the two builders return on these projects. *)
Definition condGraph : SymbolGraph :=
  Eval vm_compute in
    match analyzeSymbols condProject "/proj" with
    | Some g => g | None => noSymbols end.

Definition varsGraph : SymbolGraph :=
  Eval vm_compute in
    match analyzeSymbols varsProject "/proj" with
    | Some g => g | None => noSymbols end.

Definition duplicateGraph : SymbolGraph :=
  Eval vm_compute in
    match analyzeSymbols duplicateProject "/proj" with
    | Some g => g | None => noSymbols end.

Definition sharedGraph : SymbolGraph :=
  Eval vm_compute in
    match analyzeSymbols sharedProject "/proj" with
    | Some g => g | None => noSymbols end.

Definition selfImportGraph : FileGraph :=
  Eval vm_compute in
    match analyzeCodebase selfImportProject "/proj" with
    | Some g => g | None => noFiles end.

Definition sideEffectGraph : FileGraph :=
  Eval vm_compute in
    match analyzeCodebase sideEffectProject "/proj" with
    | Some g => g | None => noFiles end.


Definition brokenSymbols : SymbolGraph :=
  Eval vm_compute in
    match analyzeSymbols brokenProject "/proj" with
    | Some g => g | None => noSymbols end.

Definition selfImportData : JsObj.dict FileData :=
  Eval vm_compute in
    match collectFileData selfImportProject "/proj"
            (uniqueFilesOf selfImportProject "/proj" ALL_EXTENSIONS) with
    | Some d => d | None => [] end.

Definition sideEffectData : JsObj.dict FileData :=
  Eval vm_compute in
    match collectFileData sideEffectProject "/proj"
            (uniqueFilesOf sideEffectProject "/proj" ALL_EXTENSIONS) with
    | Some d => d | None => [] end.

Definition sharedData : JsObj.dict FileData :=
  Eval vm_compute in
    match collectFileData sharedProject "/proj"
            (uniqueFilesOf sharedProject "/proj" ALL_EXTENSIONS) with
    | Some d => d | None => [] end.

Definition sharedFileGraph : FileGraph :=
  Eval vm_compute in
    match analyzeCodebase sharedProject "/proj" with
    | Some g => g | None => noFiles end.

(** The edges the file graph is expected to hold on these projects. *)
Definition selfLoopEdge : FileEdge := mkFileEdge "a.js" "a.js" 1 ["self"].
Definition weightlessEdge : FileEdge := mkFileEdge "a.js" "b.js" 0 [].
Definition sharedEdge : FileEdge := mkFileEdge "f.js" "g.js" 1 ["A"].

Definition brokenData : JsObj.dict FileData :=
  Eval vm_compute in
    match collectFileData brokenProject "/proj"
            (uniqueFilesOf brokenProject "/proj" ALL_EXTENSIONS) with
    | Some d => d | None => [] end.

(** Two calls of [bar] under two conditions, in either order. *)
Definition twiceProject : World :=
  project [mkProjectFile "a.js" twice_src (Some twice_ast)].
Definition swappedProject : World :=
  project [mkProjectFile "a.js" swapped_src (Some swapped_ast)].

(** The conditions of the two calls of [foo] in [f.js], and the edge to
    [B.render] as [analyzeSymbols] returns it. *)
Definition underP : Condition := mkCondition "p" "if".
Definition underQ : Condition := mkCondition "q" "if".
Definition leakedEdge : SymbolEdge :=
  mkSymbolEdge "f.js::foo" "g.js::B.render" "calls" (Some [underP; underQ]).

(** The edges emitted for [sharedProject], and the store then. *)
Definition sharedEmitted : list RawEdge * Store :=
  Eval vm_compute in
    match collectRun sharedProject "/proj" [] with
    | Some ((_, emitted, _), h) => (emitted, h)
    | None => ([], [])
    end.

(** A server whose analysed directory [/srv/app] has a sibling
    [/srv/app-data]. *)
Definition serverWorld : World :=
  {| cwd := "/srv";
     entries := fun _ => [];
     existsSync := fun p => String.eqb p "/srv/app-data/secret.txt";
     readFileSync := fun p =>
       if String.eqb p "/srv/app-data/secret.txt"
       then Some "hunter2" else None;
     babelParse := fun _ _ => None;
     scriptSrcMatches := fun _ => [] |}.

End Scenarios.

(** A page, the script it loads and the module the script imports. *)
Module Site.
Import Scenarios.

(** A page that loads a script, the script, and the module it imports. *)
Definition page_src : string :=
  "<script src='src/app.js'></script>
<p>constellations</p>".

Definition main_src : string :=
  "import { helper } from './util.js'; const total = 0; function main() { if (total) { helper(); } } class Box { open() { main(); } }".

Definition main_ast : node :=
  mk "File" "" 0 130 None None
    [ mk "Program" "program" 0 130 None None
        [ mk "ImportDeclaration" "body" 0 35 None None
            [ mk "ImportSpecifier" "specifiers" 9 15 None None
                [ mk "Identifier" "imported" 9 15 (Some "helper") None [];
                  mk "Identifier" "local" 9 15 (Some "helper") None [] ];
              mk "StringLiteral" "source" 23 34 None (Some "./util.js") [] ];
          mk "VariableDeclaration" "body" 36 52 None None
            [ mk "VariableDeclarator" "declarations" 42 51 None None
                [ mk "Identifier" "id" 42 47 (Some "total") None [];
                  mk "NumericLiteral" "init" 50 51 None None [] ] ];
          mk "FunctionDeclaration" "body" 53 97 None None
            [ mk "Identifier" "id" 62 66 (Some "main") None [];
              mk "BlockStatement" "body" 69 97 None None
                [ mk "IfStatement" "body" 71 95 None None
                    [ mk "Identifier" "test" 75 80 (Some "total") None [];
                      mk "BlockStatement" "consequent" 82 95 None None
                        [ mk "ExpressionStatement" "body" 84 93 None None
                            [ mk "CallExpression" "expression" 84 92 None None
                                [ mk "Identifier" "callee" 84 90 (Some "helper") None [] ] ] ] ] ] ];
          mk "ClassDeclaration" "body" 98 130 None None
            [ mk "Identifier" "id" 104 107 (Some "Box") None [];
              mk "ClassBody" "body" 108 130 None None
                [ mk "ClassMethod" "body" 110 128 None None
                    [ mk "Identifier" "key" 110 114 (Some "open") None [];
                      mk "BlockStatement" "body" 117 128 None None
                        [ mk "ExpressionStatement" "body" 119 126 None None
                            [ mk "CallExpression" "expression" 119 125 None None
                                [ mk "Identifier" "callee" 119 123 (Some "main") None [] ] ] ] ] ] ] ] ].

Definition util_src : string :=
  "export function helper() {}".

Definition util_ast : node :=
  mk "File" "" 0 27 None None
    [ mk "Program" "program" 0 27 None None
        [ mk "ExportNamedDeclaration" "body" 0 27 None None
            [ mk "FunctionDeclaration" "declaration" 7 27 None None
                [ mk "Identifier" "id" 16 22 (Some "helper") None [];
                  mk "BlockStatement" "body" 25 27 None None [] ] ] ] ].


Definition siteProject : World :=
  let base :=
    project [ mkProjectFile "index.html" page_src None;
              mkProjectFile "src/app.js" main_src (Some main_ast);
              mkProjectFile "src/util.js" util_src (Some util_ast) ] in
  mkWorld (cwd base) (entries base) (existsSync base) (readFileSync base)
    (babelParse base)
    (fun html => if String.eqb html page_src then ["src/app.js"] else []).

(** What the two builders return on it. *)
Definition siteGraph : FileGraph :=
  Eval vm_compute in
    match analyzeCodebase siteProject "/proj" with
    | Some g => g | None => noFiles end.

Definition siteSymbols : SymbolGraph :=
  Eval vm_compute in
    match analyzeSymbols siteProject "/proj" with
    | Some g => g | None => noSymbols end.

(** Nodes, edges and facts these runs are expected to hold. *)
Definition pageNode : FileNode := mkFileNode "index.html" [] 2 "." ".html" 0.
Definition mainNode : FileNode :=
  mkFileNode "src/app.js"
    [mkExport "total" "variable"; mkExport "main" "function";
     mkExport "Box" "class"]
    1 "src" ".js" 0.
Definition utilNode : FileNode :=
  mkFileNode "src/util.js" [mkExport "helper" "function"] 1 "src" ".js" 1.
Definition importEdge : FileEdge :=
  mkFileEdge "src/app.js" "src/util.js" 1 ["helper"].
Definition scriptEdge : FileEdge :=
  mkFileEdge "index.html" "src/app.js" 1 ["script-src"].
Definition importRecord : Import :=
  mkImport "./util.js" "src/util.js" [mkSpecifier "helper" "named"].
Definition guardedCall : SymbolEdge :=
  mkSymbolEdge "src/app.js::main" "src/util.js::helper" "calls"
    (Some [mkCondition "total" "if"]).
Definition openSymbol : Symbol :=
  mkSymbol "src/app.js::Box.open" "Box.open" "method" "src/app.js" 1 1
    (Some []) None (Some "src/app.js::Box") None None.
Definition helperCall : Call :=
  mkCall "main" "helper" None [mkCondition "total" "if"] 1.

(** The path of the call [helper()] in [src/app.js]. *)
Definition helperCallPath : NodePath :=
  Eval vm_compute in
    match find (fun p => isType "CallExpression" (p_node p))
            (traverse main_ast) with
    | Some p => p
    | None => mkPath main_ast []
    end.

(** A call in a callback that stands under an [if]. *)
Definition callback_src : string :=
  "function run() { if (ready) { list.forEach(() => step()); } }".

Definition callback_ast : node :=
  mk "File" "" 0 61 None None
    [ mk "Program" "program" 0 61 None None
        [ mk "FunctionDeclaration" "body" 0 61 None None
            [ mk "Identifier" "id" 9 12 (Some "run") None [];
              mk "BlockStatement" "body" 15 61 None None
                [ mk "IfStatement" "body" 17 59 None None
                    [ mk "Identifier" "test" 21 26 (Some "ready") None [];
                      mk "BlockStatement" "consequent" 28 59 None None
                        [ mk "ExpressionStatement" "body" 30 57 None None
                            [ mk "CallExpression" "expression" 30 56 None None
                                [ mk "MemberExpression" "callee" 30 42 None None
                                    [ mk "Identifier" "object" 30 34 (Some "list") None [];
                                      mk "Identifier" "property" 35 42 (Some "forEach") None [] ];
                                  mk "ArrowFunctionExpression" "arguments" 43 55 None None
                                    [ mk "CallExpression" "body" 49 55 None None
                                        [ mk "Identifier" "callee" 49 53 (Some "step") None [] ] ] ] ] ] ] ] ] ] ].

(** The path of the call [step()], inside the callback. *)
Definition stepCallPath : NodePath :=
  Eval vm_compute in
    match filter (fun p => isType "CallExpression" (p_node p))
            (traverse callback_ast) with
    | _ :: p :: _ => p
    | _ => mkPath callback_ast []
    end.

(** The same tree when [src/util.js] cannot be read: a directory of that
    name, or a file the process may not open. *)
Definition lockedProject : World :=
  mkWorld (cwd siteProject) (entries siteProject) (existsSync siteProject)
    (fun p => if String.eqb p "/proj/src/util.js" then None
              else readFileSync siteProject p)
    (babelParse siteProject) (scriptSrcMatches siteProject).

End Site.

(* ================================================================== *)
(** ** Notions the properties are stated with *)

(** The symbols the declarations of one scanned file give: none when the
    parser rejects the file. *)
Definition declaredSymbols (w : World) (rootDir file : string) : list Symbol :=
  let fullPath := Path.join rootDir file in
  match parseFile w fullPath, readFileSync w fullPath with
  | Some (Some ast), Some sourceCode =>
      fst (extractSymbols ast fullPath file sourceCode)
  | _, _ => []
  end.


(** The tag the code writes for the export kind the documentation calls
    commonjs-named. *)
Definition commonjsNamed : string := "cjs".

(** What every returned symbol satisfies. *)
Definition wellNamed (relFile : string) (s : Symbol) : Prop :=
  sy_file s = relFile /\
  sy_id s = symbolId relFile (sy_name s) /\
  (sy_type s = "variable" -> 2 <= String.length (sy_name s)).

(** Case analysis on the membership of an element in a list built by
    conditionals. *)
Ltac break_in H :=
  repeat match type of H with
    | In _ (if ?b then _ else _) => destruct b eqn:?
    | In _ (match ?x with _ => _ end) => destruct x eqn:?
    | In _ [] => destruct H
    | In _ [_] => destruct H as [H|[]]
    | In _ (_ ++ _)%list => apply in_app_or in H; destruct H as [H|H]
    end.

(** A text whose only whitespace is single spaces between other
    characters, none in front. *)
Fixpoint singleSpaced (afterSpace : bool) (l : list ascii) : bool :=
  match l with
  | [] => true
  | c :: l' =>
      if Str.is_space c
      then Ascii.eqb c " "%char && negb afterSpace && singleSpaced true l'
      else singleSpaced false l'
  end.

Definition whitespaceCollapsed (t : string) : bool :=
  singleSpaced true (Str.chars t).


(** A node of the chain above a call that neither records a condition nor
    stops the search. *)
Definition transparent (n : node) : bool :=
  negb (isType "IfStatement" n) && negb (isType "ConditionalExpression" n)
  && negb (isFunctionBoundary n).

(** The record the first pass leaves for a file the parser rejects. *)
Definition unparsedRecord : FileData := mkFileData [] [] 0 None None.

(** Some import or script reference of a file resolves to the file
    itself. *)
Definition selfReference (fileData : JsObj.dict FileData) (file : string)
  : Prop :=
  exists data,
    JsObj.own fileData file = Some data /\
    ((exists imp, In imp (fd_imports data) /\ i_resolved imp = file) \/
     (exists refs, fd_htmlScriptRefs data = Some refs /\ In file refs)).

(** Two edges join the same unordered pair of files. *)
Definition samePair (e1 e2 : FileEdge) : Prop :=
  (fe_source e1 = fe_source e2 /\ fe_target e1 = fe_target e2) \/
  (fe_source e1 = fe_target e2 /\ fe_target e1 = fe_source e2).

(** The files [analyzeCodebase] scans. *)
Definition scannedFiles (w : World) (rootDir : string) : list string :=
  uniqueFilesOf w rootDir ALL_EXTENSIONS.


(** The condition lists the emitted edges contribute to one key, as they
    stand when deduplication starts. *)
Definition contributions (h : Store) (emitted : list RawEdge) (k : string)
  : list (list Condition) :=
  flat_map
    (fun e =>
       if String.eqb (rawKey e) k
       then [match re_conditions e with
             | Some r => nth r h []
             | None => []
             end]
       else [])
    emitted.

(** What the loop over [edge.conditions] leaves in [existing.conditions],
    on the contents of the two arrays. *)
Definition mergeConditions (existing incoming : list Condition)
  : list Condition :=
  fold_left
    (fun acc c => if hasCondition acc c then acc else (acc ++ [c])%list)
    incoming existing.

(* ------------------------------------------------------------------ *)
(** *** Notions of the further properties *)

(** What the first pass stores for one file. *)
Definition firstRecord (w : World) (rootDir file : string) : option FileData :=
  let fullPath := Path.join rootDir file in
  if isHtml (Path.extname file) then
    code <- readFileSync w fullPath ;;
    scriptRefs <- extractHtmlScriptRefs w fullPath rootDir ;;
    Some (mkFileData [] [] (Str.lineCount code) (Some []) (Some scriptRefs))
  else
    ast <- parseFile w fullPath ;;
    match ast with
    | None => Some unparsedRecord
    | Some ast =>
        code <- readFileSync w fullPath ;;
        Some (mkFileData (extractExports ast fullPath) [] (Str.lineCount code)
                None None)
    end.

(** What the record of one file has become after the second pass. *)
Definition recordOf (w : World) (rootDir file : string) : option FileData :=
  d <- firstRecord w rootDir file ;;
  if isHtml (Path.extname file) then Some d
  else
    let fullPath := Path.join rootDir file in
    ast <- parseFile w fullPath ;;
    match ast with
    | None => Some d
    | Some ast =>
        Some (mkFileData (fd_exports d)
                (extractImports w ast fullPath rootDir) (fd_lines d)
                (Some (extractGlobalDeclarations ast))
                (fd_htmlScriptRefs d))
    end.

(** The imports the second pass records for one scanned file. *)
Definition importsOf (w : World) (rootDir file : string) : list Import :=
  match recordOf w rootDir file with
  | Some d => fd_imports d
  | None => []
  end.

(** Each entry is smaller than the next one, in the order of the code
    units. *)
Fixpoint ascending (l : list string) : bool :=
  match l with
  | a :: ((b :: _) as rest) => String.ltb a b && ascending rest
  | _ => true
  end.

(** The number of import records that resolve to a file. *)
Definition importsInto (target : string) (imports : list Import) : nat :=
  List.length (filter (fun imp => String.eqb (i_resolved imp) target) imports).

(** The script references the first pass records for one scanned file. *)
Definition scriptRefsOf (w : World) (rootDir file : string) : list string :=
  match recordOf w rootDir file with
  | Some d => match fd_htmlScriptRefs d with Some refs => refs | None => [] end
  | None => []
  end.

(** [fileData[target]] is truthy: the target is a scanned file, or a name
    that every object inherits. *)
Definition knownFile (w : World) (rootDir target : string) : bool :=
  Str.mem target (scannedFiles w rootDir)
  || Str.mem target JsObj.prototype_names.

(** The reference of [file] to [target] is accumulated under the key [k]. *)
Definition joins (w : World) (rootDir k file target : string) : bool :=
  knownFile w rootDir target && String.eqb (edgeKey file target) k.

(** The names accumulated under a key: the specifiers of the imports, file
    by file, then one entry for every script reference. *)
Definition referencesUnder (w : World) (rootDir k : string) : list string :=
  (flat_map
     (fun file =>
        flat_map (fun imp => if joins w rootDir k file (i_resolved imp)
                             then map s_name (i_specifiers imp) else [])
                 (importsOf w rootDir file))
     (scannedFiles w rootDir)
   ++ flat_map
        (fun file =>
           flat_map (fun target => if joins w rootDir k file target
                                   then ["script-src"] else [])
                    (scriptRefsOf w rootDir file))
        (scannedFiles w rootDir))%list.

(** A file refers to another: by an import or by a script tag. *)
Definition refersTo (w : World) (rootDir file target : string) : Prop :=
  (exists imp, In imp (importsOf w rootDir file) /\ i_resolved imp = target)
  \/ In target (scriptRefsOf w rootDir file).

(** The number of line feeds of a text. *)
Definition lineFeeds (code : string) : nat :=
  count_occ ascii_dec (Str.chars code) "010"%char.

(** A method symbol and the class symbol it belongs to. *)
Definition methodOf (s c : Symbol) : Prop :=
  sy_type c = "class" /\
  sy_file c = sy_file s /\
  sy_parent s = Some (sy_id c) /\
  exists m ms,
    sy_name s = sy_name c ++ "." ++ m /\
    sy_methods c = Some ms /\ In m ms.

(** Every file of a list can be read below [rootDir]. *)
Definition readable (w : World) (rootDir : string) (files : list string)
  : Prop :=
  forall f, In f files -> readFileSync w (Path.join rootDir f) <> None.

(** [q] can be read off [l] from left to right, skipping characters. *)
Inductive Subsequence : list ascii -> list ascii -> Prop :=
| sub_nil l : Subsequence [] l
| sub_take c q l : Subsequence q l -> Subsequence (c :: q) (c :: l)
| sub_skip x q l : Subsequence q l -> Subsequence q (x :: l).

(** The entity [escapeHtml] writes for a character, or the character. *)
Definition entityOf (c : ascii) : list ascii :=
  if Ascii.eqb c "&" then Str.chars "&amp;"
  else if Ascii.eqb c "<" then Str.chars "&lt;"
  else if Ascii.eqb c ">" then Str.chars "&gt;"
  else [c].

(** [activeFilters] as the page loads: nothing selected, threshold 0 (its
    [minRefs] dims nodes and plays no part in [applyFilters]). *)
Definition noFilters : View.Filters := View.mkFilters [] [] 0.

(** What holds of every recorded condition. *)
Definition wellFormedCondition (c : Condition) : Prop :=
  String.length (c_condition c) <= 40 /\
  whitespaceCollapsed (c_condition c) = true /\
  In (c_branch c) ["if"; "else"; "?"; ":"].

(** What holds of every array of conditions. *)
Definition soundConditions (cs : list Condition) : Prop :=
  NoDup cs /\ forall c, In c cs -> wellFormedCondition c.

(* ------------------------------------------------------------------ *)
(** *** Notions of the proofs *)

(** The counter of a file, 0 when there is none. *)
Definition counterAt (cs : JsObj.dict nat) (k : string) : nat :=
  match JsObj.own cs k with Some n => n | None => 0 end.

(** The references and the weight of the record under a key of
    [edgeMap], nothing when there is no record. *)
Definition referencesAt (em : JsObj.dict FileEdge) (k : string)
  : list string :=
  match JsObj.own em k with Some e => fe_references e | None => [] end.

Definition weightAt (em : JsObj.dict FileEdge) (k : string) : nat :=
  match JsObj.own em k with Some e => fe_weight e | None => 0 end.

Section EdgeSteps.
Variable fd : JsObj.dict FileData.

(** The bodies of the two loops that fill [edgeMap]. *)
Definition importStep (file : string) (em : JsObj.dict FileEdge) (imp : Import)
  : JsObj.dict FileEdge :=
  if negb (Str.truthy (i_resolved imp))
     || negb (JsObj.truthyAt fd (i_resolved imp))
  then em
  else accumulate em file (i_resolved imp)
         (List.length (i_specifiers imp)) (map s_name (i_specifiers imp)).

Definition scriptStep (file : string) (em : JsObj.dict FileEdge)
  (scriptFile : string) : JsObj.dict FileEdge :=
  if negb (JsObj.truthyAt fd scriptFile) then em
  else accumulate em file scriptFile 1 ["script-src"].

(** A reference of [file] to [target] goes into the record of [k]. *)
Definition takes (k file target : string) : bool :=
  JsObj.truthyAt fd target && String.eqb (edgeKey file target) k.

Definition importsIn (file : string) : list Import :=
  match JsObj.own fd file with Some d => fd_imports d | None => [] end.

Definition scriptsIn (file : string) : list string :=
  match JsObj.own fd file with
  | Some d => match fd_htmlScriptRefs d with Some r => r | None => [] end
  | None => []
  end.

End EdgeSteps.

(** No entry is greater than the next one. *)
Fixpoint nondecreasing (l : list string) : Prop :=
  match l with
  | a :: ((b :: _) as rest) => String.ltb b a = false /\ nondecreasing rest
  | _ => True
  end.

(** A path segment: none of the names [normalizeString] removes, and no
    separator inside. *)
Definition plainSegment (s : string) : Prop :=
  s <> "" /\ s <> "." /\ s <> ".." /\ ~ In Path.sep (Str.chars s).

(** Every array of the store is sound. *)
Definition soundStore (h : Store) : Prop :=
  forall r, soundConditions (nth r h []).

(** An edge under construction: of a known kind, conditions on calls
    only, and a condition array that exists and is not empty. *)
Definition soundEdge (h : Store) (e : RawEdge) : Prop :=
  (re_type e = "calls" \/ (re_type e = "imports" /\ re_conditions e = None)) /\
  forall r, re_conditions e = Some r -> r < List.length h /\ nth r h [] <> [].

(** The store has grown: no array is lost or emptied. *)
Definition grows (h h' : Store) : Prop :=
  List.length h <= List.length h' /\
  forall r, r < List.length h -> nth r h [] <> [] -> nth r h' [] <> [].

Definition soundEdges (h : Store) (edges : list RawEdge) : Prop :=
  soundStore h /\ forall e, In e edges -> soundEdge h e.

(** The invariant of the deduplication loop. *)
Definition soundMap (emitted : list RawEdge) (em : JsObj.dict RawEdge)
  (h : Store) : Prop :=
  soundStore h /\
  (forall e, In e emitted -> soundEdge h e) /\
  (forall k e, In (k, e) em -> soundEdge h e /\ k = rawKey e).

(* ================================================================== *)
(** * Properties *)

(** ** Loops, dictionaries and membership *)

Lemma mem_In (x : string) (l : list string) :
  Str.mem x l = true <-> In x l.
Proof.
  unfold Str.mem. rewrite existsb_exists. split.
  - intros [y [Hy Heq]]. apply String.eqb_eq in Heq. now subst.
  - intros H. exists x. split; [assumption | apply String.eqb_refl].
Qed.

Lemma mem_false (x : string) (l : list string) :
  Str.mem x l = false <-> ~ In x l.
Proof.
  rewrite <- mem_In. destruct (Str.mem x l); split; congruence.
Qed.

Lemma bind_Some {A B} (m : option A) (k : A -> option B) (b : B) :
  bind m k = Some b -> exists a, m = Some a /\ k a = Some b.
Proof. destruct m as [a|]; simpl; [eauto | discriminate]. Qed.

Lemma bindS_Some {A B} (m : ST A) (k : A -> ST B) h b h' :
  bindS m k h = Some (b, h') ->
  exists a h1, m h = Some (a, h1) /\ k a h1 = Some (b, h').
Proof.
  unfold bindS. destruct (m h) as [[a h1]|]; [eauto | discriminate].
Qed.

Lemma lift_Some {A} (o : option A) h a h' :
  lift o h = Some (a, h') -> o = Some a /\ h' = h.
Proof. unfold lift. destruct o; intros H; inversion H; auto. Qed.

Lemma ret_Some {A} (a : A) h b h' :
  ret a h = Some (b, h') -> b = a /\ h' = h.
Proof. unfold ret. intros H; inversion H; auto. Qed.

(** A property kept by every round of a loop holds when the loop ends. *)
Lemma foldM_invariant {A S} (P : S -> Prop) (f : S -> A -> option S) :
  forall l s s',
    P s ->
    (forall s0 a s1, In a l -> P s0 -> f s0 a = Some s1 -> P s1) ->
    foldM f l s = Some s' -> P s'.
Proof.
  induction l as [|a l IH]; simpl; intros s s' Hs Hstep Hrun.
  - inversion Hrun; now subst.
  - apply bind_Some in Hrun as [s1 [H1 H2]].
    apply (IH s1 s'); eauto.
Qed.

Lemma foldS_invariant {A S} (P : S -> Store -> Prop) (f : S -> A -> ST S) :
  forall l s h s' h',
    P s h ->
    (forall s0 h0 a s1 h1,
        In a l -> P s0 h0 -> f s0 a h0 = Some (s1, h1) -> P s1 h1) ->
    foldS f l s h = Some (s', h') -> P s' h'.
Proof.
  induction l as [|a l IH]; simpl; intros s h s' h' Hs Hstep Hrun.
  - apply ret_Some in Hrun as [-> ->]. assumption.
  - apply bindS_Some in Hrun as [s1 [h1 [H1 H2]]].
    apply (IH s1 h1 s' h'); eauto.
Qed.

Lemma mapM_Some {A B} (f : A -> option B) :
  forall l bs, mapM f l = Some bs -> Forall2 (fun a b => f a = Some b) l bs.
Proof.
  induction l as [|a l IH]; simpl; intros bs H.
  - inversion H. constructor.
  - apply bind_Some in H as [b [Hb H]].
    apply bind_Some in H as [bs' [Hbs H]]. inversion H; subst.
    constructor; auto.
Qed.

Module DictFacts.
Import JsObj.

Section Dict.
Context {A : Type}.
Implicit Types (d : dict A) (k : string) (v : A).

Lemma own_In d k v : own d k = Some v -> In (k, v) d.
Proof.
  induction d as [|[k' v'] d IH]; simpl; [discriminate|].
  destruct (String.eqb_spec k k') as [->|Hne]; intros H.
  - inversion H; subst. now left.
  - right. auto.
Qed.

Lemma own_keys d k : own d k <> None <-> In k (keys d).
Proof.
  induction d as [|[k' v'] d IH]; simpl.
  - split; [congruence | tauto].
  - destruct (String.eqb_spec k k') as [->|Hne].
    + split; [auto | congruence].
    + rewrite IH. split; [auto | intros [H|H]; congruence].
Qed.

Lemma In_replace d k v k' v' :
  In (k', v') (replace d k v) -> (k' = k /\ v' = v) \/ In (k', v') d.
Proof.
  induction d as [|[k0 v0] d IH]; simpl; [tauto|].
  destruct (String.eqb_spec k k0) as [->|Hne]; simpl.
  - intros [H|H]; [inversion H; subst; auto | auto].
  - intros [H|H]; [auto | destruct (IH H); auto].
Qed.

Lemma In_put d k v k' v' :
  In (k', v') (put d k v) -> (k' = k /\ v' = v) \/ In (k', v') d.
Proof.
  unfold put. destruct (own d k).
  - apply In_replace.
  - rewrite in_app_iff. simpl. intros [H|[H|[]]]; [auto|].
    inversion H; auto.
Qed.

Lemma In_set d k v k' v' :
  In (k', v') (set d k v) -> (k' = k /\ v' = v) \/ In (k', v') d.
Proof.
  unfold set. destruct (String.eqb k "__proto__"); [auto|].
  apply In_put.
Qed.

Lemma keys_replace d k v : keys (replace d k v) = keys d.
Proof.
  induction d as [|[k0 v0] d IH]; simpl; [reflexivity|].
  destruct (String.eqb k k0); simpl; [reflexivity | now rewrite IH].
Qed.

Lemma keys_put d k v :
  keys (put d k v) = keys d \/
  (own d k = None /\ keys (put d k v) = (keys d ++ [k])%list).
Proof.
  unfold put. destruct (own d k) eqn:E.
  - left. apply keys_replace.
  - right. split; [reflexivity|]. unfold keys. now rewrite map_app.
Qed.

Lemma NoDup_keys_put d k v : NoDup (keys d) -> NoDup (keys (put d k v)).
Proof.
  intros H. destruct (keys_put d k v) as [E|[Hn E]]; rewrite E; auto.
  apply NoDup_app; [assumption | repeat constructor; simpl; tauto |].
  intros x Hx [<-|[]]. apply own_keys in Hx. contradiction.
Qed.

Lemma NoDup_keys_set d k v : NoDup (keys d) -> NoDup (keys (set d k v)).
Proof.
  unfold set. destruct (String.eqb k "__proto__"); [auto|].
  apply NoDup_keys_put.
Qed.

Lemma In_keys_put d k v k' :
  In k' (keys (put d k v)) <-> k' = k \/ In k' (keys d).
Proof.
  destruct (keys_put d k v) as [E|[Hn E]]; rewrite E.
  - split; [auto|]. intros [->|H]; [|assumption].
    unfold put in E. destruct (own d k) eqn:Eo.
    + apply own_keys. congruence.
    + unfold keys in E. rewrite map_app in E. simpl in E.
      exfalso. apply (f_equal (@List.length string)) in E.
      rewrite length_app in E. simpl in E. lia.
  - rewrite in_app_iff. simpl. intuition.
Qed.

Lemma own_replace_same d k v :
  own d k <> None -> own (replace d k v) k = Some v.
Proof.
  induction d as [|[k0 v0] d IH]; simpl; [congruence|].
  destruct (String.eqb_spec k k0) as [->|Hne]; simpl.
  - now rewrite String.eqb_refl.
  - apply String.eqb_neq in Hne. rewrite Hne. assumption.
Qed.

Lemma own_replace_other d k v k' :
  k' <> k -> own (replace d k v) k' = own d k'.
Proof.
  intros Hne. induction d as [|[k0 v0] d IH]; simpl; [reflexivity|].
  destruct (String.eqb_spec k k0) as [->|Hne0]; simpl.
  - apply String.eqb_neq in Hne. now rewrite Hne.
  - now rewrite IH.
Qed.

Lemma own_app_miss d k k' v :
  own (d ++ [(k, v)])%list k' =
  match own d k' with
  | Some a => Some a
  | None => if String.eqb k' k then Some v else None
  end.
Proof.
  induction d as [|[k0 v0] d IH]; simpl; [reflexivity|].
  destruct (String.eqb k' k0); [reflexivity | apply IH].
Qed.

Lemma own_put_same d k v : own (put d k v) k = Some v.
Proof.
  unfold put. destruct (own d k) eqn:E.
  - apply own_replace_same. congruence.
  - rewrite own_app_miss, E. now rewrite String.eqb_refl.
Qed.

Lemma own_put_other d k v k' :
  k' <> k -> own (put d k v) k' = own d k'.
Proof.
  intros Hne. unfold put. destruct (own d k) eqn:E.
  - now apply own_replace_other.
  - rewrite own_app_miss. destruct (own d k'); [reflexivity|].
    apply String.eqb_neq in Hne. now rewrite Hne.
Qed.

Lemma own_set_same d k v :
  k <> "__proto__" -> own (set d k v) k = Some v.
Proof.
  intros H. unfold set. apply String.eqb_neq in H. rewrite H.
  apply own_put_same.
Qed.

Lemma own_set_other d k v k' :
  k' <> k -> own (set d k v) k' = own d k'.
Proof.
  intros H. unfold set. destruct (String.eqb k "__proto__"); [reflexivity|].
  now apply own_put_other.
Qed.

Lemma In_keys_set d k v k' :
  In k' (keys (set d k v)) -> k' = k \/ In k' (keys d).
Proof.
  unfold set. destruct (String.eqb k "__proto__"); [auto|].
  apply In_keys_put.
Qed.

Lemma In_values d v : In v (values d) -> exists k, In (k, v) d.
Proof.
  unfold values. rewrite in_map_iff. intros [[k v'] [E H]].
  simpl in E. subst. eauto.
Qed.

End Dict.
End DictFacts.

(* ------------------------------------------------------------------ *)
(** ** What the symbol visitors emit *)

Lemma methodSymbols_wellNamed relFile className cls s :
  In s (methodSymbols relFile className cls) -> wellNamed relFile s.
Proof.
  unfold methodSymbols. intros H. apply in_flat_map in H as [m [_ H]].
  break_in H; subst s; unfold wellNamed; simpl; repeat split.
  discriminate.
Qed.

Lemma variableSymbols_wellNamed relFile p s :
  In s (variableSymbols relFile p) -> wellNamed relFile s.
Proof.
  unfold variableSymbols. intros H. apply in_flat_map in H as [d [_ H]].
  break_in H; subst s; unfold wellNamed; simpl; repeat split.
  intros _.
  match goal with
  | E : Nat.ltb _ 2 = false |- _ => apply Nat.ltb_ge in E; exact E
  end.
Qed.

Lemma symbolsAt_wellNamed relFile p s :
  In s (symbolsAt relFile p) -> wellNamed relFile s.
Proof.
  unfold symbolsAt. intros H.
  break_in H;
    try (apply methodSymbols_wellNamed in H; exact H);
    try (apply variableSymbols_wellNamed in H; exact H);
    subst s; unfold wellNamed; simpl; repeat split; discriminate.
Qed.

Lemma declaredSymbols_wellNamed w rootDir file s :
  In s (declaredSymbols w rootDir file) -> wellNamed file s.
Proof.
  unfold declaredSymbols. intros H. break_in H. simpl in H.
  apply in_flat_map in H as [p [_ H]].
  now apply symbolsAt_wellNamed in H.
Qed.

(* ------------------------------------------------------------------ *)
(** ** The shape of a run of [analyzeSymbols] *)

Lemma firstPassSymbols_symbols w rootDir acc file h p h' :
  firstPassSymbols w rootDir acc file h = Some (p, h') ->
  allSymbols p = (allSymbols acc ++ declaredSymbols w rootDir file)%list.
Proof.
  unfold firstPassSymbols, declaredSymbols. intros H.
  apply bindS_Some in H as [ast [h1 [Hp H]]].
  apply lift_Some in Hp as [Hp ->]. rewrite Hp.
  destruct ast as [ast|].
  - apply bindS_Some in H as [src [h2 [Hs H]]].
    apply lift_Some in Hs as [Hs ->]. rewrite Hs.
    unfold extractSymbols in *. simpl in *.
    apply bindS_Some in H as [facts [h3 [_ H]]].
    apply ret_Some in H as [-> _]. reflexivity.
  - apply ret_Some in H as [-> _]. now rewrite app_nil_r.
Qed.

Lemma firstPass_symbols w rootDir :
  forall files acc h p h',
    foldS (firstPassSymbols w rootDir) files acc h = Some (p, h') ->
    allSymbols p =
    (allSymbols acc ++ flat_map (declaredSymbols w rootDir) files)%list.
Proof.
  induction files as [|f files IH]; simpl; intros acc h p h' H.
  - apply ret_Some in H as [-> _]. now rewrite app_nil_r.
  - apply bindS_Some in H as [p1 [h1 [H1 H2]]].
    apply IH in H2. apply firstPassSymbols_symbols in H1.
    rewrite H2, H1, <- app_assoc. reflexivity.
Qed.

Lemma collectRun_symbols w rootDir h symbols edges files h' :
  collectRun w rootDir h = Some ((symbols, edges, files), h') ->
  files = uniqueFilesOf w rootDir EXTENSIONS /\
  symbols = flat_map (declaredSymbols w rootDir) files.
Proof.
  unfold collectRun. intros H.
  apply bindS_Some in H as [p1 [h1 [H1 H]]].
  apply bindS_Some in H as [es [h2 [H2 H]]].
  apply ret_Some in H as [E _]. inversion E; subst.
  split; [reflexivity|]. now apply firstPass_symbols in H1.
Qed.

Lemma analyzeSymbols_shape w rootDir g :
  analyzeSymbols w rootDir = Some g ->
  exists emitted h1 deduped h2,
    collectRun w rootDir [] = Some ((sg_symbols g, emitted, sg_files g), h1) /\
    dedupEdges emitted h1 = Some (deduped, h2) /\
    sg_edges g =
    map (viewEdge h2)
        (filter (isValidEdge (map sy_id (sg_symbols g))) deduped).
Proof.
  unfold analyzeSymbols, symbolRun. intros H.
  destruct (bindS _ _ []) as [[[[symbols valid] files] h]|] eqn:E;
    [|discriminate].
  inversion H; subst g; clear H. simpl.
  apply bindS_Some in E as [[[symbols0 emitted] files0] [h1 [Hc E]]].
  apply bindS_Some in E as [deduped [h2 [Hd E]]].
  apply ret_Some in E as [E ->]. inversion E; subst.
  exists emitted, h1, deduped, h2. auto.
Qed.

(* ------------------------------------------------------------------ *)
(** ** Edges of the symbol graph join returned symbols *)

(** C1. Every edge [analyzeSymbols] returns has a source id and a target id
    that are ids of symbols of the returned symbol list: no dangling edge is
    returned. *)
Theorem symbol_edges_not_dangling (w : World) (rootDir : string)
  (g : SymbolGraph) (e : SymbolEdge) :
  analyzeSymbols w rootDir = Some g ->
  In e (sg_edges g) ->
  In (e_source e) (map sy_id (sg_symbols g)) /\
  In (e_target e) (map sy_id (sg_symbols g)).
Proof.
  intros Hrun He.
  destruct (analyzeSymbols_shape _ _ _ Hrun)
    as [emitted [h1 [deduped [h2 [_ [_ Hedges]]]]]].
  rewrite Hedges in He. apply in_map_iff in He as [raw [<- Hraw]].
  apply filter_In in Hraw as [_ Hvalid].
  unfold isValidEdge in Hvalid. apply andb_true_iff in Hvalid as [Hs Ht].
  simpl. split; now apply mem_In.
Qed.

Lemma symbol_edges_not_dangling_witness :
  analyzeSymbols Scenarios.condProject "/proj" = Some Scenarios.condGraph /\
  In Scenarios.condEdge (sg_edges Scenarios.condGraph) /\
  In "a.js::foo" (map sy_id (sg_symbols Scenarios.condGraph)) /\
  In "a.js::bar" (map sy_id (sg_symbols Scenarios.condGraph)).
Proof.
  assert (Hrun : analyzeSymbols Scenarios.condProject "/proj"
                 = Some Scenarios.condGraph) by (vm_compute; reflexivity).
  assert (He : In Scenarios.condEdge (sg_edges Scenarios.condGraph))
    by (left; reflexivity).
  split; [exact Hrun | split; [exact He |]].
  exact (symbol_edges_not_dangling _ _ _ _ Hrun He).
Defined.

(* ------------------------------------------------------------------ *)
(** ** Variable symbols *)

Lemma returned_symbol_origin w rootDir g s :
  analyzeSymbols w rootDir = Some g ->
  In s (sg_symbols g) ->
  exists file, In file (sg_files g) /\ In s (declaredSymbols w rootDir file).
Proof.
  intros Hrun Hs.
  destruct (analyzeSymbols_shape _ _ _ Hrun)
    as [emitted [h1 [deduped [h2 [Hc _]]]]].
  apply collectRun_symbols in Hc as [_ Hsym].
  rewrite Hsym in Hs. apply in_flat_map in Hs. exact Hs.
Qed.

(** C10. No variable-kind symbol of the symbol graph has a name shorter
    than two characters: a declaration of a one-character variable yields
    no symbol. *)
Theorem variable_symbols_have_two_characters (w : World) (rootDir : string)
  (g : SymbolGraph) (s : Symbol) :
  analyzeSymbols w rootDir = Some g ->
  In s (sg_symbols g) ->
  sy_type s = "variable" ->
  2 <= String.length (sy_name s).
Proof.
  intros Hrun Hs Hvar.
  destruct (returned_symbol_origin _ _ _ _ Hrun Hs) as [file [_ Hd]].
  apply declaredSymbols_wellNamed in Hd as [_ [_ Hlen]]. auto.
Qed.

Lemma variable_symbols_have_two_characters_witness :
  analyzeSymbols Scenarios.varsProject "/proj" = Some Scenarios.varsGraph /\
  sg_symbols Scenarios.varsGraph = [Scenarios.limitSymbol] /\
  2 <= String.length (sy_name Scenarios.limitSymbol).
Proof.
  assert (Hrun : analyzeSymbols Scenarios.varsProject "/proj"
                 = Some Scenarios.varsGraph) by (vm_compute; reflexivity).
  assert (Hs : sg_symbols Scenarios.varsGraph = [Scenarios.limitSymbol])
    by reflexivity.
  split; [exact Hrun | split; [exact Hs |]].
  apply (variable_symbols_have_two_characters _ _ _ _ Hrun).
  - rewrite Hs. left. reflexivity.
  - reflexivity.
Defined.

(* ------------------------------------------------------------------ *)
(** ** Symbol ids *)

Lemma fold_left_invariant {A S} (P : S -> Prop) (f : S -> A -> S) :
  forall l s,
    P s -> (forall s0 a, In a l -> P s0 -> P (f s0 a)) -> P (fold_left f l s).
Proof.
  induction l as [|a l IH]; simpl; intros s Hs Hstep; [assumption|].
  apply IH; auto.
Qed.

Lemma indexSymbols_entries (symbols : list Symbol) :
  (forall s, In s symbols -> sy_id s = symbolId (sy_file s) (sy_name s)) ->
  forall f names,
    In (f, names) (indexSymbols symbols) ->
    NoDup (JsObj.keys names) /\
    forall n i, In (n, i) names -> i = symbolId f n.
Proof.
  intros Hid. unfold indexSymbols.
  apply (fold_left_invariant
           (fun idx => forall f names, In (f, names) idx ->
                         NoDup (JsObj.keys names) /\
                         forall n i, In (n, i) names -> i = symbolId f n)).
  - intros f names [].
  - intros idx sym Hsym IH f names Hin.
    apply DictFacts.In_set in Hin as [[-> ->]|Hin]; [|auto].
    assert (Hinner : NoDup (JsObj.keys
                              match JsObj.own idx (sy_file sym) with
                              | Some d => d | None => [] end) /\
                     forall n i,
                       In (n, i) match JsObj.own idx (sy_file sym) with
                                 | Some d => d | None => [] end ->
                       i = symbolId (sy_file sym) n).
    { destruct (JsObj.own idx (sy_file sym)) as [d|] eqn:E.
      - apply DictFacts.own_In in E. auto.
      - split; [constructor | intros n i []]. }
    destruct Hinner as [Hnd Hval]. split.
    + now apply DictFacts.NoDup_keys_set.
    + intros n i Hni.
      apply DictFacts.In_set in Hni as [[-> ->]|Hni]; auto.
Qed.

(** C7, as the code has it. The returned symbol list keeps one entry for
    every declaration, in scan order, and nothing removes a repeated id:
    the list is the concatenation of what each scanned file declares, and
    every entry has the id [file::qualifiedName]. Only the index from
    (file, name) to id, which the edge resolution reads, holds a name once
    per file. *)
Theorem symbols_keep_every_declaration (w : World) (rootDir : string)
  (g : SymbolGraph) :
  analyzeSymbols w rootDir = Some g ->
  sg_symbols g = flat_map (declaredSymbols w rootDir) (sg_files g) /\
  (forall s, In s (sg_symbols g) ->
             sy_id s = symbolId (sy_file s) (sy_name s)) /\
  (forall f names,
      JsObj.own (indexSymbols (sg_symbols g)) f = Some names ->
      NoDup (JsObj.keys names) /\
      forall n i, JsObj.own names n = Some i -> i = symbolId f n).
Proof.
  intros Hrun.
  assert (Hid : forall s, In s (sg_symbols g) ->
                          sy_id s = symbolId (sy_file s) (sy_name s)).
  { intros s Hs.
    destruct (returned_symbol_origin _ _ _ _ Hrun Hs) as [file [_ Hd]].
    apply declaredSymbols_wellNamed in Hd as [Hf [Hi _]]. now rewrite Hf. }
  split; [|split; [exact Hid|]].
  - destruct (analyzeSymbols_shape _ _ _ Hrun)
      as [emitted [h1 [deduped [h2 [Hc _]]]]].
    now apply collectRun_symbols in Hc as [_ Hsym].
  - intros f names Hown. apply DictFacts.own_In in Hown.
    destruct (indexSymbols_entries _ Hid _ _ Hown) as [Hnd Hval].
    split; [exact Hnd|]. intros n i Hni. apply DictFacts.own_In in Hni. auto.
Qed.

Lemma symbols_keep_every_declaration_witness :
  analyzeSymbols Scenarios.duplicateProject "/proj"
  = Some Scenarios.duplicateGraph /\
  sg_symbols Scenarios.duplicateGraph
  = flat_map (declaredSymbols Scenarios.duplicateProject "/proj")
      (sg_files Scenarios.duplicateGraph).
Proof.
  assert (Hrun : analyzeSymbols Scenarios.duplicateProject "/proj"
                 = Some Scenarios.duplicateGraph)
    by (vm_compute; reflexivity).
  split; [exact Hrun|].
  exact (proj1 (symbols_keep_every_declaration _ _ _ Hrun)).
Defined.

(** C7, as stated, fails: a file declaring [foo] twice gives two symbols
    with the id [dup.js::foo] in the returned list. *)
Lemma repeated_declaration_repeats_id :
  analyzeSymbols Scenarios.duplicateProject "/proj"
  = Some Scenarios.duplicateGraph /\
  map sy_id (sg_symbols Scenarios.duplicateGraph)
  = ["dup.js::foo"; "dup.js::foo"] /\
  ~ NoDup (map sy_id (sg_symbols Scenarios.duplicateGraph)).
Proof.
  split; [vm_compute; reflexivity | split; [reflexivity|]].
  intros H. inversion H as [|x l Hnotin _]; subst.
  apply Hnotin. left. reflexivity.
Qed.

(* ------------------------------------------------------------------ *)
(** ** The file endpoint *)

(** C4, at the input where the code departs from it: with [/srv/app]
    analysed, the request for [../app-data/secret.txt] resolves to
    [/srv/app-data/secret.txt], a path outside [/srv/app] that passes the
    prefix test, and its content is served; a request for
    [../data/secret.txt], whose resolved path does not start with the
    characters of the root, is refused. *)
Theorem file_endpoint_serves_sibling_directory :
  Path.resolve (cwd Scenarios.serverWorld) ["/srv/app"; "../app-data/secret.txt"]
  = "/srv/app-data/secret.txt" /\
  Server.insideRoot Scenarios.serverWorld "/srv/app" "/srv/app-data/secret.txt"
  = false /\
  Server.apiFile Scenarios.serverWorld (Some "/srv/app")
    (Some "../app-data/secret.txt")
  = Server.Content "../app-data/secret.txt" "hunter2" /\
  Server.apiFile Scenarios.serverWorld (Some "/srv/app")
    (Some "../data/secret.txt")
  = Server.Forbidden.
Proof. repeat split; vm_compute; reflexivity. Qed.

(* ------------------------------------------------------------------ *)
(** ** CommonJS exports *)

Lemma shorthand_paths_export_nothing (anc : list node) (names : list string) :
  flat_map exportsAt (flat_map (pathsFrom anc) (map Scenarios.shorthand names))
  = [].
Proof.
  induction names as [|n names IH]; [reflexivity|].
  cbn [map flat_map]. rewrite flat_map_app, IH. reflexivity.
Qed.

Lemma shorthand_properties (a : attrs) (names : list string) :
  fields "properties" (Node a (map Scenarios.shorthand names))
  = map Scenarios.shorthand names.
Proof.
  unfold fields. cbn [kids].
  induction names as [|n names IH]; [reflexivity|].
  cbn [map filter]. change (String.eqb (key (Scenarios.shorthand n))
                              "properties") with true.
  cbn iota. now rewrite IH.
Qed.

Lemma shorthand_exports (names : list string) :
  Forall (fun n => Str.truthy n = true) names ->
  flat_map
    (fun prop => match name (field "key" prop) with
                 | Some s => if Str.truthy s then [mkExport s "cjs"] else []
                 | None => []
                 end)
    (map Scenarios.shorthand names)
  = map (fun n => mkExport n commonjsNamed) names.
Proof.
  induction 1 as [|n names Hn _ IH]; [reflexivity|].
  cbn [map flat_map]. rewrite IH.
  change (name (field "key" (Scenarios.shorthand n))) with (Some n).
  cbn iota. now rewrite Hn.
Qed.

Lemma exportsObject_paths (anc : list node) (names : list string) :
  flat_map exportsAt (pathsFrom anc (Scenarios.exportsObject names)) = [].
Proof.
  unfold Scenarios.exportsObject, Scenarios.mk.
  cbn [pathsFrom flat_map].
  rewrite shorthand_paths_export_nothing. reflexivity.
Qed.

Lemma exportsAssignment_here (anc : list node) (names : list string) :
  Forall (fun n => Str.truthy n = true) names ->
  exportsAt (mkPath (Scenarios.exportsAssignment names) anc)
  = map (fun n => mkExport n commonjsNamed) names.
Proof.
  intros H. unfold exportsAt. cbn [p_node].
  change (isType "ExportNamedDeclaration"
            (Scenarios.exportsAssignment names)) with false.
  change (isType "ExportDefaultDeclaration"
            (Scenarios.exportsAssignment names)) with false.
  change (isType "AssignmentExpression"
            (Scenarios.exportsAssignment names)) with true.
  cbv iota.
  change (field "right" (Scenarios.exportsAssignment names))
    with (Some (Scenarios.exportsObject names)).
  match goal with
  | |- context [field "left" ?n] =>
      let r := eval cbv in (field "left" n) in change (field "left" n) with r
  end.
  cbv iota beta.
  match goal with
  | |- context [isModuleExports ?n] => change (isModuleExports n) with true
  end.
  change (isType "Identifier" (Scenarios.exportsObject names)) with false.
  change (isType "ObjectExpression" (Scenarios.exportsObject names)) with true.
  cbv iota.
  unfold Scenarios.exportsObject, Scenarios.mk.
  rewrite shorthand_properties.
  now apply shorthand_exports.
Qed.

Lemma exportsAssignment_paths (anc : list node) (names : list string) :
  Forall (fun n => Str.truthy n = true) names ->
  flat_map exportsAt (pathsFrom anc (Scenarios.exportsAssignment names))
  = map (fun n => mkExport n commonjsNamed) names.
Proof.
  intros H.
  change (pathsFrom anc (Scenarios.exportsAssignment names))
    with (mkPath (Scenarios.exportsAssignment names) anc
          :: flat_map (pathsFrom (Scenarios.exportsAssignment names :: anc))
               (kids (Scenarios.exportsAssignment names))).
  cbn [flat_map]. rewrite (exportsAssignment_here anc names H).
  change (kids (Scenarios.exportsAssignment names))
    with [ Scenarios.mk "MemberExpression" "left" 0 0 None None
             [ Scenarios.mk "Identifier" "object" 0 0 (Some "module") None [];
               Scenarios.mk "Identifier" "property" 0 0 (Some "exports")
                 None [] ];
           Scenarios.exportsObject names ].
  cbn [flat_map]. rewrite app_nil_r, flat_map_app, exportsObject_paths.
  rewrite app_nil_r. reflexivity.
Qed.

(** C9. For the file [module.exports = { x, y };] export extraction gives
    exactly two facts, [x] and [y], both of the kind written for names
    exported through CommonJS (the tag [cjs]), and the node of the file
    graph carries them; in general the object of [module.exports = { ... }]
    gives one such fact for each of its shorthand properties, in order. *)
Theorem commonjs_object_exports_two_names :
  (extractExports Scenarios.cjs_ast "/proj/a.js"
   = [mkExport "x" commonjsNamed; mkExport "y" commonjsNamed] /\
   option_map (fun g => map n_exports (g_nodes g))
     (analyzeCodebase Scenarios.cjsProject "/proj")
   = Some [[mkExport "x" commonjsNamed; mkExport "y" commonjsNamed]]) /\
  (forall names filePath,
      Forall (fun n => Str.truthy n = true) names ->
      extractExports (Scenarios.moduleExportsObject names) filePath
      = map (fun n => mkExport n commonjsNamed) names).
Proof.
  split; [split; vm_compute; reflexivity|].
  intros names filePath Hnames.
  unfold extractExports, traverse, Scenarios.moduleExportsObject.
  unfold Scenarios.mk. cbn [kids flat_map pathsFrom].
  rewrite !app_nil_r. cbn [flat_map].
  rewrite (exportsAssignment_paths _ names Hnames).
  reflexivity.
Qed.

(* ------------------------------------------------------------------ *)
(** ** Condition texts *)

Lemma chars_append (a b : string) :
  Str.chars (a ++ b) = (Str.chars a ++ Str.chars b)%list.
Proof. induction a as [|c a IH]; simpl; [reflexivity | now rewrite IH]. Qed.

Lemma chars_of_chars (l : list ascii) : Str.chars (Str.of_chars l) = l.
Proof. apply list_ascii_of_string_of_list_ascii. Qed.

Lemma of_chars_chars (s : string) : Str.of_chars (Str.chars s) = s.
Proof. apply string_of_list_ascii_of_string. Qed.

Lemma chars_substring_0 (n : nat) (s : string) :
  Str.chars (String.substring 0 n s) = firstn n (Str.chars s).
Proof.
  revert s. induction n as [|n IH]; intros [|c s]; simpl; try reflexivity.
  now rewrite IH.
Qed.

Lemma length_chars (s : string) : List.length (Str.chars s) = String.length s.
Proof. induction s as [|c s IH]; simpl; [reflexivity | now rewrite IH]. Qed.

Lemma singleSpaced_collapse (l : list ascii) :
  forall b, singleSpaced b (Str.collapse b l) = true.
Proof.
  induction l as [|c l IH]; intros b; simpl; [reflexivity|].
  destruct (Str.is_space c) eqn:E.
  - destruct b; [apply IH|]. simpl. rewrite IH. reflexivity.
  - simpl. rewrite E. apply IH.
Qed.

Lemma singleSpaced_dropWhile (l : list ascii) :
  forall b, singleSpaced b l = true ->
            singleSpaced true (Str.dropWhile Str.is_space l) = true.
Proof.
  induction l as [|c l IH]; intros b H; simpl in *; [reflexivity|].
  destruct (Str.is_space c) eqn:E.
  - apply andb_true_iff in H as [_ H]. eauto.
  - simpl. now rewrite E.
Qed.

Lemma singleSpaced_prefix (x y : list ascii) :
  forall b, singleSpaced b (x ++ y) = true -> singleSpaced b x = true.
Proof.
  induction x as [|c x IH]; intros b H; simpl in *; [reflexivity|].
  destruct (Str.is_space c).
  - apply andb_true_iff in H as [H1 H2]. rewrite H1. simpl. eauto.
  - eauto.
Qed.

Lemma singleSpaced_app (x y : list ascii) :
  (forall b, singleSpaced b y = true) ->
  forall b, singleSpaced b x = true -> singleSpaced b (x ++ y) = true.
Proof.
  intros Hy. induction x as [|c x IH]; intros b H; simpl in *; [apply Hy|].
  destruct (Str.is_space c).
  - apply andb_true_iff in H as [H1 H2]. rewrite H1. simpl. eauto.
  - eauto.
Qed.

Lemma dropWhile_suffix {A} (f : A -> bool) (l : list A) :
  exists x, l = (x ++ Str.dropWhile f l)%list.
Proof.
  induction l as [|a l [x IH]]; simpl.
  - exists []. reflexivity.
  - destruct (f a).
    + exists (a :: x). simpl. now rewrite <- IH.
    + exists []. reflexivity.
Qed.

Lemma singleSpaced_trim (l : list ascii) (b : bool) :
  singleSpaced b l = true -> singleSpaced true (Str.trim_chars l) = true.
Proof.
  intros H. unfold Str.trim_chars.
  apply singleSpaced_dropWhile in H.
  destruct (dropWhile_suffix Str.is_space (rev (Str.dropWhile Str.is_space l)))
    as [x Hx].
  apply (singleSpaced_prefix _ (rev x)).
  rewrite <- rev_app_distr, <- Hx, rev_involutive. exact H.
Qed.

Lemma length_substring_le (n m : nat) (s : string) :
  String.length (String.substring n m s) <= m.
Proof.
  revert n m. induction s as [|c s IH]; intros [|n] [|m]; simpl; try lia.
  - specialize (IH 0 m). lia.
  - apply (IH n 0).
  - apply (IH n (S m)).
Qed.

Lemma length_append (a b : string) :
  String.length (a ++ b) = String.length a + String.length b.
Proof. induction a as [|c a IH]; simpl; [reflexivity | now rewrite IH]. Qed.

Lemma conditionToString_bounds (n : node) (sourceCode t : string) :
  conditionToString n sourceCode = Some t ->
  String.length t <= 40 /\ whitespaceCollapsed t = true.
Proof.
  unfold conditionToString. destruct (Str.truthy sourceCode); [|discriminate].
  intros H. inversion H; subst t; clear H.
  set (text := Str.collapse_trim _).
  assert (Htidy : singleSpaced true (Str.chars text) = true).
  { unfold text, Str.collapse_trim. rewrite chars_of_chars.
    apply (singleSpaced_trim _ false), singleSpaced_collapse. }
  destruct (Nat.ltb 40 (String.length text)) eqn:E.
  - split.
    + rewrite length_append. unfold Str.slice.
      pose proof (length_substring_le 0 (37 - 0) text). simpl in *. lia.
    + unfold whitespaceCollapsed, Str.slice.
      rewrite chars_append, chars_substring_0.
      apply singleSpaced_app; [intros []; reflexivity|].
      apply (singleSpaced_prefix _ (skipn (37 - 0) (Str.chars text))).
      now rewrite firstn_skipn.
  - apply Nat.ltb_ge in E. split; [exact E | exact Htidy].
Qed.

Lemma condTextOf_bounds (scope : node) (sourceCode t : string) :
  condTextOf scope sourceCode = Some t ->
  String.length t <= 40 /\ whitespaceCollapsed t = true.
Proof.
  unfold condTextOf. intros H.
  destruct (field "test" scope) as [test|]; [|discriminate].
  destruct (conditionToString test sourceCode) as [t0|] eqn:E; [|discriminate].
  destruct (Str.truthy t0); [|discriminate]. inversion H; subst.
  eapply conditionToString_bounds; eauto.
Qed.

Lemma enclosingFrom_one_bounded (call : node) (sourceCode : string) :
  forall chain,
    List.length (enclosingFrom call sourceCode chain) <= 1 /\
    forall c, In c (enclosingFrom call sourceCode chain) ->
              String.length (c_condition c) <= 40 /\
              whitespaceCollapsed (c_condition c) = true.
Proof.
  induction chain as [|scope rest IH]; simpl; [split; [lia | tauto]|].
  destruct rest as [|next rest]; [simpl; split; [lia | tauto]|].
  assert (Hcont :
            List.length (if isFunctionBoundary scope then []
                         else enclosingFrom call sourceCode (next :: rest)) <= 1
            /\ forall c,
                In c (if isFunctionBoundary scope then []
                      else enclosingFrom call sourceCode (next :: rest)) ->
                String.length (c_condition c) <= 40 /\
                whitespaceCollapsed (c_condition c) = true).
  { destruct (isFunctionBoundary scope); [simpl; split; [lia | tauto] | exact IH]. }
  destruct (isType "IfStatement" scope);
    [|destruct (isType "ConditionalExpression" scope)];
    try exact Hcont;
    (destruct (condTextOf scope sourceCode) as [t|] eqn:E; [|exact Hcont]);
    (split; [simpl; lia | intros c [<-|[]]; simpl; eapply condTextOf_bounds; eauto]).
Qed.













(* ------------------------------------------------------------------ *)
(** ** Scanned files *)

Lemma dedup_acc_In (l : list string) :
  forall seen x, In x (Str.dedup_acc seen l) <-> In x l /\ ~ In x seen.
Proof.
  induction l as [|y l IH]; intros seen x; simpl; [tauto|].
  destruct (Str.mem y seen) eqn:E.
  - rewrite IH. apply mem_In in E.
    split; [tauto|]. intros [[->|H] Hn]; [contradiction | tauto].
  - apply mem_false in E. simpl. rewrite IH. simpl.
    destruct (String.eqb_spec y x) as [->|Hne]; [tauto|].
    split; [tauto|]. intros [[H|H] Hn]; [contradiction|].
    right. split; [assumption|]. intros [H'|H']; [congruence | contradiction].
Qed.

Lemma dedup_In (l : list string) (x : string) :
  In x (Str.dedup l) <-> In x l.
Proof. unfold Str.dedup. rewrite dedup_acc_In. simpl. tauto. Qed.

Lemma scan_In w rootDir exts f :
  In f (scan w rootDir exts) <->
  exists ext, In ext exts /\ In f (glob w rootDir ext).
Proof. unfold scan. rewrite dedup_In. apply in_flat_map. Qed.

Lemma scan_extension w rootDir exts f :
  In f (scan w rootDir exts) ->
  exists ext, In ext exts /\ Str.endsWith f ext = true.
Proof.
  rewrite scan_In. intros [ext [He Hf]]. exists ext. split; [assumption|].
  unfold glob in Hf. apply filter_In in Hf as [_ Hf].
  now apply andb_true_iff in Hf as [Hf _].
Qed.

(** A scanned file carries an extension, so its name is not [__proto__]. *)
Lemma scanned_not_proto w rootDir f :
  In f (scannedFiles w rootDir) -> f <> "__proto__".
Proof.
  intros H ->. apply scan_extension in H as [ext [He Hends]].
  unfold ALL_EXTENSIONS, EXTENSIONS in He. simpl in He.
  repeat (destruct He as [<-|He]; [vm_compute in Hends; discriminate|]).
  destruct He.
Qed.

Lemma symbol_files_scanned w rootDir f :
  In f (uniqueFilesOf w rootDir EXTENSIONS) -> In f (scannedFiles w rootDir).
Proof.
  unfold scannedFiles, uniqueFilesOf. rewrite !scan_In.
  intros [ext [He Hf]]. exists ext. split; [|assumption].
  unfold ALL_EXTENSIONS. apply in_or_app. now left.
Qed.

(* ------------------------------------------------------------------ *)
(** ** The records of the two passes *)

Section FileRecords.

Variable w : World.
Variable rootDir : string.

Lemma firstPassFile_set fd f fd' :
  firstPassFile w rootDir fd f = Some fd' ->
  exists d,
    fd' = JsObj.set fd f d /\
    (isHtml (Path.extname f) = false ->
     parseFile w (Path.join rootDir f) = Some None ->
     d = unparsedRecord).
Proof.
  unfold firstPassFile. intros H.
  destruct (isHtml (Path.extname f)).
  - apply bind_Some in H as [code [_ H]].
    apply bind_Some in H as [refs [_ H]].
    inversion H. eexists. split; [reflexivity | discriminate].
  - apply bind_Some in H as [ast [Hp H]]. rewrite Hp.
    destruct ast as [ast|].
    + apply bind_Some in H as [code [_ H]]. inversion H.
      eexists. split; [reflexivity | discriminate].
    + inversion H. eexists. split; [reflexivity | reflexivity].
Qed.

Lemma secondPassFile_cases fd f fd' :
  secondPassFile w rootDir fd f = Some fd' ->
  fd' = fd \/
  exists ast d d',
    isHtml (Path.extname f) = false /\
    parseFile w (Path.join rootDir f) = Some (Some ast) /\
    JsObj.own fd f = Some d /\
    fd' = JsObj.set fd f d'.
Proof.
  unfold secondPassFile. intros H.
  destruct (isHtml (Path.extname f)) eqn:Eh; [inversion H; auto|].
  apply bind_Some in H as [ast [Hp H]].
  destruct ast as [ast|]; [|inversion H; auto].
  apply bind_Some in H as [d [Hd H]]. inversion H.
  right. exists ast, d. eexists. repeat split; eauto.
Qed.

Lemma firstPass_records (f : string) :
  f <> "__proto__" ->
  forall l fd0 fd1,
    foldM (firstPassFile w rootDir) l fd0 = Some fd1 ->
    (In f l \/ JsObj.own fd0 f <> None) -> JsObj.own fd1 f <> None.
Proof.
  intros Hf. induction l as [|a l IH]; simpl; intros fd0 fd1 Hrun Hin.
  - inversion Hrun; subst. destruct Hin as [[]|H]; assumption.
  - apply bind_Some in Hrun as [fd' [Ha Hrun]].
    apply (IH _ _ Hrun).
    apply firstPassFile_set in Ha as [d [-> _]].
    destruct (String.eqb_spec f a) as [<-|Hne].
    + right. rewrite DictFacts.own_set_same; [discriminate | assumption].
    + destruct Hin as [[E|Hin]|Hin]; [congruence | now left |].
      right. now rewrite DictFacts.own_set_other.
Qed.

Lemma firstPass_unparsed (f : string) :
  f <> "__proto__" ->
  isHtml (Path.extname f) = false ->
  parseFile w (Path.join rootDir f) = Some None ->
  forall l fd0 fd1,
    foldM (firstPassFile w rootDir) l fd0 = Some fd1 ->
    (In f l \/ JsObj.own fd0 f = Some unparsedRecord) ->
    JsObj.own fd1 f = Some unparsedRecord.
Proof.
  intros Hf Hh Hp. induction l as [|a l IH]; simpl; intros fd0 fd1 Hrun Hin.
  - inversion Hrun; subst. destruct Hin as [[]|H]; assumption.
  - apply bind_Some in Hrun as [fd' [Ha Hrun]].
    apply (IH _ _ Hrun).
    apply firstPassFile_set in Ha as [d [-> Hd]].
    destruct (String.eqb_spec f a) as [<-|Hne].
    + right. rewrite DictFacts.own_set_same by assumption.
      now rewrite (Hd Hh Hp).
    + destruct Hin as [[E|Hin]|Hin]; [congruence | now left |].
      right. now rewrite DictFacts.own_set_other.
Qed.

Lemma firstPass_keys :
  forall l fd0 fd1,
    foldM (firstPassFile w rootDir) l fd0 = Some fd1 ->
    forall k, In k (JsObj.keys fd1) -> In k l \/ In k (JsObj.keys fd0).
Proof.
  induction l as [|a l IH]; simpl; intros fd0 fd1 Hrun k Hk.
  - inversion Hrun; subst. now right.
  - apply bind_Some in Hrun as [fd' [Ha Hrun]].
    destruct (IH _ _ Hrun k Hk) as [H|H]; [auto|].
    apply firstPassFile_set in Ha as [d [-> _]].
    apply DictFacts.In_keys_set in H as [->|H]; auto.
Qed.

Lemma secondPass_keeps :
  forall l fd1 fd2,
    foldM (secondPassFile w rootDir) l fd1 = Some fd2 ->
    (forall k, In k (JsObj.keys fd2) -> In k (JsObj.keys fd1)) /\
    (forall f, JsObj.own fd1 f <> None -> JsObj.own fd2 f <> None) /\
    (forall f, parseFile w (Path.join rootDir f) = Some None ->
               JsObj.own fd2 f = JsObj.own fd1 f).
Proof.
  induction l as [|a l IH]; simpl; intros fd1 fd2 Hrun.
  - inversion Hrun; subst. auto.
  - apply bind_Some in Hrun as [fd' [Ha Hrun]].
    destruct (IH _ _ Hrun) as [Hk [Ho Hp]].
    apply secondPassFile_cases in Ha
        as [->|[ast [d [d' [Hh [Hparse [Hown ->]]]]]]]; [auto|].
    split; [|split].
    + intros k H. apply Hk in H.
      apply DictFacts.In_keys_set in H as [->|H]; [|assumption].
      apply DictFacts.own_keys. congruence.
    + intros f H. apply Ho.
      destruct (String.eqb_spec f a) as [->|Hne].
      * unfold JsObj.set. destruct (String.eqb a "__proto__"); [assumption|].
        rewrite DictFacts.own_put_same. discriminate.
      * now rewrite DictFacts.own_set_other.
    + intros f H. rewrite (Hp f H). apply DictFacts.own_set_other.
      intros ->. congruence.
Qed.

(** What the two passes leave: a record for every scanned file, records
    for scanned files only, and the empty record for a file the parser
    rejects. *)
Lemma collectFileData_records fd :
  collectFileData w rootDir (scannedFiles w rootDir) = Some fd ->
  (forall k, In k (JsObj.keys fd) -> In k (scannedFiles w rootDir)) /\
  (forall f, In f (scannedFiles w rootDir) -> JsObj.own fd f <> None) /\
  (forall f, In f (scannedFiles w rootDir) ->
             isHtml (Path.extname f) = false ->
             parseFile w (Path.join rootDir f) = Some None ->
             JsObj.own fd f = Some unparsedRecord).
Proof.
  unfold collectFileData. intros H.
  apply bind_Some in H as [fd1 [H1 H2]].
  destruct (secondPass_keeps _ _ _ H2) as [Hk [Ho Hp]].
  split; [|split].
  - intros k Hin. apply Hk in Hin.
    destruct (firstPass_keys _ _ _ H1 k Hin) as [H|[]]. exact H.
  - intros f Hf. apply Ho.
    apply (firstPass_records f (scanned_not_proto _ _ _ Hf) _ _ _ H1).
    now left.
  - intros f Hf Hh Hparse. rewrite (Hp f Hparse).
    apply (firstPass_unparsed f (scanned_not_proto _ _ _ Hf) Hh Hparse
             _ _ _ H1). now left.
Qed.

End FileRecords.

(* ------------------------------------------------------------------ *)
(** ** The edge records of the file graph *)

Lemma sort2_sym (a b : string) : Str.sort2 a b = Str.sort2 b a.
Proof.
  unfold Str.sort2, String.ltb.
  pose proof (String.compare_antisym a b) as H.
  destruct (String.compare b a) eqn:E; rewrite H; simpl; try reflexivity.
  apply String.compare_eq_iff in E. now subst.
Qed.

Lemma edgeKey_sym (a b : string) : edgeKey a b = edgeKey b a.
Proof. unfold edgeKey. now rewrite sort2_sym. Qed.

Lemma samePair_key (e1 e2 : FileEdge) :
  samePair e1 e2 ->
  edgeKey (fe_source e1) (fe_target e1) = edgeKey (fe_source e2) (fe_target e2).
Proof.
  intros [[-> ->]|[-> ->]]; [reflexivity | apply edgeKey_sym].
Qed.

Lemma accumulate_In em file target weight refs k e :
  In (k, e) (accumulate em file target weight refs) ->
  (k = edgeKey file target /\
   (e = bump (mkFileEdge file target 0 []) weight refs \/
    exists e0, In (edgeKey file target, e0) em /\ e = bump e0 weight refs)) \/
  In (k, e) em.
Proof.
  unfold accumulate. intros H.
  apply DictFacts.In_set in H as [[-> ->]|H]; [left | now right].
  split; [reflexivity|].
  destruct (JsObj.own em (edgeKey file target)) as [e0|] eqn:E; [right | now left].
  exists e0. split; [now apply DictFacts.own_In | reflexivity].
Qed.

Lemma accumulate_NoDup em file target weight refs :
  NoDup (JsObj.keys em) ->
  NoDup (JsObj.keys (accumulate em file target weight refs)).
Proof. apply DictFacts.NoDup_keys_set. Qed.

Section EdgeRecords.

Variable files : list string.
Variable fileData : JsObj.dict FileData.

(** A property of the entries of [edgeMap] ... *)
Variable R : string -> FileEdge -> Prop.

(** ... that accumulation keeps, *)
Hypothesis R_bump :
  forall k e weight refs, R k e -> R k (bump e weight refs).

(** ... that the first contribution of an import gives, *)
Hypothesis R_import :
  forall file data imp,
    In file files ->
    JsObj.own fileData file = Some data ->
    In imp (fd_imports data) ->
    Str.truthy (i_resolved imp) = true ->
    JsObj.truthyAt fileData (i_resolved imp) = true ->
    R (edgeKey file (i_resolved imp))
      (bump (mkFileEdge file (i_resolved imp) 0 [])
         (List.length (i_specifiers imp)) (map s_name (i_specifiers imp))).

(** ... and that the first contribution of a script reference gives. *)
Hypothesis R_script :
  forall file data refs scriptFile,
    In file files ->
    JsObj.own fileData file = Some data ->
    fd_htmlScriptRefs data = Some refs ->
    In scriptFile refs ->
    JsObj.truthyAt fileData scriptFile = true ->
    R (edgeKey file scriptFile)
      (bump (mkFileEdge file scriptFile 0 []) 1 ["script-src"]).

Lemma accumulate_keeps em file target weight refs :
  (forall k e, In (k, e) em -> R k e) ->
  R (edgeKey file target) (bump (mkFileEdge file target 0 []) weight refs) ->
  forall k e, In (k, e) (accumulate em file target weight refs) -> R k e.
Proof.
  intros Hem Hnew k e H.
  apply accumulate_In in H as [[-> [->|[e0 [H0 ->]]]]|H]; auto.
Qed.

Lemma importEdges_keep em file em' :
  In file files ->
  importEdges fileData em file = Some em' ->
  (forall k e, In (k, e) em -> R k e) ->
  forall k e, In (k, e) em' -> R k e.
Proof.
  unfold importEdges. intros Hfile H Hem.
  apply bind_Some in H as [data [Hd H]]. inversion H; subst em'; clear H.
  apply (fold_left_invariant (fun m => forall k e, In (k, e) m -> R k e));
    [assumption|].
  intros m imp Himp Hm.
  destruct (negb (Str.truthy (i_resolved imp))) eqn:E1; simpl; [assumption|].
  destruct (negb (JsObj.truthyAt fileData (i_resolved imp))) eqn:E2;
    simpl; [assumption|].
  apply negb_false_iff in E1, E2.
  apply accumulate_keeps; eauto.
Qed.

Lemma scriptEdges_keep em file em' :
  In file files ->
  scriptEdges fileData em file = Some em' ->
  (forall k e, In (k, e) em -> R k e) ->
  forall k e, In (k, e) em' -> R k e.
Proof.
  unfold scriptEdges. intros Hfile H Hem.
  apply bind_Some in H as [data [Hd H]].
  destruct (fd_htmlScriptRefs data) as [refs|] eqn:Er;
    inversion H; subst em'; clear H; [|assumption].
  apply (fold_left_invariant (fun m => forall k e, In (k, e) m -> R k e));
    [assumption|].
  intros m scriptFile Hs Hm.
  destruct (negb (JsObj.truthyAt fileData scriptFile)) eqn:E; [assumption|].
  apply negb_false_iff in E.
  apply accumulate_keeps; eauto.
Qed.

Lemma edgeMap_entries em1 em2 :
  foldM (importEdges fileData) files [] = Some em1 ->
  foldM (scriptEdges fileData) files em1 = Some em2 ->
  forall k e, In (k, e) em2 -> R k e.
Proof.
  intros H1 H2.
  apply (foldM_invariant (fun m => forall k e, In (k, e) m -> R k e)
           (scriptEdges fileData) files em1 em2); [| |assumption].
  - apply (foldM_invariant (fun m => forall k e, In (k, e) m -> R k e)
             (importEdges fileData) files [] em1); [| |assumption].
    + intros k e [].
    + intros m f m' Hf Hm Hstep. eapply importEdges_keep; eauto.
  - intros m f m' Hf Hm Hstep. eapply scriptEdges_keep; eauto.
Qed.

End EdgeRecords.

Lemma edgeMap_NoDup files fileData em1 em2 :
  foldM (importEdges fileData) files [] = Some em1 ->
  foldM (scriptEdges fileData) files em1 = Some em2 ->
  NoDup (JsObj.keys em2).
Proof.
  intros H1 H2.
  apply (foldM_invariant (fun m => NoDup (JsObj.keys m))
           (scriptEdges fileData) files em1 em2); [| |assumption].
  - apply (foldM_invariant (fun m => NoDup (JsObj.keys m))
             (importEdges fileData) files [] em1); [constructor| |assumption].
    intros m f m' _ Hm Hstep. unfold importEdges in Hstep.
    apply bind_Some in Hstep as [data [_ Hstep]]. inversion Hstep.
    apply (fold_left_invariant (fun m => NoDup (JsObj.keys m))); [assumption|].
    intros m0 imp _ Hm0.
    destruct (_ || _); [assumption | now apply accumulate_NoDup].
  - intros m f m' _ Hm Hstep. unfold scriptEdges in Hstep.
    apply bind_Some in Hstep as [data [_ Hstep]].
    destruct (fd_htmlScriptRefs data); inversion Hstep; subst;
      [|assumption].
    apply (fold_left_invariant (fun m => NoDup (JsObj.keys m))); [assumption|].
    intros m0 s _ Hm0.
    destruct (negb _); [assumption | now apply accumulate_NoDup].
Qed.

(* ------------------------------------------------------------------ *)
(** ** The shape of a run of [analyzeCodebase] *)

Lemma nodeOf_id fileData file n :
  nodeOf fileData file = Some n -> n_id n = file.
Proof.
  unfold nodeOf. intros H. apply bind_Some in H as [d [_ H]].
  inversion H. reflexivity.
Qed.

Lemma mapM_nodeOf_ids fileData :
  forall files nodes,
    mapM (nodeOf fileData) files = Some nodes -> map n_id nodes = files.
Proof.
  intros files nodes H. apply mapM_Some in H.
  induction H as [|f n files nodes Hn _ IH]; simpl; [reflexivity|].
  apply nodeOf_id in Hn. now rewrite IH, Hn.
Qed.


Lemma buildGraph_shape files fileData g :
  buildGraph files fileData = Some g ->
  exists nodes0 em1 em2,
    mapM (nodeOf fileData) files = Some nodes0 /\
    foldM (importEdges fileData) files [] = Some em1 /\
    foldM (scriptEdges fileData) files em1 = Some em2 /\
    g_edges g = JsObj.values em2 /\
    map n_id (g_nodes g) = files /\
    (forall n0, In n0 nodes0 ->
                exists n, In n (g_nodes g) /\ n_id n = n_id n0 /\
                          n_lines n = n_lines n0 /\
                          n_exports n = n_exports n0).
Proof.
  unfold buildGraph. intros H.
  apply bind_Some in H as [nodes0 [Hn H]].
  apply bind_Some in H as [em1 [H1 H]].
  apply bind_Some in H as [em2 [H2 H]].
  apply bind_Some in H as [counts [_ H]].
  inversion H; subst g; clear H. simpl.
  exists nodes0, em1, em2. repeat split; try assumption.
  - rewrite map_map. simpl. exact (mapM_nodeOf_ids fileData _ _ Hn).
  - intros n0 Hin. eexists. split.
    + apply in_map_iff. exists n0. split; [reflexivity | assumption].
    + simpl. auto.
Qed.

Lemma analyzeCodebase_shape w rootDir g :
  analyzeCodebase w rootDir = Some g ->
  exists fd,
    collectFileData w rootDir (scannedFiles w rootDir) = Some fd /\
    buildGraph (scannedFiles w rootDir) fd = Some g.
Proof.
  unfold analyzeCodebase. intros H.
  apply bind_Some in H as [fd [Hfd H]]. exists fd. auto.
Qed.

Lemma truthyAt_cases {A} (d : JsObj.dict A) (k : string) :
  JsObj.truthyAt d k = true ->
  In k (JsObj.keys d) \/ In k JsObj.prototype_names.
Proof.
  unfold JsObj.truthyAt, JsObj.get.
  destruct (JsObj.own d k) eqn:E.
  - intros _. left. apply DictFacts.own_keys. congruence.
  - destruct (Str.mem k JsObj.prototype_names) eqn:Em; [|discriminate].
    intros _. right. now apply mem_In.
Qed.

(* ------------------------------------------------------------------ *)
(** ** Endpoints of file edges *)

Lemma In_values_entry {A} (d : JsObj.dict A) (v : A) :
  In v (JsObj.values d) -> exists k, In (k, v) d.
Proof. apply DictFacts.In_values. Qed.

(** C2, as the code has it. The source of every FileEdge is the id of a
    returned node, and so is its target unless the target is one of the
    names every object inherits; the two endpoints differ unless an import
    or a script reference of the source file resolves to that file itself,
    and then the edge is a self-loop. *)
Theorem file_edges_join_scanned_files (w : World) (rootDir : string)
  (fd : JsObj.dict FileData) (g : FileGraph) (e : FileEdge) :
  collectFileData w rootDir (scannedFiles w rootDir) = Some fd ->
  analyzeCodebase w rootDir = Some g ->
  In e (g_edges g) ->
  In (fe_source e) (map n_id (g_nodes g)) /\
  (~ In (fe_target e) JsObj.prototype_names ->
   In (fe_target e) (map n_id (g_nodes g))) /\
  (fe_source e = fe_target e -> selfReference fd (fe_source e)).
Proof.
  intros Hfd Hrun He.
  destruct (analyzeCodebase_shape _ _ _ Hrun) as [fd' [Hfd' Hbuild]].
  rewrite Hfd in Hfd'. inversion Hfd'; subst fd'; clear Hfd'.
  destruct (buildGraph_shape _ _ _ Hbuild)
    as [nodes0 [em1 [em2 [_ [H1 [H2 [Hedges [Hids _]]]]]]]].
  rewrite Hedges in He. apply In_values_entry in He as [k He].
  rewrite Hids.
  destruct (collectFileData_records _ _ _ Hfd) as [Hkeys _].
  assert (HR : In (fe_source e) (scannedFiles w rootDir) /\
               JsObj.truthyAt fd (fe_target e) = true /\
               (fe_source e = fe_target e -> selfReference fd (fe_source e))).
  { apply (edgeMap_entries (scannedFiles w rootDir) fd
             (fun _ e => In (fe_source e) (scannedFiles w rootDir) /\
                         JsObj.truthyAt fd (fe_target e) = true /\
                         (fe_source e = fe_target e ->
                          selfReference fd (fe_source e)))
             ltac:(auto) ) with (em1 := em1) (em2 := em2) (k := k);
      try assumption.
    - intros file data imp Hfile Hdata Himp _ Htruthy. simpl.
      repeat split; try assumption.
      intros Heq. exists data. split; [assumption|]. left. eauto.
    - intros file data refs scriptFile Hfile Hdata Hrefs Hin Htruthy. simpl.
      repeat split; try assumption.
      intros Heq. exists data. split; [assumption|]. right.
      exists refs. split; [assumption | congruence]. }
  destruct HR as [Hs [Ht Hself]].
  split; [assumption | split; [|assumption]].
  intros Hnp. apply truthyAt_cases in Ht as [Ht|Ht]; [auto | contradiction].
Qed.

Lemma file_edges_join_scanned_files_witness :
  collectFileData Scenarios.sharedProject "/proj"
    (scannedFiles Scenarios.sharedProject "/proj")
  = Some Scenarios.sharedData /\
  analyzeCodebase Scenarios.sharedProject "/proj"
  = Some Scenarios.sharedFileGraph /\
  In Scenarios.sharedEdge (g_edges Scenarios.sharedFileGraph) /\
  In "f.js" (map n_id (g_nodes Scenarios.sharedFileGraph)) /\
  In "g.js" (map n_id (g_nodes Scenarios.sharedFileGraph)).
Proof.
  assert (Hfd : collectFileData Scenarios.sharedProject "/proj"
                  (scannedFiles Scenarios.sharedProject "/proj")
                = Some Scenarios.sharedData) by (vm_compute; reflexivity).
  assert (Hrun : analyzeCodebase Scenarios.sharedProject "/proj"
                 = Some Scenarios.sharedFileGraph)
    by (vm_compute; reflexivity).
  assert (He : In Scenarios.sharedEdge (g_edges Scenarios.sharedFileGraph))
    by (left; reflexivity).
  destruct (file_edges_join_scanned_files _ _ _ _ _ Hfd Hrun He)
    as [Hs [Ht _]].
  repeat split; try assumption.
  apply Ht. vm_compute. intuition discriminate.
Defined.

(** C2, as stated, fails: a file that imports itself gets an edge whose two
    endpoints are the same file. *)
Lemma self_import_gives_self_loop :
  analyzeCodebase Scenarios.selfImportProject "/proj"
  = Some Scenarios.selfImportGraph /\
  g_edges Scenarios.selfImportGraph = [Scenarios.selfLoopEdge] /\
  fe_source Scenarios.selfLoopEdge = fe_target Scenarios.selfLoopEdge.
Proof. repeat split; vm_compute; reflexivity. Qed.

(* ------------------------------------------------------------------ *)
(** ** One edge per pair of files, and its weight *)

Lemma nth_error_values {A} (d : JsObj.dict A) (i : nat) (v : A) :
  nth_error (JsObj.values d) i = Some v ->
  exists k, nth_error d i = Some (k, v) /\
            nth_error (JsObj.keys d) i = Some k.
Proof.
  unfold JsObj.values, JsObj.keys. intros H.
  destruct (nth_error d i) as [[k v']|] eqn:E.
  - rewrite (map_nth_error snd _ _ E) in H. inversion H; subst.
    exists k. split; [reflexivity|]. now rewrite (map_nth_error fst _ _ E).
  - apply nth_error_None in E.
    assert (Hlen : i < List.length (map snd d)).
    { apply nth_error_Some. congruence. }
    rewrite length_map in Hlen. lia.
Qed.

(** C5, as the code has it. The returned edge list holds at most one
    FileEdge for an unordered pair of files. The weight of an edge is the
    number of specifiers (and script references) accumulated into it: it is
    at least 1 when every import names a specifier. *)
Theorem one_edge_per_file_pair (w : World) (rootDir : string)
  (fd : JsObj.dict FileData) (g : FileGraph) :
  collectFileData w rootDir (scannedFiles w rootDir) = Some fd ->
  analyzeCodebase w rootDir = Some g ->
  (forall i j e1 e2,
      nth_error (g_edges g) i = Some e1 ->
      nth_error (g_edges g) j = Some e2 ->
      samePair e1 e2 -> i = j) /\
  ((forall f data imp,
       JsObj.own fd f = Some data -> In imp (fd_imports data) ->
       i_specifiers imp <> []) ->
   forall e, In e (g_edges g) -> 1 <= fe_weight e).
Proof.
  intros Hfd Hrun.
  destruct (analyzeCodebase_shape _ _ _ Hrun) as [fd' [Hfd' Hbuild]].
  rewrite Hfd in Hfd'. inversion Hfd'; subst fd'; clear Hfd'.
  destruct (buildGraph_shape _ _ _ Hbuild)
    as [nodes0 [em1 [em2 [_ [H1 [H2 [Hedges _]]]]]]].
  rewrite Hedges. split.
  - intros i j e1 e2 Hi Hj Hsame.
    apply nth_error_values in Hi as [k1 [Hi Hki]].
    apply nth_error_values in Hj as [k2 [Hj Hkj]].
    assert (Hkey : forall k e, In (k, e) em2 ->
                               k = edgeKey (fe_source e) (fe_target e)).
    { apply (edgeMap_entries (scannedFiles w rootDir) fd
               (fun k e => k = edgeKey (fe_source e) (fe_target e)))
        with (em1 := em1); auto. }
    apply nth_error_In in Hi as Hi', Hj as Hj'.
    apply Hkey in Hi', Hj'. simpl in *.
    assert (k1 = k2) by (rewrite Hi', Hj'; now apply samePair_key).
    subst k2.
    apply (proj1 (NoDup_nth_error (JsObj.keys em2))
             (edgeMap_NoDup _ _ _ _ H1 H2)).
    + apply nth_error_Some. congruence.
    + congruence.
  - intros Hspec e He. apply In_values_entry in He as [k He].
    apply (edgeMap_entries (scannedFiles w rootDir) fd
             (fun _ e => 1 <= fe_weight e))
      with (em1 := em1) (em2 := em2) (k := k); try assumption.
    + intros k0 e0 weight refs H. simpl. lia.
    + intros file data imp _ Hdata Himp _ _. simpl.
      specialize (Hspec _ _ _ Hdata Himp).
      destruct (i_specifiers imp); [congruence | simpl; lia].
    + intros. simpl. lia.
Qed.

Lemma one_edge_per_file_pair_witness :
  collectFileData Scenarios.sharedProject "/proj"
    (scannedFiles Scenarios.sharedProject "/proj")
  = Some Scenarios.sharedData /\
  analyzeCodebase Scenarios.sharedProject "/proj"
  = Some Scenarios.sharedFileGraph /\
  g_edges Scenarios.sharedFileGraph = [Scenarios.sharedEdge] /\
  1 <= fe_weight Scenarios.sharedEdge.
Proof.
  assert (Hfd : collectFileData Scenarios.sharedProject "/proj"
                  (scannedFiles Scenarios.sharedProject "/proj")
                = Some Scenarios.sharedData) by (vm_compute; reflexivity).
  assert (Hrun : analyzeCodebase Scenarios.sharedProject "/proj"
                 = Some Scenarios.sharedFileGraph)
    by (vm_compute; reflexivity).
  repeat split; try assumption.
  apply (proj2 (one_edge_per_file_pair _ _ _ _ Hfd Hrun)).
  - intros f data imp Hown Himp.
    unfold Scenarios.sharedData in Hown. simpl in Hown.
    destruct (String.eqb f "f.js").
    + inversion Hown; subst data. simpl in Himp.
      destruct Himp as [<-|[]]. discriminate.
    + destruct (String.eqb f "g.js"); [|discriminate].
      inversion Hown; subst data. destruct Himp.
  - left. reflexivity.
Defined.

(** C5, as stated, fails: an import without specifiers contributes weight
    0, so the edge of [import './b.js'] has weight 0. *)
Lemma side_effect_import_weighs_nothing :
  analyzeCodebase Scenarios.sideEffectProject "/proj"
  = Some Scenarios.sideEffectGraph /\
  g_edges Scenarios.sideEffectGraph = [Scenarios.weightlessEdge] /\
  fe_weight Scenarios.weightlessEdge = 0.
Proof. repeat split; vm_compute; reflexivity. Qed.

(* ------------------------------------------------------------------ *)
(** ** Files the parser rejects *)





(* ------------------------------------------------------------------ *)
(** ** Deduplication of symbol edges *)

Lemma valid_edges_distinct_keys (symbolIds : list string) :
  forall deduped : list RawEdge,
    NoDup (map rawKey deduped) ->
    NoDup (map rawKey (filter (isValidEdge symbolIds) deduped)).
Proof.
  intros deduped. induction deduped as [|e es IH]; simpl; intros H.
  - constructor.
  - inversion H as [|x xs Hfresh Hrest]; subst.
    destruct (isValidEdge symbolIds e); simpl; [|now apply IH].
    constructor; [|now apply IH].
    intros Hin. apply Hfresh. apply in_map_iff in Hin as [e' [Hk Hin]].
    apply filter_In in Hin as [Hin _]. apply in_map_iff. eauto.
Qed.

Lemma dedupStep_keys em edge h em' h' :
  dedupStep em edge h = Some (em', h') ->
  NoDup (JsObj.keys em) ->
  (forall k e, In (k, e) em -> k = rawKey e) ->
  NoDup (JsObj.keys em') /\ (forall k e, In (k, e) em' -> k = rawKey e).
Proof.
  unfold dedupStep. intros H Hnd Hkey.
  destruct (JsObj.own em (rawKey edge)) as [existing|] eqn:Eo.
  - destruct (re_conditions edge) as [r|].
    + apply bindS_Some in H as [target [h1 [_ H]]].
      apply bindS_Some in H as [cs [h2 [_ H]]].
      apply bindS_Some in H as [u [h3 [_ H]]].
      apply ret_Some in H as [-> _].
      split; [now apply DictFacts.NoDup_keys_put|].
      intros k e Hin. apply DictFacts.In_put in Hin as [[-> ->]|Hin]; [|auto].
      apply DictFacts.own_In, Hkey in Eo. unfold rawKey in *. simpl. exact Eo.
    + apply ret_Some in H as [-> _]. auto.
  - apply ret_Some in H as [-> _].
    split; [now apply DictFacts.NoDup_keys_put|].
    intros k e Hin. apply DictFacts.In_put in Hin as [[-> ->]|Hin]; auto.
Qed.

Lemma keys_of_values (em : JsObj.dict RawEdge) :
  (forall k e, In (k, e) em -> k = rawKey e) ->
  map rawKey (JsObj.values em) = JsObj.keys em.
Proof.
  induction em as [|[k e] em IH]; simpl; intros H; [reflexivity|].
  rewrite IH by auto. now rewrite <- (H k e (or_introl eq_refl)).
Qed.

Lemma dedupEdges_NoDup edges h deduped h' :
  dedupEdges edges h = Some (deduped, h') -> NoDup (map rawKey deduped).
Proof.
  unfold dedupEdges. intros H.
  apply bindS_Some in H as [em [h1 [Hfold H]]].
  apply ret_Some in H as [-> _].
  assert (Hinv : NoDup (JsObj.keys em) /\
                 forall k e, In (k, e) em -> k = rawKey e).
  { apply (foldS_invariant
             (fun m _ => NoDup (JsObj.keys m) /\
                         forall k e, In (k, e) m -> k = rawKey e)
             dedupStep edges [] h em h1); [| |assumption].
    - split; [constructor | intros k e []].
    - intros m h0 e m' h0' _ [Hnd Hkey] Hstep.
      eapply dedupStep_keys; eauto. }
  destruct Hinv as [Hnd Hkey]. now rewrite keys_of_values.
Qed.

(** The merge of two condition lists, as a function of their contents. *)

Lemma sameCondition_refl (c : Condition) : sameCondition c c = true.
Proof. unfold sameCondition. now rewrite !String.eqb_refl. Qed.

Lemma sameCondition_eq (a b : Condition) :
  sameCondition a b = true ->
  c_condition a = c_condition b /\ c_branch a = c_branch b.
Proof.
  unfold sameCondition. intros H. apply andb_true_iff in H as [H1 H2].
  apply String.eqb_eq in H1, H2. auto.
Qed.

Lemma hasCondition_app (l1 l2 : list Condition) (c : Condition) :
  hasCondition (l1 ++ l2) c = hasCondition l1 c || hasCondition l2 c.
Proof. unfold hasCondition. apply existsb_app. Qed.

Lemma hasCondition_same (l : list Condition) (a b : Condition) :
  sameCondition a b = true -> hasCondition l a = hasCondition l b.
Proof.
  intros H. apply sameCondition_eq in H as [H1 H2].
  unfold hasCondition, sameCondition. now rewrite H1, H2.
Qed.

Lemma mergeConditions_union (incoming : list Condition) :
  forall existing c,
    hasCondition (mergeConditions existing incoming) c
    = hasCondition existing c || hasCondition incoming c.
Proof.
  unfold mergeConditions.
  induction incoming as [|x xs IH]; intros existing c; simpl.
  - now rewrite orb_false_r.
  - rewrite IH.
    change (hasCondition (x :: xs) c)
      with (sameCondition x c || hasCondition xs c).
    destruct (hasCondition existing x) eqn:E.
    + destruct (sameCondition x c) eqn:Exc; simpl; [|reflexivity].
      rewrite <- (hasCondition_same existing x c Exc), E. reflexivity.
    + rewrite hasCondition_app.
      change (hasCondition [x] c) with (sameCondition x c || false).
      rewrite orb_false_r, orb_assoc. reflexivity.
Qed.

Lemma mergeConditions_comm (a b : list Condition) (c : Condition) :
  hasCondition (mergeConditions a b) c = hasCondition (mergeConditions b a) c.
Proof. rewrite !mergeConditions_union. apply orb_comm. Qed.

Lemma nth_updateAt_same {A} (f : A -> A) (d : A) :
  forall h r, r < List.length h -> nth r (updateAt r f h) d = f (nth r h d).
Proof.
  induction h as [|x h IH]; intros [|r] Hlt; simpl in *; try lia; auto.
  apply IH. lia.
Qed.

Lemma nth_updateAt_other {A} (f : A -> A) (d : A) :
  forall h r r', r' <> r -> nth r' (updateAt r f h) d = nth r' h d.
Proof.
  induction h as [|x h IH]; intros [|r] [|r'] Hne; simpl; auto; try lia.
Qed.

Lemma length_updateAt {A} (f : A -> A) :
  forall h r, List.length (updateAt r f h) = List.length h.
Proof.
  induction h as [|x h IH]; intros [|r]; simpl; auto.
Qed.

Lemma pushAll_merges (target : nat) :
  forall cs h h',
    target < List.length h ->
    foldS (fun _ c => pushIfNew target c) cs tt h = Some (tt, h') ->
    nth target h' [] = mergeConditions (nth target h []) cs /\
    (forall r, r <> target -> nth r h' [] = nth r h []) /\
    List.length h' = List.length h.
Proof.
  unfold mergeConditions.
  induction cs as [|c cs IH]; intros h h' Hlt H; simpl in *.
  - apply ret_Some in H as [_ ->]. auto.
  - apply bindS_Some in H as [u [h1 [H1 H]]].
    unfold pushIfNew in H1. apply bindS_Some in H1 as [ex [h0 [Hr H1]]].
    unfold readArr in Hr. inversion Hr; subst ex h0; clear Hr.
    destruct u.
    destruct (hasCondition (nth target h []) c) eqn:E.
    + apply ret_Some in H1 as [_ ->]. apply IH; assumption.
    + unfold pushArr in H1. inversion H1; subst h1; clear H1.
      apply IH in H; [|now rewrite length_updateAt].
      destruct H as [Ht [Ho Hl]].
      rewrite nth_updateAt_same in Ht by assumption.
      split; [exact Ht|]. split.
      * intros r Hr. rewrite (Ho r Hr). now apply nth_updateAt_other.
      * now rewrite Hl, length_updateAt.
Qed.

(** Where each call fact has its own array the merged list is the union
    of the two lists, in the order in which the edges were emitted. *)
Lemma merged_conditions_follow_emission_order :
  option_map (fun g => map e_conditions (sg_edges g))
    (analyzeSymbols Scenarios.twiceProject "/proj")
  = Some [Some [Scenarios.underP; Scenarios.underQ]] /\
  option_map (fun g => map e_conditions (sg_edges g))
    (analyzeSymbols Scenarios.swappedProject "/proj")
  = Some [Some [Scenarios.underQ; Scenarios.underP]].
Proof. split; vm_compute; reflexivity. Qed.

(** C6. The returned edge list holds one edge for a triple (source,
    target, kind). Merging a duplicate pushes into the array of the first
    edge of the key the conditions it does not hold yet, so that array ends
    as the union of the two lists (entries equal in text and branch counting
    once), and the union does not depend on the order of the two lists. But
    that array is the one its call fact holds, and the other edges built
    from the same call fact hold it too: in [sharedProject] the only call
    that reaches [B.render] stands under [if (p)], and the returned edge
    foo -> B.render carries the condition of [if (q)] as well, which the
    merge for foo -> A.render pushed into the shared array. *)
Theorem symbol_edges_merge_into_shared_arrays :
  (forall w rootDir g i j e1 e2,
      analyzeSymbols w rootDir = Some g ->
      nth_error (sg_edges g) i = Some e1 ->
      nth_error (sg_edges g) j = Some e2 ->
      e_source e1 = e_source e2 ->
      e_target e1 = e_target e2 ->
      e_type e1 = e_type e2 ->
      i = j) /\
  (forall target cs h h',
      target < List.length h ->
      foldS (fun _ c => pushIfNew target c) cs tt h = Some (tt, h') ->
      nth target h' [] = mergeConditions (nth target h []) cs /\
      forall r, r <> target -> nth r h' [] = nth r h []) /\
  (forall a b c,
      hasCondition (mergeConditions a b) c
      = hasCondition a c || hasCondition b c) /\
  (forall a b c,
      hasCondition (mergeConditions a b) c
      = hasCondition (mergeConditions b a) c) /\
  (option_map (fun r => (snd (fst (fst r)), snd r))
     (collectRun Scenarios.sharedProject "/proj" [])
   = Some Scenarios.sharedEmitted /\
   contributions (snd Scenarios.sharedEmitted) (fst Scenarios.sharedEmitted)
     "f.js::foo|g.js::B.render|calls"
   = [[Scenarios.underP]] /\
   analyzeSymbols Scenarios.sharedProject "/proj"
   = Some Scenarios.sharedGraph /\
   In Scenarios.leakedEdge (sg_edges Scenarios.sharedGraph)).
Proof.
  split.
  - intros w rootDir g i j e1 e2 Hrun Hi Hj Hs Ht Hty.
    destruct (analyzeSymbols_shape _ _ _ Hrun)
      as [emitted [h1 [deduped [h2 [_ [Hd Hedges]]]]]].
    rewrite Hedges in Hi, Hj. rewrite nth_error_map in Hi, Hj.
    set (valid := filter (isValidEdge (map sy_id (sg_symbols g))) deduped)
      in *.
    destruct (nth_error valid i) as [r1|] eqn:E1; [|discriminate].
    destruct (nth_error valid j) as [r2|] eqn:E2; [|discriminate].
    simpl in Hi, Hj. inversion Hi; subst e1. inversion Hj; subst e2.
    simpl in Hs, Ht, Hty.
    assert (Hk : rawKey r1 = rawKey r2)
      by (unfold rawKey; now rewrite Hs, Ht, Hty).
    assert (Hnd : NoDup (map rawKey valid)).
    { apply valid_edges_distinct_keys. eapply dedupEdges_NoDup; eauto. }
    apply (proj1 (NoDup_nth_error (map rawKey valid)) Hnd).
    + rewrite length_map. apply nth_error_Some. congruence.
    + rewrite !nth_error_map, E1, E2. simpl. now rewrite Hk.
  - split; [|split; [|split]].
    + intros target cs h h' Hlt Hrun.
      destruct (pushAll_merges target cs h h' Hlt Hrun) as [Ht [Ho _]]. auto.
    + intros a b c. apply mergeConditions_union.
    + intros a b c. apply mergeConditions_comm.
    + repeat split; try (vm_compute; reflexivity).
      vm_compute. right. left. reflexivity.
Qed.

(* ================================================================== *)
(** * Further properties *)

(** Splits a conjunction into its parts, and nothing else. *)
Ltac conjuncts := repeat match goal with |- _ /\ _ => split end.

(* ------------------------------------------------------------------ *)
(** ** The records of the two passes *)

Lemma replace_same {A} (d : JsObj.dict A) k v :
  JsObj.own d k = Some v -> JsObj.replace d k v = d.
Proof.
  induction d as [|[k' v'] d IH]; simpl; [reflexivity|].
  destruct (String.eqb k k') eqn:E; intros H.
  - inversion H. reflexivity.
  - now rewrite IH.
Qed.

Lemma set_same {A} (d : JsObj.dict A) k v :
  JsObj.own d k = Some v -> JsObj.set d k v = d.
Proof.
  intros H. unfold JsObj.set, JsObj.put. rewrite H.
  destruct (String.eqb k "__proto__"); [reflexivity|].
  now apply replace_same.
Qed.

Lemma keys_set_known {A} (d : JsObj.dict A) k v :
  JsObj.own d k <> None -> JsObj.keys (JsObj.set d k v) = JsObj.keys d.
Proof.
  intros H. unfold JsObj.set, JsObj.put.
  destruct (String.eqb k "__proto__"); [reflexivity|].
  destruct (JsObj.own d k); [apply DictFacts.keys_replace | congruence].
Qed.

Lemma keys_set_new {A} (d : JsObj.dict A) k v :
  k <> "__proto__" -> JsObj.own d k = None ->
  JsObj.keys (JsObj.set d k v) = (JsObj.keys d ++ [k])%list.
Proof.
  intros Hk H. unfold JsObj.set, JsObj.put. rewrite H.
  apply String.eqb_neq in Hk. rewrite Hk.
  unfold JsObj.keys. now rewrite map_app.
Qed.

Section Records.
Variable w : World.
Variable rootDir : string.

Lemma firstPassFile_spec fd f fd' :
  firstPassFile w rootDir fd f = Some fd' ->
  exists d, firstRecord w rootDir f = Some d /\ fd' = JsObj.set fd f d.
Proof.
  unfold firstPassFile, firstRecord. intros H.
  destruct (isHtml (Path.extname f)).
  - apply bind_Some in H as [code [Hc H]]. rewrite Hc. simpl.
    apply bind_Some in H as [refs [Hr H]]. rewrite Hr. simpl.
    inversion H. eauto.
  - apply bind_Some in H as [ast [Hp H]]. rewrite Hp. simpl.
    destruct ast as [ast|].
    + apply bind_Some in H as [code [Hc H]]. rewrite Hc. simpl.
      inversion H. eauto.
    + inversion H. eauto.
Qed.

Lemma secondPassFile_spec fd f fd' d :
  JsObj.own fd f = Some d ->
  firstRecord w rootDir f = Some d \/ recordOf w rootDir f = Some d ->
  secondPassFile w rootDir fd f = Some fd' ->
  exists d', recordOf w rootDir f = Some d' /\ fd' = JsObj.set fd f d'.
Proof.
  intros Hown Hd H.
  assert (Hfirst : exists d0, firstRecord w rootDir f = Some d0 /\
                              fd_exports d0 = fd_exports d /\
                              fd_lines d0 = fd_lines d /\
                              fd_htmlScriptRefs d0 = fd_htmlScriptRefs d /\
                              (isHtml (Path.extname f) = true -> d0 = d) /\
                              (parseFile w (Path.join rootDir f) = Some None
                               -> d0 = d)).
  { destruct Hd as [Hd|Hd]; [exists d; auto 10|].
    unfold recordOf in Hd. apply bind_Some in Hd as [d0 [H0 Hd]].
    exists d0. split; [assumption|].
    destruct (isHtml (Path.extname f)).
    - inversion Hd; subst. auto 10.
    - apply bind_Some in Hd as [ast [Hp Hd]]. rewrite Hp.
      destruct ast as [ast|]; inversion Hd; subst; simpl; auto 10.
      repeat split; auto; discriminate. }
  destruct Hfirst as [d0 [H0 [He [Hl [Hs [Hhtml Hnone]]]]]].
  unfold secondPassFile in H. unfold recordOf. rewrite H0. simpl.
  destruct (isHtml (Path.extname f)) eqn:Eh.
  - inversion H; subst. exists d. rewrite (Hhtml eq_refl).
    split; [reflexivity|]. symmetry. now apply set_same.
  - apply bind_Some in H as [ast [Hp H]]. rewrite Hp. simpl.
    destruct ast as [ast|].
    + apply bind_Some in H as [d1 [H1 H]].
      rewrite Hown in H1. inversion H1; subst d1.
      inversion H. rewrite He, Hl, Hs. eauto.
    + inversion H; subst. exists d. rewrite (Hnone Hp).
      split; [reflexivity|]. symmetry. now apply set_same.
Qed.

(** After the first pass every file of the list has its first record, in
    the order of the list. *)
Lemma firstPass_spec :
  forall l fd0 fd1,
    foldM (firstPassFile w rootDir) l fd0 = Some fd1 ->
    NoDup (JsObj.keys fd0 ++ l) ->
    (forall f, In f l -> f <> "__proto__") ->
    JsObj.keys fd1 = (JsObj.keys fd0 ++ l)%list /\
    (forall f, In f l ->
               exists d, JsObj.own fd1 f = Some d /\
                         firstRecord w rootDir f = Some d) /\
    (forall f, ~ In f l -> JsObj.own fd1 f = JsObj.own fd0 f).
Proof.
  induction l as [|a l IH]; simpl; intros fd0 fd1 Hrun Hnd Hproto.
  - inversion Hrun; subst. rewrite app_nil_r. repeat split; tauto.
  - apply bind_Some in Hrun as [fd' [Ha Hrun]].
    apply firstPassFile_spec in Ha as [d [Hd ->]].
    assert (Ha : a <> "__proto__") by (apply Hproto; now left).
    assert (Hnew : JsObj.own fd0 a = None).
    { destruct (JsObj.own fd0 a) eqn:E; [|reflexivity].
      exfalso. apply NoDup_remove_2 in Hnd. apply Hnd.
      apply in_or_app. left. apply DictFacts.own_keys. congruence. }
    assert (Hk : JsObj.keys (JsObj.set fd0 a d) = (JsObj.keys fd0 ++ [a])%list)
      by now apply keys_set_new.
    destruct (IH _ _ Hrun) as [Hkeys [Hin Hout]].
    + rewrite Hk, <- app_assoc. exact Hnd.
    + intros f Hf. apply Hproto. now right.
    + split; [|split].
      * rewrite Hkeys, Hk, <- app_assoc. reflexivity.
      * intros f [<-|Hf]; [|now apply Hin].
        assert (Hna : ~ In a l).
        { apply NoDup_remove_2 in Hnd. intros Hx. apply Hnd.
          apply in_or_app. now right. }
        exists d. rewrite (Hout a Hna).
        rewrite DictFacts.own_set_same by assumption. auto.
      * intros f Hf. rewrite Hout by tauto.
        apply DictFacts.own_set_other. intros ->. apply Hf. now left.
Qed.

Lemma secondPass_spec :
  forall l fd1 fd2,
    foldM (secondPassFile w rootDir) l fd1 = Some fd2 ->
    (forall f, In f l ->
               exists d, JsObj.own fd1 f = Some d /\
                         (firstRecord w rootDir f = Some d \/
                          recordOf w rootDir f = Some d)) ->
    (forall f, In f l -> f <> "__proto__") ->
    JsObj.keys fd2 = JsObj.keys fd1 /\
    (forall f, In f l ->
               exists d, JsObj.own fd2 f = Some d /\
                         recordOf w rootDir f = Some d) /\
    (forall f, ~ In f l -> JsObj.own fd2 f = JsObj.own fd1 f).
Proof.
  induction l as [|a l IH]; simpl; intros fd1 fd2 Hrun Hfirst Hproto.
  - inversion Hrun; subst. repeat split; tauto.
  - apply bind_Some in Hrun as [fd' [Ha Hrun]].
    destruct (Hfirst a (or_introl eq_refl)) as [d [Hown Hd]].
    destruct (secondPassFile_spec _ _ _ _ Hown Hd Ha) as [d' [Hd' ->]].
    assert (Hap : a <> "__proto__") by (apply Hproto; now left).
    destruct (IH _ _ Hrun) as [Hkeys [Hin Hout]].
    + intros f Hf. destruct (String.eqb_spec f a) as [->|Hne].
      * exists d'. rewrite DictFacts.own_set_same by assumption. auto.
      * rewrite DictFacts.own_set_other by assumption.
        apply Hfirst. now right.
    + intros f Hf. apply Hproto. now right.
    + split; [|split].
      * rewrite Hkeys. apply keys_set_known. congruence.
      * intros f [<-|Hf]; [|now apply Hin].
        destruct (in_dec string_dec a l) as [Hal|Hal]; [now apply Hin|].
        exists d'. rewrite (Hout a Hal).
        rewrite DictFacts.own_set_same by assumption. auto.
      * intros f Hf. rewrite Hout by tauto.
        apply DictFacts.own_set_other. intros ->. apply Hf. now left.
Qed.

Lemma collectFileData_spec files fd :
  NoDup files ->
  (forall f, In f files -> f <> "__proto__") ->
  collectFileData w rootDir files = Some fd ->
  JsObj.keys fd = files /\
  forall f, In f files ->
            exists d, JsObj.own fd f = Some d /\ recordOf w rootDir f = Some d.
Proof.
  intros Hnd Hproto H. unfold collectFileData in H.
  apply bind_Some in H as [fd1 [H1 H2]].
  destruct (firstPass_spec _ _ _ H1) as [Hk1 [Hin1 _]]; [exact Hnd|exact Hproto|].
  destruct (secondPass_spec _ _ _ H2) as [Hk2 [Hin2 _]].
  - intros f Hf. destruct (Hin1 f Hf) as [d [Ho Hd]]. eauto.
  - exact Hproto.
  - split; [now rewrite Hk2, Hk1 | exact Hin2].
Qed.

End Records.

(* ------------------------------------------------------------------ *)
(** ** The nodes of the file graph *)

Lemma dedup_acc_NoDup (l : list string) :
  forall seen, NoDup (Str.dedup_acc seen l).
Proof.
  induction l as [|x l IH]; simpl; intros seen; [constructor|].
  destruct (Str.mem x seen) eqn:E; [apply IH|].
  constructor; [|apply IH].
  intros H. apply dedup_acc_In in H as [_ H]. apply H. now left.
Qed.

Lemma scan_NoDup w rootDir exts : NoDup (scan w rootDir exts).
Proof. apply dedup_acc_NoDup. Qed.

Lemma buildGraph_nodes files fd g :
  buildGraph files fd = Some g ->
  exists nodes0 counts,
    mapM (nodeOf fd) files = Some nodes0 /\
    foldM (countIncoming fd) files [] = Some counts /\
    g_nodes g =
    map (fun n =>
           mkFileNode (n_id n) (n_exports n) (n_lines n) (n_folder n)
             (n_extension n)
             (match JsObj.own counts (n_id n) with
              | Some c => c | None => 0 end))
        nodes0 /\
    g_folders g = Str.sort (Str.dedup (map n_folder (g_nodes g))) /\
    g_extensions g = Str.sort (Str.dedup (map n_extension (g_nodes g))).
Proof.
  unfold buildGraph. intros H.
  apply bind_Some in H as [nodes0 [Hn H]].
  apply bind_Some in H as [em1 [H1 H]].
  apply bind_Some in H as [em2 [H2 H]].
  apply bind_Some in H as [counts [Hc H]].
  inversion H; subst; clear H. simpl.
  exists nodes0, counts. auto.
Qed.

Lemma mapM_Forall2_In {A B} (f : A -> option B) :
  forall l bs b, mapM f l = Some bs -> In b bs ->
                 exists a, In a l /\ f a = Some b.
Proof.
  induction l as [|a l IH]; simpl; intros bs b H Hb.
  - inversion H; subst. destruct Hb.
  - apply bind_Some in H as [b0 [Hb0 H]].
    apply bind_Some in H as [bs0 [Hbs0 H]]. inversion H; subst.
    destruct Hb as [<-|Hb]; [eauto|].
    destruct (IH _ _ Hbs0 Hb) as [a' [Ha' Hf]]. eauto.
Qed.

(** The node of a file, as far as its record decides it. *)
Lemma file_node w rootDir g n :
  analyzeCodebase w rootDir = Some g ->
  In n (g_nodes g) ->
  In (n_id n) (scannedFiles w rootDir) /\
  exists d,
    recordOf w rootDir (n_id n) = Some d /\
    nodeOf [(n_id n, d)] (n_id n)
    = Some (mkFileNode (n_id n) (n_exports n) (n_lines n) (n_folder n)
              (n_extension n) 0).
Proof.
  intros Hrun Hn.
  destruct (analyzeCodebase_shape _ _ _ Hrun) as [fd [Hfd Hbuild]].
  destruct (buildGraph_nodes _ _ _ Hbuild)
    as [nodes0 [counts [Hn0 [_ [Hnodes _]]]]].
  rewrite Hnodes in Hn. apply in_map_iff in Hn as [n0 [<- Hin0]]. simpl.
  destruct (mapM_Forall2_In _ _ _ _ Hn0 Hin0) as [f [Hf Hnode]].
  destruct (collectFileData_spec w rootDir _ _ (scan_NoDup _ _ _)
              (scanned_not_proto w rootDir) Hfd) as [_ Hrec].
  destruct (Hrec f Hf) as [d [Hown Hd]].
  unfold nodeOf in Hnode. rewrite Hown in Hnode. simpl in Hnode.
  inversion Hnode; subst n0; clear Hnode. simpl.
  split; [assumption|]. exists d. split; [assumption|].
  unfold nodeOf. simpl. rewrite String.eqb_refl. reflexivity.
Qed.

(** X1. The node list of the file graph holds one node for every scanned
    file, in the order of the scan: no two nodes share an id, and the
    folder and the extension of a node are the directory name and the
    extension of its id. *)
Theorem one_node_per_scanned_file (w : World) (rootDir : string)
  (g : FileGraph) :
  analyzeCodebase w rootDir = Some g ->
  map n_id (g_nodes g) = scannedFiles w rootDir /\
  NoDup (map n_id (g_nodes g)) /\
  forall n, In n (g_nodes g) ->
            n_folder n = Path.dirname (n_id n) /\
            n_extension n = Path.extname (n_id n).
Proof.
  intros Hrun.
  destruct (analyzeCodebase_shape _ _ _ Hrun) as [fd [Hfd Hbuild]].
  destruct (buildGraph_shape _ _ _ Hbuild)
    as [nodes0 [em1 [em2 [_ [_ [_ [_ [Hids _]]]]]]]].
  split; [assumption|]. split; [rewrite Hids; apply scan_NoDup|].
  intros n Hn. destruct (file_node _ _ _ _ Hrun Hn) as [_ [d [_ Hnode]]].
  unfold nodeOf in Hnode. simpl in Hnode. rewrite String.eqb_refl in Hnode.
  simpl in Hnode. inversion Hnode. auto.
Qed.

(** The same on a concrete run. *)
Lemma one_node_per_scanned_file_witness :
  analyzeCodebase Site.siteProject "/proj" = Some Site.siteGraph /\
  map n_id (g_nodes Site.siteGraph) = scannedFiles Site.siteProject "/proj" /\
  NoDup (map n_id (g_nodes Site.siteGraph)).
Proof.
  assert (Hrun : analyzeCodebase Site.siteProject "/proj"
                 = Some Site.siteGraph) by (vm_compute; reflexivity).
  destruct (one_node_per_scanned_file _ _ _ Hrun) as [H1 [H2 _]].
  conjuncts; assumption.
Defined.

(* ------------------------------------------------------------------ *)
(** ** Sorted sets *)

Lemma ltb_asym (a b : string) : String.ltb a b = true -> String.ltb b a = false.
Proof.
  unfold String.ltb. rewrite (String.compare_antisym a b).
  destruct (String.compare b a); simpl; congruence.
Qed.

Lemma ltb_total (a b : string) :
  String.ltb b a = false -> a <> b -> String.ltb a b = true.
Proof.
  unfold String.ltb. intros H Hne. rewrite (String.compare_antisym a b).
  destruct (String.compare b a) eqn:E; simpl; try congruence.
  apply String.compare_eq_iff in E. congruence.
Qed.

Lemma insert_sorted_In (x : string) (l : list string) (y : string) :
  In y (Str.insert_sorted x l) <-> y = x \/ In y l.
Proof.
  induction l as [|a l IH]; simpl.
  - intuition.
  - destruct (String.ltb x a); simpl; [intuition|].
    rewrite IH. intuition.
Qed.

Lemma insert_sorted_nondecreasing (x : string) (l : list string) :
  nondecreasing l -> nondecreasing (Str.insert_sorted x l).
Proof.
  induction l as [|a l IH]; simpl; [auto|].
  intros H. destruct (String.ltb x a) eqn:E.
  - split; [now apply ltb_asym | exact H].
  - destruct l as [|b l]; simpl in *.
    + auto.
    + destruct H as [Hba H]. specialize (IH H).
      destruct (String.ltb x b); simpl in *; auto.
Qed.

Lemma insert_sorted_NoDup (x : string) (l : list string) :
  NoDup l -> ~ In x l -> NoDup (Str.insert_sorted x l).
Proof.
  induction l as [|a l IH]; simpl; intros Hnd Hx.
  - constructor; [auto | constructor].
  - destruct (String.ltb x a).
    + constructor; [simpl; tauto | assumption].
    + inversion Hnd; subst. constructor.
      * rewrite insert_sorted_In. intros [->|H]; tauto.
      * apply IH; tauto.
Qed.

Lemma NoDup_app_disjoint {A} (l1 l2 : list A) (a : A) :
  NoDup (l1 ++ l2) -> In a l1 -> ~ In a l2.
Proof.
  induction l1 as [|x l1 IH]; simpl; intros H [].
  - subst. inversion H; subst. intros Hx. apply H2. apply in_or_app. now right.
  - inversion H; subst. now apply IH.
Qed.

Lemma sort_spec (l : list string) :
  forall acc,
    (forall y, In y (fold_left (fun a x => Str.insert_sorted x a) l acc)
               <-> In y l \/ In y acc) /\
    (nondecreasing acc ->
     nondecreasing (fold_left (fun a x => Str.insert_sorted x a) l acc)) /\
    (NoDup (l ++ acc) ->
     NoDup (fold_left (fun a x => Str.insert_sorted x a) l acc)).
Proof.
  induction l as [|x l IH]; simpl; intros acc.
  - intuition.
  - destruct (IH (Str.insert_sorted x acc)) as [Hin [Hs Hnd]].
    split; [|split].
    + intros y. rewrite Hin, insert_sorted_In. intuition.
    + intros H. apply Hs. now apply insert_sorted_nondecreasing.
    + intros H. apply Hnd. inversion H; subst.
      apply NoDup_app.
      * now apply NoDup_app_remove_r in H3.
      * apply insert_sorted_NoDup.
        -- now apply NoDup_app_remove_l in H3.
        -- intros Hx. apply H2. apply in_or_app. now right.
      * intros a Ha Hi. apply insert_sorted_In in Hi as [->|Hi].
        -- apply H2. apply in_or_app. now left.
        -- exact (NoDup_app_disjoint _ _ _ H3 Ha Hi).
Qed.

Lemma nondecreasing_ascending (l : list string) :
  nondecreasing l -> NoDup l -> ascending l = true.
Proof.
  induction l as [|a l IH]; simpl; [auto|].
  destruct l as [|b l]; [auto|].
  intros [Hba H] Hnd. inversion Hnd; subst.
  apply andb_true_iff. split; [|now apply IH].
  apply ltb_total; [assumption|]. intros ->. apply H2. now left.
Qed.

Lemma sort_dedup_spec (l : list string) :
  ascending (Str.sort (Str.dedup l)) = true /\
  forall x, In x (Str.sort (Str.dedup l)) <-> In x l.
Proof.
  unfold Str.sort.
  destruct (sort_spec (Str.dedup l) []) as [Hin [Hs Hnd]].
  split.
  - apply nondecreasing_ascending; [now apply Hs|].
    apply Hnd. rewrite app_nil_r. apply dedup_acc_NoDup.
  - intros x. rewrite Hin, dedup_In. simpl. tauto.
Qed.

(** X7. The folders and the extensions of a file graph are sorted sets:
    strictly ascending in the order of the code units, and holding exactly
    the folders (the extensions) of the nodes. *)
Theorem folders_and_extensions_are_sorted_sets (w : World) (rootDir : string)
  (g : FileGraph) :
  analyzeCodebase w rootDir = Some g ->
  (ascending (g_folders g) = true /\
   forall d, In d (g_folders g) <->
             exists n, In n (g_nodes g) /\ n_folder n = d) /\
  (ascending (g_extensions g) = true /\
   forall x, In x (g_extensions g) <->
             exists n, In n (g_nodes g) /\ n_extension n = x).
Proof.
  intros Hrun.
  destruct (analyzeCodebase_shape _ _ _ Hrun) as [fd [Hfd Hbuild]].
  destruct (buildGraph_nodes _ _ _ Hbuild)
    as [nodes0 [counts [_ [_ [_ [Hf He]]]]]].
  rewrite Hf, He.
  split; (split; [apply sort_dedup_spec|]);
    intros x; rewrite (proj2 (sort_dedup_spec _)), in_map_iff;
    split; intros [n [H1 H2]]; eauto.
Qed.

(** The same on a concrete run. *)
Lemma folders_and_extensions_are_sorted_sets_witness :
  analyzeCodebase Site.siteProject "/proj" = Some Site.siteGraph /\
  g_folders Site.siteGraph = ["."; "src"] /\
  ascending (g_folders Site.siteGraph) = true /\
  ascending (g_extensions Site.siteGraph) = true.
Proof.
  assert (Hrun : analyzeCodebase Site.siteProject "/proj"
                 = Some Site.siteGraph) by (vm_compute; reflexivity).
  destruct (folders_and_extensions_are_sorted_sets _ _ _ Hrun)
    as [[H1 _] [H2 _]].
  conjuncts; try assumption.
  vm_compute. reflexivity.
Defined.

(* ------------------------------------------------------------------ *)
(** ** Incoming counts *)

Lemma importsInto_app k l1 l2 :
  importsInto k (l1 ++ l2) = importsInto k l1 + importsInto k l2.
Proof. unfold importsInto. now rewrite filter_app, length_app. Qed.

Lemma count_imports (k : string) :
  k <> "" -> k <> "__proto__" ->
  forall imports cs,
    counterAt
      (fold_left
         (fun cs imp =>
            if Str.truthy (i_resolved imp)
            then JsObj.set cs (i_resolved imp)
                   (match JsObj.own cs (i_resolved imp) with
                    | Some n => n | None => 0 end + 1)
            else cs)
         imports cs) k
    = counterAt cs k + importsInto k imports.
Proof.
  intros Hk Hp. induction imports as [|imp imports IH]; intros cs.
  - simpl. unfold importsInto. simpl. lia.
  - simpl. rewrite IH. unfold importsInto at 2. simpl.
    fold (importsInto k imports).
    destruct (String.eqb_spec (i_resolved imp) k) as [E|E].
    + rewrite E. unfold Str.truthy.
      apply String.eqb_neq in Hk as Hk'. rewrite Hk'. simpl.
      unfold counterAt at 1. rewrite DictFacts.own_set_same by assumption.
      unfold counterAt, importsInto. simpl. lia.
    + destruct (Str.truthy (i_resolved imp)); [|reflexivity].
      unfold counterAt at 1. rewrite DictFacts.own_set_other by congruence.
      reflexivity.
Qed.

Lemma countIncoming_counts (fd : JsObj.dict FileData) (k : string) :
  k <> "" -> k <> "__proto__" ->
  forall files cs cs',
    foldM (countIncoming fd) files cs = Some cs' ->
    counterAt cs' k
    = counterAt cs k
      + importsInto k
          (flat_map (fun f => match JsObj.own fd f with
                              | Some d => fd_imports d | None => [] end)
             files).
Proof.
  intros Hk Hp. induction files as [|f files IH]; simpl; intros cs cs' H.
  - inversion H; subst. unfold importsInto. simpl. lia.
  - apply bind_Some in H as [cs1 [H1 H]]. rewrite (IH _ _ H).
    unfold countIncoming in H1. apply bind_Some in H1 as [d [Hd H1]].
    rewrite Hd. inversion H1; subst. rewrite count_imports by assumption.
    rewrite importsInto_app. lia.
Qed.

Lemma endsWith_nonempty (f ext : string) :
  Str.endsWith f ext = true -> ext <> "" -> f <> "".
Proof.
  intros H He ->. destruct ext; [congruence|].
  unfold Str.endsWith, Str.chars in H. simpl in H.
  destruct (rev (list_ascii_of_string ext) ++ [a])%list eqn:E.
  - apply app_eq_nil in E as [_ E]. discriminate.
  - simpl in H. discriminate.
Qed.

Lemma scanned_nonempty w rootDir f :
  In f (scannedFiles w rootDir) -> f <> "".
Proof.
  intros H. apply scan_extension in H as [ext [He H]].
  apply (endsWith_nonempty _ _ H).
  unfold ALL_EXTENSIONS, EXTENSIONS in He. simpl in He.
  intuition (subst; discriminate).
Qed.

Lemma flat_map_ext_in {A B} (f g : A -> list B) (l : list A) :
  (forall a, In a l -> f a = g a) -> flat_map f l = flat_map g l.
Proof.
  induction l as [|a l IH]; simpl; intros H; [reflexivity|].
  rewrite H by now left. rewrite IH; [reflexivity|]. intros; apply H; now right.
Qed.

(** X4. The incomingCount of a node is the number of import records,
    over all scanned files, that resolve to the id of the node: one for
    every import statement, require call or dynamic import, whatever the
    number of its specifiers. Script tags are not counted. *)
Theorem incoming_count_counts_import_records (w : World) (rootDir : string)
  (g : FileGraph) (n : FileNode) :
  analyzeCodebase w rootDir = Some g ->
  In n (g_nodes g) ->
  n_incomingCount n
  = importsInto (n_id n)
      (flat_map (importsOf w rootDir) (scannedFiles w rootDir)).
Proof.
  intros Hrun Hn.
  destruct (file_node _ _ _ _ Hrun Hn) as [Hid _].
  destruct (analyzeCodebase_shape _ _ _ Hrun) as [fd [Hfd Hbuild]].
  destruct (buildGraph_nodes _ _ _ Hbuild)
    as [nodes0 [counts [Hn0 [Hc [Hnodes _]]]]].
  rewrite Hnodes in Hn. apply in_map_iff in Hn as [n0 [<- Hin0]].
  simpl in *.
  pose proof (countIncoming_counts fd (n_id n0)
                (scanned_nonempty _ _ _ Hid) (scanned_not_proto _ _ _ Hid)
                _ _ _ Hc) as Hcount.
  unfold counterAt in Hcount. simpl in Hcount. rewrite Hcount.
  f_equal. apply flat_map_ext_in. intros f Hf.
  destruct (collectFileData_spec w rootDir _ _ (scan_NoDup _ _ _)
              (scanned_not_proto w rootDir) Hfd) as [_ Hrec].
  destruct (Hrec f Hf) as [d [Hown Hd]].
  unfold importsOf. now rewrite Hown, Hd.
Qed.

(** The same on a concrete run. *)
Lemma incoming_count_counts_import_records_witness :
  analyzeCodebase Site.siteProject "/proj" = Some Site.siteGraph /\
  In Site.utilNode (g_nodes Site.siteGraph) /\
  n_incomingCount Site.utilNode
  = importsInto "src/util.js"
      (flat_map (importsOf Site.siteProject "/proj")
         (scannedFiles Site.siteProject "/proj")).
Proof.
  assert (Hrun : analyzeCodebase Site.siteProject "/proj"
                 = Some Site.siteGraph) by (vm_compute; reflexivity).
  assert (Hn : In Site.utilNode (g_nodes Site.siteGraph))
    by (vm_compute; auto).
  split; [exact Hrun | split; [exact Hn |]].
  exact (incoming_count_counts_import_records _ _ _ _ Hrun Hn).
Defined.

(* ------------------------------------------------------------------ *)
(** ** What an edge accumulates *)

Lemma edgeKey_has_bar (a b : string) : In "|"%char (Str.chars (edgeKey a b)).
Proof.
  unfold edgeKey. destruct (Str.sort2 a b) as [x y].
  rewrite chars_append. apply in_or_app. right.
  rewrite chars_append. apply in_or_app. left. simpl. auto.
Qed.

Lemma edgeKey_not_proto (a b : string) : edgeKey a b <> "__proto__".
Proof.
  intros H. pose proof (edgeKey_has_bar a b) as Hb. rewrite H in Hb.
  simpl in Hb. repeat (destruct Hb as [Hb|Hb]; [discriminate|]). exact Hb.
Qed.

Lemma accumulate_at em file target weight refs k :
  referencesAt (accumulate em file target weight refs) k
  = (referencesAt em k
     ++ if String.eqb (edgeKey file target) k then refs else [])%list /\
  weightAt (accumulate em file target weight refs) k
  = weightAt em k + (if String.eqb (edgeKey file target) k then weight else 0).
Proof.
  unfold accumulate, referencesAt, weightAt.
  destruct (String.eqb_spec (edgeKey file target) k) as [<-|Hne].
  - rewrite DictFacts.own_set_same by apply edgeKey_not_proto.
    destruct (JsObj.own em (edgeKey file target)); simpl; auto.
  - rewrite DictFacts.own_set_other by congruence.
    rewrite app_nil_r. auto.
Qed.

Lemma accumulate_present em file target weight refs k :
  (k = edgeKey file target \/ JsObj.own em k <> None) ->
  JsObj.own (accumulate em file target weight refs) k <> None.
Proof.
  unfold accumulate. intros H.
  destruct (String.eqb_spec k (edgeKey file target)) as [->|Hne].
  - rewrite DictFacts.own_set_same by apply edgeKey_not_proto. discriminate.
  - rewrite DictFacts.own_set_other by assumption. tauto.
Qed.

Section EdgeContents.
Variable fd : JsObj.dict FileData.

Lemma truthyAt_empty : JsObj.truthyAt fd "" = false ->
  forall t, JsObj.truthyAt fd t = true -> Str.truthy t = true.
Proof.
  intros H t Ht. unfold Str.truthy. destruct (String.eqb_spec t ""); [|reflexivity].
  subst. congruence.
Qed.

Hypothesis no_empty_name : JsObj.truthyAt fd "" = false.

Lemma importStep_one file k em imp :
  referencesAt (importStep fd file em imp) k
  = (referencesAt em k ++ if takes fd k file (i_resolved imp)
                    then map s_name (i_specifiers imp) else [])%list /\
  weightAt (importStep fd file em imp) k
  = weightAt em k
    + List.length (if takes fd k file (i_resolved imp)
                   then map s_name (i_specifiers imp) else []).
Proof.
  unfold importStep, takes.
  destruct (JsObj.truthyAt fd (i_resolved imp)) eqn:Et; simpl.
  - rewrite (truthyAt_empty no_empty_name _ Et). simpl.
    destruct (accumulate_at em file (i_resolved imp)
                (List.length (i_specifiers imp))
                (map s_name (i_specifiers imp)) k) as [-> ->].
    destruct (String.eqb (edgeKey file (i_resolved imp)) k);
      simpl; rewrite ?length_map; auto.
  - rewrite orb_true_r, app_nil_r. simpl. auto.
Qed.

Lemma scriptStep_one file k em t :
  referencesAt (scriptStep fd file em t) k
  = (referencesAt em k ++ if takes fd k file t then ["script-src"] else [])%list /\
  weightAt (scriptStep fd file em t) k
  = weightAt em k
    + List.length (if takes fd k file t then ["script-src"] else []).
Proof.
  unfold scriptStep, takes.
  destruct (JsObj.truthyAt fd t) eqn:Et; simpl.
  - destruct (accumulate_at em file t 1 ["script-src"] k) as [-> ->].
    destruct (String.eqb (edgeKey file t) k); simpl; auto.
  - rewrite app_nil_r. auto.
Qed.

Lemma importStep_at file k imps :
  forall em,
    referencesAt (fold_left (importStep fd file) imps em) k
    = (referencesAt em k
       ++ flat_map (fun imp => if takes fd k file (i_resolved imp)
                               then map s_name (i_specifiers imp) else [])
            imps)%list /\
    weightAt (fold_left (importStep fd file) imps em) k
    = weightAt em k
      + List.length
          (flat_map (fun imp => if takes fd k file (i_resolved imp)
                                then map s_name (i_specifiers imp) else [])
             imps).
Proof.
  induction imps as [|imp imps IH]; intros em; simpl.
  - rewrite app_nil_r. auto.
  - destruct (IH (importStep fd file em imp)) as [-> ->].
    destruct (importStep_one file k em imp) as [-> ->].
    rewrite <- app_assoc, length_app. split; [reflexivity | lia].
Qed.

Lemma scriptStep_at file k refs :
  forall em,
    referencesAt (fold_left (scriptStep fd file) refs em) k
    = (referencesAt em k
       ++ flat_map (fun t => if takes fd k file t then ["script-src"] else [])
            refs)%list /\
    weightAt (fold_left (scriptStep fd file) refs em) k
    = weightAt em k
      + List.length
          (flat_map (fun t => if takes fd k file t then ["script-src"] else [])
             refs).
Proof.
  induction refs as [|t refs IH]; intros em; simpl.
  - rewrite app_nil_r. auto.
  - destruct (IH (scriptStep fd file em t)) as [-> ->].
    destruct (scriptStep_one file k em t) as [-> ->].
    rewrite <- app_assoc, length_app. split; [reflexivity | lia].
Qed.

Lemma importEdges_at k :
  forall files em em',
    foldM (importEdges fd) files em = Some em' ->
    referencesAt em' k
    = (referencesAt em k
       ++ flat_map
            (fun file =>
               flat_map (fun imp => if takes fd k file (i_resolved imp)
                                    then map s_name (i_specifiers imp) else [])
                        (importsIn fd file))
            files)%list /\
    weightAt em' k + List.length (referencesAt em k)
    = weightAt em k + List.length (referencesAt em' k).
Proof.
  induction files as [|f files IH]; intros em em' H.
  - inversion H; subst. simpl. rewrite app_nil_r. split; [reflexivity | lia].
  - simpl in H. apply bind_Some in H as [em1 [H1 H]].
    destruct (IH _ _ H) as [Hr Hw].
    unfold importEdges in H1. apply bind_Some in H1 as [d [Hd H1]].
    inversion H1; subst em1; clear H1.
    assert (Hin : importsIn fd f = fd_imports d)
      by (unfold importsIn; now rewrite Hd).
    change (fun em0 imp => if negb (Str.truthy (i_resolved imp))
                              || negb (JsObj.truthyAt fd (i_resolved imp))
                           then em0
                           else accumulate em0 f (i_resolved imp)
                                  (Datatypes.length (i_specifiers imp))
                                  (map s_name (i_specifiers imp)))
      with (importStep fd f) in *.
    destruct (importStep_at f k (fd_imports d) em) as [Hr1 Hw1].
    rewrite Hr1 in Hr. rewrite Hw1 in Hw.
    cbn [flat_map]. rewrite Hin. rewrite Hr, <- app_assoc.
    split; [reflexivity|].
    rewrite Hr1 in Hw. rewrite Hr in Hw. rewrite !length_app in *. lia.
Qed.

Lemma scriptEdges_at k :
  forall files em em',
    foldM (scriptEdges fd) files em = Some em' ->
    referencesAt em' k
    = (referencesAt em k
       ++ flat_map
            (fun file =>
               flat_map (fun t => if takes fd k file t then ["script-src"] else [])
                        (scriptsIn fd file))
            files)%list /\
    weightAt em' k + List.length (referencesAt em k)
    = weightAt em k + List.length (referencesAt em' k).
Proof.
  induction files as [|f files IH]; intros em em' H.
  - inversion H; subst. simpl. rewrite app_nil_r. split; [reflexivity | lia].
  - simpl in H. apply bind_Some in H as [em1 [H1 H]].
    destruct (IH _ _ H) as [Hr Hw].
    unfold scriptEdges in H1. apply bind_Some in H1 as [d [Hd H1]].
    assert (Hin : scriptsIn fd f = match fd_htmlScriptRefs d with
                                | Some r => r | None => [] end)
      by (unfold scriptsIn; now rewrite Hd).
    cbn [flat_map]. rewrite Hin.
    destruct (fd_htmlScriptRefs d) as [refs|].
    + inversion H1; subst em1; clear H1.
      change (fun em0 scriptFile => if negb (JsObj.truthyAt fd scriptFile)
                                    then em0
                                    else accumulate em0 f scriptFile 1
                                           ["script-src"])
        with (scriptStep fd f) in *.
      destruct (scriptStep_at f k refs em) as [Hr1 Hw1].
      rewrite Hr1 in Hr. rewrite Hw1 in Hw.
      rewrite Hr, <- app_assoc.
      split; [reflexivity|].
      rewrite Hr1 in Hw. rewrite Hr in Hw. rewrite !length_app in *. lia.
    + inversion H1; subst em1; clear H1. simpl. auto.
Qed.

End EdgeContents.

Lemma own_of_In {A} (d : JsObj.dict A) k v :
  NoDup (JsObj.keys d) -> In (k, v) d -> JsObj.own d k = Some v.
Proof.
  induction d as [|[k' v'] d IH]; simpl; intros Hnd H; [destruct H|].
  destruct H as [H|H].
  - inversion H; subst. now rewrite String.eqb_refl.
  - inversion Hnd; subst. destruct (String.eqb_spec k k') as [->|Hne].
    + exfalso. apply H2. apply in_map_iff. exists (k', v). auto.
    + now apply IH.
Qed.

Section Present.
Variable fd : JsObj.dict FileData.
Hypothesis no_empty_name : JsObj.truthyAt fd "" = false.

Lemma importStep_present file k imps :
  forall em,
    (JsObj.own em k <> None \/
     exists imp, In imp imps /\ takes fd k file (i_resolved imp) = true) ->
    JsObj.own (fold_left (importStep fd file) imps em) k <> None.
Proof.
  induction imps as [|imp imps IH]; intros em H; simpl.
  - destruct H as [H|[imp [[] _]]]. exact H.
  - apply IH. destruct H as [H|[imp' [[<-|Hin] Ht]]].
    + left. unfold importStep.
      destruct (negb _ || negb _); [assumption|].
      apply accumulate_present. now right.
    + left. unfold importStep, takes in *.
      apply andb_true_iff in Ht as [Ht Hk].
      rewrite Ht, (truthyAt_empty fd no_empty_name _ Ht). simpl.
      apply accumulate_present. left. apply String.eqb_eq in Hk. now subst.
    + right. eauto.
Qed.

Lemma scriptStep_present file k refs :
  forall em,
    (JsObj.own em k <> None \/
     exists t, In t refs /\ takes fd k file t = true) ->
    JsObj.own (fold_left (scriptStep fd file) refs em) k <> None.
Proof.
  induction refs as [|t refs IH]; intros em H; simpl.
  - destruct H as [H|[t [[] _]]]. exact H.
  - apply IH. destruct H as [H|[t' [[<-|Hin] Ht]]].
    + left. unfold scriptStep.
      destruct (negb _); [assumption|].
      apply accumulate_present. now right.
    + left. unfold scriptStep, takes in *.
      apply andb_true_iff in Ht as [Ht Hk].
      rewrite Ht. simpl.
      apply accumulate_present. left. apply String.eqb_eq in Hk. now subst.
    + right. eauto.
Qed.

Lemma importEdges_present k :
  forall files em em',
    foldM (importEdges fd) files em = Some em' ->
    (JsObj.own em k <> None \/
     exists f imp, In f files /\ In imp (importsIn fd f) /\
                   takes fd k f (i_resolved imp) = true) ->
    JsObj.own em' k <> None.
Proof.
  induction files as [|f files IH]; intros em em' H Hk.
  - inversion H; subst. destruct Hk as [Hk|[f [imp [[] _]]]]. exact Hk.
  - simpl in H. apply bind_Some in H as [em1 [H1 H]].
    apply (IH _ _ H).
    unfold importEdges in H1. apply bind_Some in H1 as [d [Hd H1]].
    inversion H1; subst em1; clear H1.
    change (fun em0 imp => if negb (Str.truthy (i_resolved imp))
                              || negb (JsObj.truthyAt fd (i_resolved imp))
                           then em0
                           else accumulate em0 f (i_resolved imp)
                                  (Datatypes.length (i_specifiers imp))
                                  (map s_name (i_specifiers imp)))
      with (importStep fd f).
    destruct Hk as [Hk|[f' [imp [[<-|Hf] [Hi Ht]]]]].
    + left. apply importStep_present. now left.
    + left. apply importStep_present. right. exists imp.
      unfold importsIn in Hi. rewrite Hd in Hi. auto.
    + right. eauto.
Qed.

Lemma scriptEdges_present k :
  forall files em em',
    foldM (scriptEdges fd) files em = Some em' ->
    (JsObj.own em k <> None \/
     exists f t, In f files /\ In t (scriptsIn fd f) /\
                 takes fd k f t = true) ->
    JsObj.own em' k <> None.
Proof.
  induction files as [|f files IH]; intros em em' H Hk.
  - inversion H; subst. destruct Hk as [Hk|[f [t [[] _]]]]. exact Hk.
  - simpl in H. apply bind_Some in H as [em1 [H1 H]].
    apply (IH _ _ H).
    unfold scriptEdges in H1. apply bind_Some in H1 as [d [Hd H1]].
    destruct Hk as [Hk|[f' [t [[<-|Hf] [Hi Ht]]]]].
    + left. destruct (fd_htmlScriptRefs d) as [refs|];
        inversion H1; subst em1; [|assumption].
      apply (scriptStep_present f k refs em). now left.
    + left. unfold scriptsIn in Hi. rewrite Hd in Hi.
      destruct (fd_htmlScriptRefs d) as [refs|]; [|destruct Hi].
      inversion H1; subst em1.
      apply (scriptStep_present f k refs em). right. eauto.
    + right. eauto.
Qed.

End Present.

Section Run.
Variable w : World.
Variable rootDir : string.
Variable fd : JsObj.dict FileData.
Hypothesis Hfd : collectFileData w rootDir (scannedFiles w rootDir) = Some fd.

Lemma run_records :
  JsObj.keys fd = scannedFiles w rootDir /\
  forall f, In f (scannedFiles w rootDir) ->
            exists d, JsObj.own fd f = Some d /\ recordOf w rootDir f = Some d.
Proof.
  apply collectFileData_spec; [apply scan_NoDup | apply scanned_not_proto | exact Hfd].
Qed.

Lemma run_truthyAt t : JsObj.truthyAt fd t = knownFile w rootDir t.
Proof.
  destruct run_records as [Hk _].
  unfold JsObj.truthyAt, JsObj.get, knownFile.
  destruct (JsObj.own fd t) eqn:E.
  - assert (In t (scannedFiles w rootDir)).
    { rewrite <- Hk. apply DictFacts.own_keys. congruence. }
    apply mem_In in H. now rewrite H.
  - assert (H : Str.mem t (scannedFiles w rootDir) = false).
    { apply mem_false. rewrite <- Hk. intros Hin.
      apply DictFacts.own_keys in Hin. congruence. }
    rewrite H. cbn [orb].
    destruct (Str.mem t JsObj.prototype_names) eqn:Ep; reflexivity.
Qed.

Lemma run_no_empty_name : JsObj.truthyAt fd "" = false.
Proof.
  rewrite run_truthyAt. unfold knownFile.
  assert (H : Str.mem "" (scannedFiles w rootDir) = false).
  { apply mem_false. intros Hin. now apply scanned_nonempty in Hin. }
  rewrite H. reflexivity.
Qed.

Lemma run_takes k f t : takes fd k f t = joins w rootDir k f t.
Proof. unfold takes, joins. now rewrite run_truthyAt. Qed.

Lemma run_importsIn f :
  In f (scannedFiles w rootDir) -> importsIn fd f = importsOf w rootDir f.
Proof.
  intros Hf. destruct run_records as [_ Hrec].
  destruct (Hrec f Hf) as [d [Ho Hr]].
  unfold importsIn, importsOf. now rewrite Ho, Hr.
Qed.

Lemma run_scriptsIn f :
  In f (scannedFiles w rootDir) -> scriptsIn fd f = scriptRefsOf w rootDir f.
Proof.
  intros Hf. destruct run_records as [_ Hrec].
  destruct (Hrec f Hf) as [d [Ho Hr]].
  unfold scriptsIn, scriptRefsOf. now rewrite Ho, Hr.
Qed.

End Run.

Lemma run_edges w rootDir g :
  analyzeCodebase w rootDir = Some g ->
  exists fd em1 em2,
    collectFileData w rootDir (scannedFiles w rootDir) = Some fd /\
    foldM (importEdges fd) (scannedFiles w rootDir) [] = Some em1 /\
    foldM (scriptEdges fd) (scannedFiles w rootDir) em1 = Some em2 /\
    g_edges g = JsObj.values em2 /\
    NoDup (JsObj.keys em2) /\
    (forall k e, In (k, e) em2 ->
                 k = edgeKey (fe_source e) (fe_target e)).
Proof.
  intros Hrun.
  destruct (analyzeCodebase_shape _ _ _ Hrun) as [fd [Hfd Hbuild]].
  destruct (buildGraph_shape _ _ _ Hbuild)
    as [nodes0 [em1 [em2 [_ [H1 [H2 [Hedges _]]]]]]].
  exists fd, em1, em2. repeat split; try assumption.
  - exact (edgeMap_NoDup _ _ _ _ H1 H2).
  - apply (edgeMap_entries (scannedFiles w rootDir) fd
             (fun k e => k = edgeKey (fe_source e) (fe_target e)))
      with (em1 := em1); auto.
Qed.

(** X5. The references of an edge are the specifier names of every
    import accumulated under the key of its pair of files, file by file in
    the order of the scan, followed by one "script-src" for every script
    reference under that key; the weight of the edge is the length of this
    list. *)
Theorem edge_references_list_every_contribution (w : World)
  (rootDir : string) (g : FileGraph) (e : FileEdge) :
  analyzeCodebase w rootDir = Some g ->
  In e (g_edges g) ->
  fe_references e
  = referencesUnder w rootDir (edgeKey (fe_source e) (fe_target e)) /\
  fe_weight e = List.length (fe_references e).
Proof.
  intros Hrun He.
  destruct (run_edges _ _ _ Hrun)
    as [fd [em1 [em2 [Hfd [H1 [H2 [Hedges [Hnd Hkey]]]]]]]].
  rewrite Hedges in He. apply In_values_entry in He as [k He].
  pose proof (Hkey _ _ He) as Hk. rewrite <- Hk.
  pose proof (own_of_In _ _ _ Hnd He) as Hown.
  pose proof (run_no_empty_name w rootDir fd Hfd) as Hne.
  destruct (importEdges_at fd Hne k _ _ _ H1) as [Hr1 Hw1].
  destruct (scriptEdges_at fd k _ _ _ H2) as [Hr2 Hw2].
  unfold referencesAt, weightAt in *. rewrite Hown in *. simpl in *.
  assert (Hrefs : fe_references e = referencesUnder w rootDir k).
  { rewrite Hr2, Hr1. unfold referencesUnder. f_equal.
    - apply flat_map_ext_in. intros f Hf.
      rewrite (run_importsIn w rootDir fd Hfd f Hf).
      apply flat_map_ext_in. intros imp _.
      now rewrite (run_takes w rootDir fd Hfd).
    - apply flat_map_ext_in. intros f Hf.
      rewrite (run_scriptsIn w rootDir fd Hfd f Hf).
      apply flat_map_ext_in. intros t _.
      now rewrite (run_takes w rootDir fd Hfd). }
  split; [exact Hrefs|]. lia.
Qed.

(** The same on a concrete run. *)
Lemma edge_references_list_every_contribution_witness :
  analyzeCodebase Site.siteProject "/proj" = Some Site.siteGraph /\
  In Site.scriptEdge (g_edges Site.siteGraph) /\
  fe_references Site.scriptEdge
  = referencesUnder Site.siteProject "/proj"
      (edgeKey "index.html" "src/app.js") /\
  fe_weight Site.scriptEdge = List.length (fe_references Site.scriptEdge).
Proof.
  assert (Hrun : analyzeCodebase Site.siteProject "/proj"
                 = Some Site.siteGraph) by (vm_compute; reflexivity).
  assert (He : In Site.scriptEdge (g_edges Site.siteGraph))
    by (vm_compute; auto).
  split; [exact Hrun | split; [exact He |]].
  exact (edge_references_list_every_contribution _ _ _ _ Hrun He).
Defined.

(** X6. Every edge stands for a reference: its source is a scanned file
    that imports its target or loads it by a script tag. Conversely every
    import and every script reference of a scanned file to a known file is
    covered by an edge that has the key of this pair. *)
Theorem edges_stand_for_references (w : World) (rootDir : string)
  (g : FileGraph) :
  analyzeCodebase w rootDir = Some g ->
  (forall e, In e (g_edges g) ->
             In (fe_source e) (scannedFiles w rootDir) /\
             refersTo w rootDir (fe_source e) (fe_target e) /\
             knownFile w rootDir (fe_target e) = true) /\
  (forall file target,
      In file (scannedFiles w rootDir) ->
      refersTo w rootDir file target ->
      knownFile w rootDir target = true ->
      exists e, In e (g_edges g) /\
                edgeKey (fe_source e) (fe_target e) = edgeKey file target).
Proof.
  intros Hrun.
  destruct (run_edges _ _ _ Hrun)
    as [fd [em1 [em2 [Hfd [H1 [H2 [Hedges [Hnd Hkey]]]]]]]].
  pose proof (run_no_empty_name w rootDir fd Hfd) as Hne.
  split.
  - intros e He. rewrite Hedges in He. apply In_values_entry in He as [k He].
    apply (edgeMap_entries (scannedFiles w rootDir) fd
             (fun _ e => In (fe_source e) (scannedFiles w rootDir) /\
                         refersTo w rootDir (fe_source e) (fe_target e) /\
                         knownFile w rootDir (fe_target e) = true))
      with (em1 := em1) (em2 := em2) (k := k); try assumption.
    + intros k0 e0 weight refs H. exact H.
    + intros file data imp Hfile Hdata Himp _ Htruthy. simpl.
      split; [assumption|]. split.
      * left. exists imp. split; [|reflexivity].
        rewrite <- (run_importsIn w rootDir fd Hfd file Hfile).
        unfold importsIn. now rewrite Hdata.
      * now rewrite <- (run_truthyAt w rootDir fd Hfd).
    + intros file data refs t Hfile Hdata Hrefs Hin Htruthy. simpl.
      split; [assumption|]. split.
      * right. rewrite <- (run_scriptsIn w rootDir fd Hfd file Hfile).
        unfold scriptsIn. now rewrite Hdata, Hrefs.
      * now rewrite <- (run_truthyAt w rootDir fd Hfd).
  - intros file target Hfile Href Hknown.
    assert (Hpresent : JsObj.own em2 (edgeKey file target) <> None).
    { assert (Ht : takes fd (edgeKey file target) file target = true).
      { rewrite (run_takes w rootDir fd Hfd). unfold joins.
        now rewrite Hknown, String.eqb_refl. }
      destruct Href as [[imp [Himp Hres]]|Hscript].
      - apply (scriptEdges_present fd _ _ _ _ H2). left.
        apply (importEdges_present fd Hne _ _ _ _ H1). right.
        exists file, imp. rewrite (run_importsIn w rootDir fd Hfd file Hfile).
        rewrite Hres. auto.
      - apply (scriptEdges_present fd _ _ _ _ H2). right.
        exists file, target.
        rewrite (run_scriptsIn w rootDir fd Hfd file Hfile). auto. }
    destruct (JsObj.own em2 (edgeKey file target)) as [e|] eqn:E;
      [|congruence].
    apply DictFacts.own_In in E. exists e. split.
    + rewrite Hedges. unfold JsObj.values. apply in_map_iff.
      exists (edgeKey file target, e). auto.
    + symmetry. now apply Hkey.
Qed.

(** The same on a concrete run. *)
Lemma edges_stand_for_references_witness :
  analyzeCodebase Site.siteProject "/proj" = Some Site.siteGraph /\
  In "index.html" (scannedFiles Site.siteProject "/proj") /\
  refersTo Site.siteProject "/proj" "index.html" "src/app.js" /\
  knownFile Site.siteProject "/proj" "src/app.js" = true /\
  exists e, In e (g_edges Site.siteGraph) /\
            edgeKey (fe_source e) (fe_target e)
            = edgeKey "index.html" "src/app.js".
Proof.
  assert (Hrun : analyzeCodebase Site.siteProject "/proj"
                 = Some Site.siteGraph) by (vm_compute; reflexivity).
  assert (Hf : In "index.html" (scannedFiles Site.siteProject "/proj"))
    by (vm_compute; auto).
  assert (Hr : refersTo Site.siteProject "/proj" "index.html" "src/app.js")
    by (right; vm_compute; auto).
  assert (Hk : knownFile Site.siteProject "/proj" "src/app.js" = true)
    by (vm_compute; reflexivity).
  conjuncts; try assumption.
  exact (proj2 (edges_stand_for_references _ _ _ Hrun) _ _ Hf Hr Hk).
Defined.

(* ------------------------------------------------------------------ *)
(** ** Lines and exports of a node *)

Lemma split_chars_length (c : ascii) (l : list ascii) :
  forall cur, List.length (Str.split_chars c cur l)
              = S (count_occ ascii_dec l c).
Proof.
  induction l as [|x l IH]; intros cur; simpl; [reflexivity|].
  destruct (Ascii.eqb_spec x c) as [->|Hne].
  - simpl. rewrite IH. destruct (ascii_dec c c); congruence.
  - rewrite IH. destruct (ascii_dec x c); congruence.
Qed.

Lemma lineCount_lineFeeds (code : string) :
  Str.lineCount code = S (lineFeeds code).
Proof. apply split_chars_length. Qed.

Section RecordShapes.
Variable w : World.
Variable rootDir : string.

Lemma recordOf_html f d :
  isHtml (Path.extname f) = true ->
  recordOf w rootDir f = Some d ->
  exists code refs,
    readFileSync w (Path.join rootDir f) = Some code /\
    extractHtmlScriptRefs w (Path.join rootDir f) rootDir = Some refs /\
    d = mkFileData [] [] (Str.lineCount code) (Some []) (Some refs).
Proof.
  unfold recordOf, firstRecord. intros Hh H. rewrite Hh in H.
  apply bind_Some in H as [d0 [H0 H]]. inversion H; subst d0; clear H.
  apply bind_Some in H0 as [code [Hc H0]].
  apply bind_Some in H0 as [refs [Hr H0]]. inversion H0. eauto.
Qed.

Lemma recordOf_parsed f d ast :
  isHtml (Path.extname f) = false ->
  parseFile w (Path.join rootDir f) = Some (Some ast) ->
  recordOf w rootDir f = Some d ->
  exists code,
    readFileSync w (Path.join rootDir f) = Some code /\
    d = mkFileData (extractExports ast (Path.join rootDir f))
          (extractImports w ast (Path.join rootDir f) rootDir)
          (Str.lineCount code) (Some (extractGlobalDeclarations ast)) None.
Proof.
  unfold recordOf, firstRecord. intros Hh Hp H. rewrite Hh, Hp in H.
  simpl in H. apply bind_Some in H as [d0 [H0 H]].
  inversion H; subst d; clear H.
  apply bind_Some in H0 as [code [Hc H0]]. inversion H0; subst d0. eauto.
Qed.

Lemma recordOf_unparsed f d :
  isHtml (Path.extname f) = false ->
  parseFile w (Path.join rootDir f) = Some None ->
  recordOf w rootDir f = Some d -> d = unparsedRecord.
Proof.
  unfold recordOf, firstRecord. intros Hh Hp H. rewrite Hh, Hp in H.
  simpl in H. congruence.
Qed.

Lemma recordOf_cases f d :
  recordOf w rootDir f = Some d ->
  isHtml (Path.extname f) = true \/
  (isHtml (Path.extname f) = false /\
   exists ast, parseFile w (Path.join rootDir f) = Some ast).
Proof.
  unfold recordOf, firstRecord. intros H.
  destruct (isHtml (Path.extname f)); [now left | right].
  split; [reflexivity|].
  apply bind_Some in H as [d0 [_ H]].
  apply bind_Some in H as [ast [Hp _]]. eauto.
Qed.

End RecordShapes.

(** X2. The lines field of a node is 0 for a script the parser rejects;
    for every other file it is one more than the number of line feeds of
    the text, so at least 1, also for an empty file. *)
Theorem node_lines_count_line_feeds (w : World) (rootDir : string)
  (g : FileGraph) (n : FileNode) :
  analyzeCodebase w rootDir = Some g ->
  In n (g_nodes g) ->
  (isHtml (Path.extname (n_id n)) = false /\
   parseFile w (Path.join rootDir (n_id n)) = Some None /\
   n_lines n = 0) \/
  (exists code,
      readFileSync w (Path.join rootDir (n_id n)) = Some code /\
      n_lines n = S (lineFeeds code)).
Proof.
  intros Hrun Hn.
  destruct (file_node _ _ _ _ Hrun Hn) as [_ [d [Hd Hnode]]].
  unfold nodeOf in Hnode. simpl in Hnode. rewrite String.eqb_refl in Hnode.
  simpl in Hnode. inversion Hnode as [[Hex Hlines]]; clear Hnode.
  destruct (recordOf_cases _ _ _ _ Hd) as [Hh|[Hh [[ast|] Hp]]].
  - right. destruct (recordOf_html _ _ _ _ Hh Hd) as [code [refs [Hc [_ ->]]]].
    exists code. simpl. split; [assumption | apply lineCount_lineFeeds].
  - right. destruct (recordOf_parsed _ _ _ _ _ Hh Hp Hd) as [code [Hc ->]].
    exists code. simpl. split; [assumption | apply lineCount_lineFeeds].
  - left. rewrite (recordOf_unparsed _ _ _ _ Hh Hp Hd). auto.
Qed.

(** The same on a concrete run. *)
Lemma node_lines_count_line_feeds_witness :
  analyzeCodebase Site.siteProject "/proj" = Some Site.siteGraph /\
  In Site.pageNode (g_nodes Site.siteGraph) /\
  exists code,
    readFileSync Site.siteProject (Path.join "/proj" "index.html")
    = Some code /\
    n_lines Site.pageNode = S (lineFeeds code).
Proof.
  assert (Hrun : analyzeCodebase Site.siteProject "/proj"
                 = Some Site.siteGraph) by (vm_compute; reflexivity).
  assert (Hn : In Site.pageNode (g_nodes Site.siteGraph))
    by (vm_compute; auto).
  split; [exact Hrun | split; [exact Hn |]].
  destruct (node_lines_count_line_feeds _ _ _ _ Hrun Hn) as [[H _]|H].
  - vm_compute in H. discriminate.
  - exact H.
Defined.

(** X3. The exports of the node of a parsed script start with the
    exports of the file; what follows are top-level declarations whose
    name no export carries. The name of every top-level declaration that
    extractGlobalDeclarations collects is in the list. *)
Theorem node_exports_cover_top_level_declarations (w : World)
  (rootDir : string) (g : FileGraph) (n : FileNode) (ast : node) :
  analyzeCodebase w rootDir = Some g ->
  In n (g_nodes g) ->
  isHtml (Path.extname (n_id n)) = false ->
  parseFile w (Path.join rootDir (n_id n)) = Some (Some ast) ->
  (exists rest,
      n_exports n
      = (extractExports ast (Path.join rootDir (n_id n)) ++ rest)%list /\
      forall x, In x rest ->
                In x (extractGlobalDeclarations ast) /\
                ~ In (x_name x)
                    (map x_name
                       (extractExports ast (Path.join rootDir (n_id n))))) /\
  (forall x, In x (extractGlobalDeclarations ast) ->
             In (x_name x) (map x_name (n_exports n))).
Proof.
  intros Hrun Hn Hh Hp.
  destruct (file_node _ _ _ _ Hrun Hn) as [_ [d [Hd Hnode]]].
  destruct (recordOf_parsed _ _ _ _ _ Hh Hp Hd) as [code [Hc ->]].
  unfold nodeOf in Hnode. simpl in Hnode. rewrite String.eqb_refl in Hnode.
  simpl in Hnode. inversion Hnode as [[Hex Hlines]]; clear Hnode.
  split.
  - eexists. split; [reflexivity|].
    intros x Hx. apply filter_In in Hx as [Hx Hm]. split; [assumption|].
    apply negb_true_iff in Hm. now apply mem_false in Hm.
  - intros x Hx. rewrite map_app. apply in_or_app.
    destruct (Str.mem (x_name x)
                (map x_name (extractExports ast (Path.join rootDir (n_id n)))))
      eqn:E.
    + left. now apply mem_In.
    + right. apply in_map. apply filter_In. split; [assumption|].
      now rewrite E.
Qed.

(** The same on a concrete run. *)
Lemma node_exports_cover_top_level_declarations_witness :
  analyzeCodebase Site.siteProject "/proj" = Some Site.siteGraph /\
  In Site.mainNode (g_nodes Site.siteGraph) /\
  isHtml (Path.extname "src/app.js") = false /\
  parseFile Site.siteProject (Path.join "/proj" "src/app.js")
  = Some (Some Site.main_ast) /\
  forall x, In x (extractGlobalDeclarations Site.main_ast) ->
            In (x_name x) (map x_name (n_exports Site.mainNode)).
Proof.
  assert (Hrun : analyzeCodebase Site.siteProject "/proj"
                 = Some Site.siteGraph) by (vm_compute; reflexivity).
  assert (Hn : In Site.mainNode (g_nodes Site.siteGraph))
    by (vm_compute; auto).
  assert (Hh : isHtml (Path.extname (n_id Site.mainNode)) = false)
    by (vm_compute; reflexivity).
  assert (Hp : parseFile Site.siteProject
                 (Path.join "/proj" (n_id Site.mainNode))
               = Some (Some Site.main_ast)) by (vm_compute; reflexivity).
  conjuncts; try assumption.
  exact (proj2 (node_exports_cover_top_level_declarations _ _ _ _ _
                  Hrun Hn Hh Hp)).
Defined.

(* ------------------------------------------------------------------ *)
(** ** Imports *)

(* ---------- lemmas ---------- *)

Lemma find_first {A} (f : A -> bool) (l : list A) (x : A) :
  find f l = Some x ->
  exists pre post,
    l = (pre ++ x :: post)%list /\ f x = true /\
    Forall (fun y => f y = false) pre.
Proof.
  induction l as [|a l IH]; simpl; [discriminate|].
  destruct (f a) eqn:E; intros H.
  - inversion H; subst. exists [], l. auto.
  - destruct (IH H) as [pre [post [-> [Hx Hpre]]]].
    exists (a :: pre), post. auto.
Qed.

Lemma resolvedTruthy_Some r s :
  resolvedTruthy r = Some s -> r = Some s /\ s <> "".
Proof.
  unfold resolvedTruthy, Str.truthy. destruct r as [x|]; [|discriminate].
  destruct (String.eqb_spec x ""); simpl; [discriminate|].
  intros H. inversion H; subst. auto.
Qed.

Lemma importsAt_resolved w filePath rootDir p imp :
  In imp (importsAt w filePath rootDir p) ->
  resolveImport w (i_source imp) filePath rootDir = Some (i_resolved imp) /\
  i_resolved imp <> "".
Proof.
  unfold importsAt. intros H.
  destruct (isType "ImportDeclaration" (p_node p)).
  - destruct (resolvedTruthy _) eqn:E; [|destruct H].
    destruct H as [<-|[]]. simpl. now apply resolvedTruthy_Some.
  - destruct (isType "CallExpression" (p_node p)); [|destruct H].
    apply in_app_or in H as [H|H].
    + destruct (_ && _); [|destruct H].
      destruct (stringArg _) as [source|]; [|destruct H].
      destruct (resolvedTruthy _) eqn:E; [|destruct H].
      destruct H as [<-|[]]. simpl. now apply resolvedTruthy_Some.
    + destruct (_ && _); [|destruct H].
      destruct (stringArg _) as [source|]; [|destruct H].
      destruct (resolvedTruthy _) eqn:E; [|destruct H].
      destruct H as [<-|[]]. simpl. now apply resolvedTruthy_Some.
Qed.

(** X8. Every import record of extractImports has a source that starts
    with "." or "/" (a package name yields no record), and its resolved
    path is not empty: it is the path, relative to the root, of the first
    candidate of getCandidates that exists. *)
Theorem imports_resolve_to_the_first_existing_candidate (w : World)
  (ast : node) (filePath rootDir : string) (imp : Import) :
  In imp (extractImports w ast filePath rootDir) ->
  (Str.startsWith (i_source imp) "." = true \/
   Str.startsWith (i_source imp) "/" = true) /\
  i_resolved imp <> "" /\
  exists pre c post,
    getCandidates (Path.resolve (cwd w) [Path.dirname filePath; i_source imp])
    = (pre ++ c :: post)%list /\
    Forall (fun x => existsSync w x = false) pre /\
    existsSync w c = true /\
    i_resolved imp = Path.relative (cwd w) rootDir c.
Proof.
  unfold extractImports. intros H. apply in_flat_map in H as [p [_ H]].
  apply importsAt_resolved in H as [H Hne].
  unfold resolveImport in H.
  destruct (negb (Str.startsWith (i_source imp) ".")
            && negb (Str.startsWith (i_source imp) "/")) eqn:E;
    [discriminate|].
  split.
  { apply andb_false_iff in E as [E|E]; apply negb_false_iff in E; auto. }
  split; [assumption|].
  destruct (find _ _) as [c|] eqn:Ef; [|discriminate].
  inversion H as [Hr].
  destruct (find_first _ _ _ Ef) as [pre [post [Hl [Hc Hpre]]]].
  exists pre, c, post. auto.
Qed.

(** The same on a concrete run. *)
Lemma imports_resolve_to_the_first_existing_candidate_witness :
  In Site.importRecord
     (extractImports Site.siteProject Site.main_ast "/proj/src/app.js"
        "/proj") /\
  (Str.startsWith (i_source Site.importRecord) "." = true \/
   Str.startsWith (i_source Site.importRecord) "/" = true) /\
  i_resolved Site.importRecord <> "".
Proof.
  assert (Hin : In Site.importRecord
                   (extractImports Site.siteProject Site.main_ast
                      "/proj/src/app.js" "/proj"))
    by (vm_compute; auto).
  destruct (imports_resolve_to_the_first_existing_candidate _ _ _ _ _ Hin)
    as [H1 [H2 _]].
  conjuncts; assumption.
Defined.

(* ------------------------------------------------------------------ *)
(** ** Call facts and their conditions *)

Lemma isType_boundary (t : string) (n : node) :
  isType t n = true ->
  In t ["FunctionDeclaration"; "ArrowFunctionExpression";
        "FunctionExpression"; "ClassMethod"] ->
  isFunctionBoundary n = true.
Proof.
  unfold isFunctionBoundary. intros H Hin. simpl in Hin.
  destruct Hin as [<-|[<-|[<-|[<-|[]]]]]; rewrite H;
    rewrite ?orb_true_r; reflexivity.
Qed.

Lemma findCaller_boundary :
  forall chain caller,
    findCaller chain = Some caller ->
    exists scope, In scope chain /\ isFunctionBoundary scope = true.
Proof.
  induction chain as [|scope chain IH]; intros caller H; [discriminate|].
  destruct chain as [|par rest]; [discriminate|].
  cbn [findCaller] in H.
  destruct (isType "FunctionDeclaration" scope && hasField "id" scope) eqn:E1.
  { apply andb_true_iff in E1 as [E1 _]. exists scope. split; [now left|].
    apply (isType_boundary _ _ E1). simpl. auto. }
  destruct ((isType "ArrowFunctionExpression" scope
             || isType "FunctionExpression" scope)
            && isType "VariableDeclarator" par
            && Str.some_truthy (name (field "id" par))) eqn:E2.
  { apply andb_true_iff in E2 as [E2 _]. apply andb_true_iff in E2 as [E2 _].
    exists scope. split; [now left|].
    apply orb_true_iff in E2 as [E2|E2];
      apply (isType_boundary _ _ E2); simpl; auto. }
  destruct (isType "ClassMethod" scope
            && Str.some_truthy (name (field "key" scope))) eqn:E3.
  { apply andb_true_iff in E3 as [E3 _]. exists scope. split; [now left|].
    apply (isType_boundary _ _ E3). simpl. auto. }
  destruct (IH _ H) as [s [Hs Hb]]. exists s. split; [now right | assumption].
Qed.

(** X10. Every call fact holds a callee that is neither empty nor
    require, the conditions getEnclosingConditions finds for the call, and
    as caller the name the walk up the tree finds; the call stands inside a
    function declaration, a function or arrow expression, or a class
    method. A call at the top level of a module yields no call fact. *)
Theorem call_facts_come_from_function_bodies (sourceCode : string)
  (p : NodePath) (c : Call) :
  In c (callsAt sourceCode p) ->
  k_callee c <> "require" /\ k_callee c <> "" /\
  k_conditions c = getEnclosingConditions p sourceCode /\
  findCaller (p_node p :: p_ancestors p) = Some (k_caller c) /\
  exists scope, In scope (p_node p :: p_ancestors p) /\
                isFunctionBoundary scope = true.
Proof.
  unfold callsAt. intros H.
  destruct (isType "CallExpression" (p_node p)); [|destruct H].
  destruct (match field "callee" (p_node p) with
            | Some c0 => _ | None => _ end) as [calledName objectName].
  destruct calledName as [called|]; [|destruct H].
  destruct (negb (Str.truthy called) || String.eqb called "require") eqn:E;
    [destruct H|].
  destruct (findCaller (p_node p :: p_ancestors p)) as [caller|] eqn:Ef;
    [|destruct H].
  destruct H as [<-|[]]. simpl.
  apply orb_false_iff in E as [Et Er].
  apply negb_false_iff in Et. unfold Str.truthy in Et.
  apply negb_true_iff in Et.
  repeat split.
  - now apply String.eqb_neq.
  - now apply String.eqb_neq.
  - now apply (findCaller_boundary _ _ Ef).
Qed.

(** The same on a concrete run. *)
Lemma call_facts_come_from_function_bodies_witness :
  In Site.helperCall (callsAt Site.main_src Site.helperCallPath) /\
  k_callee Site.helperCall <> "require" /\
  findCaller (p_node Site.helperCallPath :: p_ancestors Site.helperCallPath)
  = Some "main".
Proof.
  assert (Hin : In Site.helperCall
                   (callsAt Site.main_src Site.helperCallPath))
    by (vm_compute; auto).
  destruct (call_facts_come_from_function_bodies _ _ _ Hin)
    as [H1 [_ [_ [H2 _]]]].
  conjuncts; assumption.
Defined.

Lemma boundary_not_conditional (n : node) :
  isFunctionBoundary n = true ->
  isType "IfStatement" n = false /\ isType "ConditionalExpression" n = false.
Proof.
  unfold isFunctionBoundary, isType. intros H.
  repeat (apply orb_true_iff in H as [H|H]);
    apply String.eqb_eq in H; rewrite H; split; reflexivity.
Qed.

Lemma enclosingFrom_boundary (call : node) (sourceCode : string) (f : node) :
  isFunctionBoundary f = true ->
  forall pre rest,
    forallb transparent pre = true ->
    enclosingFrom call sourceCode (pre ++ f :: rest) = [].
Proof.
  intros Hf. destruct (boundary_not_conditional _ Hf) as [Hi Hc].
  induction pre as [|a pre IH]; intros rest Hpre.
  - simpl. destruct rest; [reflexivity|]. now rewrite Hi, Hc, Hf.
  - simpl in Hpre. apply andb_true_iff in Hpre as [Ha Hpre].
    unfold transparent in Ha.
    apply andb_true_iff in Ha as [Ha Hb]. apply andb_true_iff in Ha as [Ha1 Ha2].
    apply negb_true_iff in Ha1, Ha2, Hb.
    specialize (IH rest Hpre).
    simpl. destruct (pre ++ f :: rest)%list eqn:E.
    + destruct pre; discriminate.
    + rewrite Ha1, Ha2, Hb. exact IH.
Qed.

(** X11. The search for the enclosing condition does not leave the
    function that holds the call: when a function boundary comes first
    among the conditionals and function boundaries above the call, no
    condition is recorded, whatever encloses that function. *)
Theorem conditions_stop_at_function_boundary (p : NodePath)
  (sourceCode : string) (pre : list node) (f : node) (rest : list node) :
  p_ancestors p = (pre ++ f :: rest)%list ->
  forallb transparent pre = true ->
  isFunctionBoundary f = true ->
  getEnclosingConditions p sourceCode = [].
Proof.
  intros Hp Hpre Hf. unfold getEnclosingConditions. rewrite Hp.
  now apply enclosingFrom_boundary.
Qed.

(** The same on a concrete run. *)
Lemma conditions_stop_at_function_boundary_witness :
  p_ancestors Site.stepCallPath
  = ([] ++ hd Site.callback_ast (p_ancestors Site.stepCallPath)
        :: tl (p_ancestors Site.stepCallPath))%list /\
  forallb transparent [] = true /\
  isFunctionBoundary (hd Site.callback_ast (p_ancestors Site.stepCallPath))
  = true /\
  existsb (isType "IfStatement") (p_ancestors Site.stepCallPath) = true /\
  getEnclosingConditions Site.stepCallPath Site.callback_src = [].
Proof.
  assert (Hp : p_ancestors Site.stepCallPath
               = ([] ++ hd Site.callback_ast (p_ancestors Site.stepCallPath)
                     :: tl (p_ancestors Site.stepCallPath))%list)
    by (vm_compute; reflexivity).
  assert (Hpre : forallb transparent [] = true) by reflexivity.
  assert (Hf : isFunctionBoundary
                 (hd Site.callback_ast (p_ancestors Site.stepCallPath))
               = true) by (vm_compute; reflexivity).
  assert (Hif : existsb (isType "IfStatement")
                  (p_ancestors Site.stepCallPath) = true)
    by (vm_compute; reflexivity).
  split; [exact Hp | split; [exact Hpre | split; [exact Hf |
    split; [exact Hif |]]]].
  exact (conditions_stop_at_function_boundary _ Site.callback_src _ _ _
           Hp Hpre Hf).
Defined.

(* ------------------------------------------------------------------ *)
(** ** Methods and classes *)

Lemma variableSymbols_kind relFile p s :
  In s (variableSymbols relFile p) -> sy_type s = "variable".
Proof.
  unfold variableSymbols. intros H. apply in_flat_map in H as [d [_ H]].
  break_in H; subst; reflexivity.
Qed.

Lemma methodSymbols_owner relFile className cls s :
  In s (methodSymbols relFile className cls) ->
  sy_type s = "method" /\ sy_file s = relFile /\
  sy_parent s = Some (symbolId relFile className) /\
  exists m, sy_name s = className ++ "." ++ m /\ In m (methodNames cls).
Proof.
  unfold methodSymbols, methodNames. intros H.
  apply in_flat_map in H as [member [Hm H]].
  destruct (isType "ClassMethod" member
            && Str.some_truthy (name (field "key" member))) eqn:E;
    [|destruct H].
  destruct H as [<-|[]]. simpl. repeat split.
  exists (nameOf (field "key" member)). split; [reflexivity|].
  apply in_flat_map. exists member. split; [assumption|].
  rewrite E. now left.
Qed.

Lemma symbolsAt_method relFile p s :
  In s (symbolsAt relFile p) ->
  sy_type s = "method" ->
  exists c, In c (symbolsAt relFile p) /\ methodOf s c.
Proof.
  unfold symbolsAt. intros H Ht.
  destruct (isType "FunctionDeclaration" (p_node p)).
  { break_in H; subst; discriminate. }
  destruct (isType "ArrowFunctionExpression" (p_node p)).
  { break_in H; subst; discriminate. }
  destruct (isType "ClassDeclaration" (p_node p)).
  { destruct (negb (hasField "id" (p_node p))); [destruct H|].
    apply in_app_or in H as [H|[<-|[]]]; [|discriminate].
    apply methodSymbols_owner in H as [_ [Hf [Hp [m [Hn Hm]]]]].
    eexists. split; [apply in_or_app; right; left; reflexivity|].
    unfold methodOf. simpl. repeat split; auto.
    exists m. eexists. repeat split; eauto. }
  destruct (isType "VariableDeclaration" (p_node p)).
  { destruct (_ && _); [destruct H|].
    apply variableSymbols_kind in H. congruence. }
  destruct (isType "TSTypeAliasDeclaration" (p_node p)).
  { break_in H; subst; discriminate. }
  destruct (isType "TSInterfaceDeclaration" (p_node p)).
  { break_in H; subst; discriminate. }
  destruct H.
Qed.

Lemma analyzeSymbols_symbols w rootDir g :
  analyzeSymbols w rootDir = Some g ->
  sg_files g = uniqueFilesOf w rootDir EXTENSIONS /\
  sg_symbols g = flat_map (declaredSymbols w rootDir) (sg_files g).
Proof.
  intros Hrun.
  destruct (analyzeSymbols_shape _ _ _ Hrun)
    as [emitted [h1 [deduped [h2 [Hc _]]]]].
  now apply collectRun_symbols in Hc.
Qed.

Lemma methodNames_symbols relFile className cls m :
  In m (methodNames cls) ->
  exists s, In s (methodSymbols relFile className cls) /\
            sy_name s = className ++ "." ++ m.
Proof.
  unfold methodSymbols, methodNames. intros H.
  apply in_flat_map in H as [member [Hm H]].
  destruct (isType "ClassMethod" member
            && Str.some_truthy (name (field "key" member))) eqn:E;
    [|destruct H].
  destruct H as [<-|[]].
  eexists. split.
  - apply in_flat_map. exists member. split; [assumption|].
    rewrite E. left. reflexivity.
  - reflexivity.
Qed.

Lemma symbolsAt_class relFile p c ms m :
  In c (symbolsAt relFile p) ->
  sy_type c = "class" ->
  sy_methods c = Some ms ->
  In m ms ->
  exists s, In s (symbolsAt relFile p) /\ methodOf s c /\
            sy_name s = sy_name c ++ "." ++ m.
Proof.
  unfold symbolsAt. intros H Ht Hms Hm.
  destruct (isType "FunctionDeclaration" (p_node p)).
  { break_in H; subst; discriminate. }
  destruct (isType "ArrowFunctionExpression" (p_node p)).
  { break_in H; subst; discriminate. }
  destruct (isType "ClassDeclaration" (p_node p)).
  { destruct (negb (hasField "id" (p_node p))); [destruct H|].
    apply in_app_or in H as [H|[<-|[]]].
    - apply methodSymbols_owner in H as [H _]. congruence.
    - simpl in Hms. inversion Hms; subst ms. simpl.
      destruct (methodNames_symbols relFile
                  (nameOf (field "id" (p_node p))) (p_node p) m Hm)
        as [s [Hs Hn]].
      exists s. split; [apply in_or_app; now left|]. split; [|assumption].
      apply methodSymbols_owner in Hs as [_ [Hf [Hp _]]].
      unfold methodOf. simpl. repeat split; auto.
      exists m. eexists. repeat split; eauto. }
  destruct (isType "VariableDeclaration" (p_node p)).
  { destruct (_ && _); [destruct H|].
    apply variableSymbols_kind in H. congruence. }
  destruct (isType "TSTypeAliasDeclaration" (p_node p)).
  { break_in H; subst; discriminate. }
  destruct (isType "TSInterfaceDeclaration" (p_node p)).
  { break_in H; subst; discriminate. }
  destruct H.
Qed.

Lemma declared_at w rootDir g s :
  analyzeSymbols w rootDir = Some g ->
  In s (sg_symbols g) ->
  exists file p,
    In s (symbolsAt file p) /\
    forall s', In s' (symbolsAt file p) -> In s' (sg_symbols g).
Proof.
  intros Hrun Hs.
  destruct (analyzeSymbols_symbols _ _ _ Hrun) as [_ Hsym].
  rewrite Hsym in Hs. apply in_flat_map in Hs as [file [Hfile Hs]].
  unfold declaredSymbols in Hs.
  destruct (parseFile w (Path.join rootDir file)) as [[ast|]|] eqn:Ep;
    try destruct Hs.
  destruct (readFileSync w (Path.join rootDir file)) as [src|] eqn:Er;
    [|destruct Hs].
  simpl in Hs. apply in_flat_map in Hs as [p [Hp Hs]].
  exists file, p. split; [assumption|]. intros s' Hs'.
  rewrite Hsym. apply in_flat_map. exists file. split; [assumption|].
  unfold declaredSymbols. rewrite Ep, Er. simpl.
  apply in_flat_map. eauto.
Qed.

(** X12. In the returned symbol list methods and classes match. Every
    method symbol has its class: a class symbol of the same file whose id
    is the parent of the method, whose name starts the name of the method
    and whose methods list names it. Every name in the methods list of a
    class symbol has its method symbol. *)
Theorem methods_and_classes_match (w : World) (rootDir : string)
  (g : SymbolGraph) :
  analyzeSymbols w rootDir = Some g ->
  (forall s, In s (sg_symbols g) -> sy_type s = "method" ->
             exists c, In c (sg_symbols g) /\ methodOf s c) /\
  (forall c ms m,
      In c (sg_symbols g) -> sy_type c = "class" ->
      sy_methods c = Some ms -> In m ms ->
      exists s, In s (sg_symbols g) /\ methodOf s c /\
                sy_name s = sy_name c ++ "." ++ m).
Proof.
  intros Hrun. split.
  - intros s Hs Ht.
    destruct (declared_at _ _ _ _ Hrun Hs) as [file [p [Hp Hall]]].
    destruct (symbolsAt_method _ _ _ Hp Ht) as [c [Hc Hm]]. eauto.
  - intros c ms m Hc Ht Hms Hm.
    destruct (declared_at _ _ _ _ Hrun Hc) as [file [p [Hp Hall]]].
    destruct (symbolsAt_class _ _ _ _ _ Hp Ht Hms Hm) as [s [Hs [Ho Hn]]].
    eauto.
Qed.

(** The same on a concrete run. *)
Lemma methods_and_classes_match_witness :
  analyzeSymbols Site.siteProject "/proj" = Some Site.siteSymbols /\
  In Site.openSymbol (sg_symbols Site.siteSymbols) /\
  sy_type Site.openSymbol = "method" /\
  exists c, In c (sg_symbols Site.siteSymbols) /\ methodOf Site.openSymbol c.
Proof.
  assert (Hrun : analyzeSymbols Site.siteProject "/proj"
                 = Some Site.siteSymbols) by (vm_compute; reflexivity).
  assert (Hs : In Site.openSymbol (sg_symbols Site.siteSymbols))
    by (vm_compute; auto).
  assert (Ht : sy_type Site.openSymbol = "method") by reflexivity.
  conjuncts; try assumption.
  exact (proj1 (methods_and_classes_match _ _ _ Hrun) _ Hs Ht).
Defined.

(* ------------------------------------------------------------------ *)
(** ** Referenced identifiers *)

Lemma node_induction (P : node -> Prop) :
  (forall a ks, Forall P ks -> P (Node a ks)) -> forall n, P n.
Proof.
  intros H. fix IH 1. intros [a ks]. apply H.
  induction ks as [|k ks IHks]; constructor; [apply IH | exact IHks].
Qed.

Lemma pathsFrom_head (anc : list node) (n : node) :
  In (mkPath n anc) (pathsFrom anc n).
Proof. destruct n. simpl. now left. Qed.

Lemma pathsFrom_child :
  forall n anc p,
    In p (pathsFrom anc n) ->
    forall c, In c (kids (p_node p)) ->
              In (mkPath c (p_node p :: p_ancestors p)) (pathsFrom anc n).
Proof.
  induction n as [a ks IH] using node_induction.
  intros anc p Hp c Hc. simpl in Hp. destruct Hp as [<-|Hp].
  - simpl in *. right. apply in_flat_map. exists c.
    split; [assumption | apply pathsFrom_head].
  - simpl. right. apply in_flat_map in Hp as [k [Hk Hp]].
    apply in_flat_map. exists k. split; [assumption|].
    rewrite Forall_forall in IH. now apply (IH k Hk).
Qed.

Lemma traverse_child (ast : node) (p : NodePath) (c : node) :
  In p (traverse ast) -> In c (kids (p_node p)) ->
  In (mkPath c (p_node p :: p_ancestors p)) (traverse ast).
Proof.
  unfold traverse. intros Hp Hc. apply in_flat_map in Hp as [k [Hk Hp]].
  apply in_flat_map. exists k. split; [assumption|].
  now apply pathsFrom_child.
Qed.

Lemma field_child (k : string) (n c : node) :
  field k n = Some c -> In c (kids n) /\ key c = k.
Proof.
  unfold field. intros H. apply find_some in H as [H1 H2].
  apply String.eqb_eq in H2. auto.
Qed.

Lemma callee_is_visited (computed : node -> bool) (ast : node) (p : NodePath)
  (x : string) :
  In p (traverse ast) -> In x (calleeRefsAt p) ->
  exists q, In q (traverse ast) /\ In x (identifierRefsAt computed q).
Proof.
  unfold calleeRefsAt. intros Hp Hx.
  destruct (isType "CallExpression" (p_node p)) eqn:Et; [|destruct Hx].
  destruct (field "callee" (p_node p)) as [c|] eqn:Ef; [|destruct Hx].
  destruct (isType "Identifier" c) eqn:Ei; [|destruct Hx].
  destruct Hx as [<-|[]].
  apply field_child in Ef as [Hc Hk].
  exists (mkPath c (p_node p :: p_ancestors p)).
  split; [now apply traverse_child|].
  unfold identifierRefsAt, parent, isDeclarationSite. simpl. rewrite Ei.
  unfold isType in *. apply String.eqb_eq in Et. rewrite Et. simpl.
  now left.
Qed.

(** X9. extractReferencedIdentifiers returns a set. A name belongs to it
    exactly when an Identifier node carries it that is neither a
    declaration site nor the name of a property that is not computed: the
    CallExpression visitor adds no name the Identifier visitor does not
    add. In particular the name of every function that is called by a bare
    identifier belongs to it. *)
Theorem referenced_identifiers_are_the_used_names (computed : node -> bool)
  (ast : node) :
  NoDup (extractReferencedIdentifiers computed ast) /\
  (forall x, In x (extractReferencedIdentifiers computed ast) <->
             exists p, In p (traverse ast) /\
                       In x (identifierRefsAt computed p)) /\
  (forall p c, In p (traverse ast) ->
               isType "CallExpression" (p_node p) = true ->
               field "callee" (p_node p) = Some c ->
               isType "Identifier" c = true ->
               In (nameOf (Some c)) (extractReferencedIdentifiers computed ast)).
Proof.
  unfold extractReferencedIdentifiers. split; [apply dedup_acc_NoDup|]. split.
  - intros x. rewrite dedup_In, in_flat_map. split.
    + intros [p [Hp Hx]]. apply in_app_or in Hx as [Hx|Hx]; [eauto|].
      now apply (callee_is_visited computed ast p).
    + intros [p [Hp Hx]]. exists p. split; [assumption|].
      apply in_or_app. now left.
  - intros p c Hp Ht Hf Hi. apply dedup_In, in_flat_map. exists p.
    split; [assumption|]. apply in_or_app. right.
    unfold calleeRefsAt. rewrite Ht, Hf, Hi. now left.
Qed.

(* ------------------------------------------------------------------ *)
(** ** The two builders together *)

Lemma dedup_acc_app (a b : list string) :
  forall seen,
    exists rest,
      Str.dedup_acc seen (a ++ b) = (Str.dedup_acc seen a ++ rest)%list /\
      forall f, In f rest -> In f b.
Proof.
  induction a as [|x a IH]; intros seen; simpl.
  - exists (Str.dedup_acc seen b). split; [reflexivity|].
    intros f Hf. now apply dedup_acc_In in Hf.
  - destruct (Str.mem x seen); [apply IH|].
    destruct (IH (x :: seen)) as [rest [-> Hrest]].
    exists rest. auto.
Qed.

Lemma scan_html_last w rootDir :
  exists rest,
    scannedFiles w rootDir
    = (uniqueFilesOf w rootDir EXTENSIONS ++ rest)%list /\
    forall f, In f rest ->
              Str.endsWith f ".html" = true \/ Str.endsWith f ".htm" = true.
Proof.
  unfold scannedFiles, uniqueFilesOf, scan, ALL_EXTENSIONS, Str.dedup.
  rewrite flat_map_app.
  destruct (dedup_acc_app (flat_map (glob w rootDir) EXTENSIONS)
              (flat_map (glob w rootDir) [".html"; ".htm"]) [])
    as [rest [-> Hrest]].
  exists rest. split; [reflexivity|].
  intros f Hf. apply Hrest in Hf. simpl in Hf. rewrite app_nil_r in Hf.
  unfold glob in Hf.
  apply in_app_or in Hf as [Hf|Hf]; apply filter_In in Hf as [_ Hf];
    apply andb_true_iff in Hf as [Hf _]; auto.
Qed.

(** X14. The two builders on the same tree: the file list of the symbol
    graph has no duplicates, holds the file of every returned symbol, and
    is the start of the node list of the file graph; the nodes after it
    are the HTML files. *)
Theorem symbol_files_lead_the_file_nodes (w : World) (rootDir : string)
  (g : FileGraph) (sg : SymbolGraph) :
  analyzeCodebase w rootDir = Some g ->
  analyzeSymbols w rootDir = Some sg ->
  NoDup (sg_files sg) /\
  (forall s, In s (sg_symbols sg) -> In (sy_file s) (sg_files sg)) /\
  exists rest,
    map n_id (g_nodes g) = (sg_files sg ++ rest)%list /\
    forall f, In f rest ->
              Str.endsWith f ".html" = true \/ Str.endsWith f ".htm" = true.
Proof.
  intros Hg Hsg.
  destruct (analyzeSymbols_symbols _ _ _ Hsg) as [Hfiles Hsym].
  split; [rewrite Hfiles; apply scan_NoDup|]. split.
  - intros s Hs.
    destruct (returned_symbol_origin _ _ _ _ Hsg Hs) as [file [Hf Hd]].
    apply declaredSymbols_wellNamed in Hd as [-> _]. exact Hf.
  - destruct (analyzeCodebase_shape _ _ _ Hg) as [fd [Hfd Hbuild]].
    destruct (buildGraph_shape _ _ _ Hbuild)
      as [nodes0 [em1 [em2 [_ [_ [_ [_ [Hids _]]]]]]]].
    rewrite Hids, Hfiles. apply scan_html_last.
Qed.

(** The same on a concrete run. *)
Lemma symbol_files_lead_the_file_nodes_witness :
  analyzeCodebase Site.siteProject "/proj" = Some Site.siteGraph /\
  analyzeSymbols Site.siteProject "/proj" = Some Site.siteSymbols /\
  NoDup (sg_files Site.siteSymbols) /\
  exists rest,
    map n_id (g_nodes Site.siteGraph)
    = (sg_files Site.siteSymbols ++ rest)%list /\
    forall f, In f rest ->
              Str.endsWith f ".html" = true \/ Str.endsWith f ".htm" = true.
Proof.
  assert (Hg : analyzeCodebase Site.siteProject "/proj"
               = Some Site.siteGraph) by (vm_compute; reflexivity).
  assert (Hs : analyzeSymbols Site.siteProject "/proj"
               = Some Site.siteSymbols) by (vm_compute; reflexivity).
  destruct (symbol_files_lead_the_file_nodes _ _ _ _ Hg Hs) as [H1 [_ H2]].
  conjuncts; assumption.
Defined.

Lemma foldS_each {A S} (f : S -> A -> ST S) :
  forall l s h r,
    foldS f l s h = Some r ->
    forall a, In a l -> exists s0 h0 r0, f s0 a h0 = Some r0.
Proof.
  induction l as [|x l IH]; simpl; intros s h r H a Ha; [destruct Ha|].
  destruct r as [s' h'].
  apply bindS_Some in H as [s1 [h1 [Hx H]]].
  destruct Ha as [<-|Ha]; [eauto | eapply IH; eauto].
Qed.

Lemma parseFile_reads w p ast :
  parseFile w p = Some ast -> readFileSync w p <> None.
Proof.
  unfold parseFile. intros H. apply bind_Some in H as [code [Hc _]]. congruence.
Qed.

Lemma firstRecord_reads w rootDir f d :
  firstRecord w rootDir f = Some d ->
  readFileSync w (Path.join rootDir f) <> None.
Proof.
  unfold firstRecord. intros H. destruct (isHtml (Path.extname f)).
  - apply bind_Some in H as [code [Hc _]]. congruence.
  - apply bind_Some in H as [ast [Hp _]]. now apply parseFile_reads in Hp.
Qed.

Lemma analyzeCodebase_reads w rootDir g :
  analyzeCodebase w rootDir = Some g ->
  readable w rootDir (scannedFiles w rootDir).
Proof.
  intros Hrun f Hf.
  destruct (analyzeCodebase_shape _ _ _ Hrun) as [fd [Hfd _]].
  destruct (collectFileData_spec w rootDir _ _ (scan_NoDup _ _ _)
              (scanned_not_proto w rootDir) Hfd) as [_ Hrec].
  destruct (Hrec f Hf) as [d [_ Hd]].
  unfold recordOf in Hd. apply bind_Some in Hd as [d0 [H0 _]].
  now apply firstRecord_reads in H0.
Qed.

Lemma analyzeSymbols_reads w rootDir sg :
  analyzeSymbols w rootDir = Some sg ->
  readable w rootDir (uniqueFilesOf w rootDir EXTENSIONS).
Proof.
  intros Hrun f Hf.
  destruct (analyzeSymbols_shape _ _ _ Hrun)
    as [emitted [h1 [deduped [h2 [Hc _]]]]].
  unfold collectRun in Hc.
  apply bindS_Some in Hc as [p1 [h0 [H1 _]]].
  destruct (foldS_each _ _ _ _ _ H1 f Hf) as [s0 [h' [r0 Hstep]]].
  unfold firstPassSymbols in Hstep. destruct r0 as [s1 h1'].
  apply bindS_Some in Hstep as [ast [h'' [Hp _]]].
  apply lift_Some in Hp as [Hp _]. now apply parseFile_reads in Hp.
Qed.

(** X15. A scanned file that cannot be read aborts the run: analyzeCodebase
    throws when any scanned file is unreadable, analyzeSymbols when any
    scanned script is. Unlike a file the parser rejects, an unreadable file
    is not skipped. *)
Theorem unreadable_file_aborts_the_builders (w : World)
  (rootDir f : string) :
  readFileSync w (Path.join rootDir f) = None ->
  (In f (scannedFiles w rootDir) -> analyzeCodebase w rootDir = None) /\
  (In f (uniqueFilesOf w rootDir EXTENSIONS) ->
   analyzeSymbols w rootDir = None).
Proof.
  intros Hread. split; intros Hf.
  - destruct (analyzeCodebase w rootDir) as [g|] eqn:Hrun; [|reflexivity].
    exfalso. exact (analyzeCodebase_reads _ _ _ Hrun f Hf Hread).
  - destruct (analyzeSymbols w rootDir) as [sg|] eqn:Hrun; [|reflexivity].
    exfalso. exact (analyzeSymbols_reads _ _ _ Hrun f Hf Hread).
Qed.

(** The same on a concrete run. *)
Lemma unreadable_file_aborts_the_builders_witness :
  readFileSync Site.lockedProject (Path.join "/proj" "src/util.js") = None /\
  In "src/util.js" (scannedFiles Site.lockedProject "/proj") /\
  analyzeCodebase Site.lockedProject "/proj" = None /\
  analyzeSymbols Site.lockedProject "/proj" = None.
Proof.
  assert (Hr : readFileSync Site.lockedProject
                 (Path.join "/proj" "src/util.js") = None)
    by (vm_compute; reflexivity).
  assert (Hf : In "src/util.js" (scannedFiles Site.lockedProject "/proj"))
    by (vm_compute; auto).
  assert (Hs : In "src/util.js"
                  (uniqueFilesOf Site.lockedProject "/proj" EXTENSIONS))
    by (vm_compute; auto).
  destruct (unreadable_file_aborts_the_builders _ _ _ Hr) as [H1 H2].
  split; [exact Hr | split; [exact Hf | split; [exact (H1 Hf) | exact (H2 Hs)]]].
Defined.

(* ------------------------------------------------------------------ *)
(** ** The caches of the server *)

Section Caches.

Variable w : World.
Variable fileGraphOf : string -> option FileGraph.
Variable symbolGraphOf : string -> option SymbolGraph.

(** What every handler keeps, whatever the builders do. *)
Lemma serve_keeps st r :
  Api.graphOfTarget fileGraphOf st /\
  Api.symbolsOfSomeTarget symbolGraphOf st ->
  Api.graphOfTarget fileGraphOf
    (fst (Api.serve w fileGraphOf symbolGraphOf st r)) /\
  Api.symbolsOfSomeTarget symbolGraphOf
    (fst (Api.serve w fileGraphOf symbolGraphOf st r)).
Proof.
  intros [Hg Hs].
  destruct r as [bodyPath| |queryPath| |targetArg]; simpl.
  - unfold Api.postAnalyze.
    destruct (fileGraphOf _) as [g|] eqn:Eg; [|now split].
    destruct (symbolGraphOf _) as [sg|] eqn:Esg; simpl.
    + split.
      * unfold Api.graphOfTarget. simpl. rewrite Eg. split; [discriminate|auto].
      * intros s H. simpl in *. inversion H; subst s.
        split; [discriminate | eauto].
    + split.
      * unfold Api.graphOfTarget. simpl. rewrite Eg. split; [discriminate|auto].
      * intros s H. simpl in *. destruct (Hs s H) as [_ Hd].
        split; [discriminate | exact Hd].
  - unfold Api.getSymbols.
    destruct (Api.cachedSymbols st) as [s|] eqn:Es;
      destruct (Api.cachedTarget st) as [t|] eqn:Et; simpl;
      try (destruct (Str.truthy t)); simpl; try (now split).
    destruct (symbolGraphOf t) as [sg|] eqn:Esg; simpl; [|now split].
    split.
    + unfold Api.graphOfTarget in *. simpl. rewrite Et in Hg. exact Hg.
    + intros s H. simpl in *. inversion H; subst s.
      split; [discriminate | eauto].
  - now split.
  - unfold Api.getGraph. destruct (Api.cachedGraph st); now split.
  - unfold Api.autoAnalyze. destruct (Str.truthy targetArg); [|now split].
    destruct (fileGraphOf _) as [g|] eqn:Eg; [|now split].
    destruct (symbolGraphOf _) as [sg|] eqn:Esg; simpl.
    + split.
      * unfold Api.graphOfTarget. simpl. rewrite Eg. split; [discriminate|auto].
      * intros s H. simpl in *. inversion H; subst s.
        split; [discriminate | eauto].
    + split.
      * unfold Api.graphOfTarget. simpl. rewrite Eg. split; [discriminate|auto].
      * intros s H. simpl in *. destruct (Hs s H) as [_ Hd].
        split; [discriminate | exact Hd].
Qed.

Lemma run_keeps :
  forall rs st,
    Api.graphOfTarget fileGraphOf st /\
    Api.symbolsOfSomeTarget symbolGraphOf st ->
    Api.graphOfTarget fileGraphOf (Api.run w fileGraphOf symbolGraphOf st rs) /\
    Api.symbolsOfSomeTarget symbolGraphOf
      (Api.run w fileGraphOf symbolGraphOf st rs).
Proof.
  induction rs as [|r rs IH]; simpl; intros st H; [exact H|].
  apply IH. now apply serve_keeps.
Qed.

(** A graph in a reply is the graph of the target then cached. *)
Lemma graph_reply st r g :
  Api.graphOfTarget fileGraphOf st ->
  snd (Api.serve w fileGraphOf symbolGraphOf st r) = Api.Graph g ->
  exists target,
    Api.cachedTarget
      (fst (Api.serve w fileGraphOf symbolGraphOf st r)) = Some target /\
    fileGraphOf target = Some g.
Proof.
  intros Hg.
  destruct r as [bodyPath| |queryPath| |targetArg]; simpl.
  - unfold Api.postAnalyze.
    destruct (fileGraphOf _) as [g0|] eqn:Eg; [|discriminate].
    destruct (symbolGraphOf _) as [sg|]; simpl; [|discriminate].
    intros H. inversion H; subst g0. eauto.
  - unfold Api.getSymbols.
    destruct (Api.cachedSymbols st); destruct (Api.cachedTarget st) as [t|];
      simpl; try (destruct (Str.truthy t)); simpl; try discriminate.
    destruct (symbolGraphOf t); discriminate.
  - discriminate.
  - unfold Api.getGraph, Api.graphOfTarget in *.
    destruct (Api.cachedGraph st) as [g0|] eqn:Eg; simpl; [|discriminate].
    intros H. inversion H; subst g0.
    destruct (Api.cachedTarget st) as [t|]; [|discriminate].
    exists t. destruct Hg as [_ Hg]. split; congruence.
  - unfold Api.autoAnalyze. destruct (Str.truthy targetArg); [|discriminate].
    destruct (fileGraphOf _); [|discriminate].
    destruct (symbolGraphOf _); discriminate.
Qed.

(** What a request answered with status 500 has changed. *)
Lemma failed_reply st r :
  snd (Api.serve w fileGraphOf symbolGraphOf st r) = Api.Failed ->
  Api.cachedSymbols
    (fst (Api.serve w fileGraphOf symbolGraphOf st r)) = Api.cachedSymbols st /\
  (r = Api.GetSymbols -> fst
    (Api.serve w fileGraphOf symbolGraphOf st r) = st) /\
  ((forall dir, fileGraphOf dir <> None -> symbolGraphOf dir <> None) ->
   fst (Api.serve w fileGraphOf symbolGraphOf st r) = st).
Proof.
  destruct r as [bodyPath| |queryPath| |targetArg]; simpl.
  - unfold Api.postAnalyze.
    destruct (fileGraphOf _) as [g0|] eqn:Eg;
      [|intros _; split; [reflexivity | split; intros; reflexivity]].
    destruct (symbolGraphOf _) as [sg|] eqn:Esg; simpl; [discriminate|].
    intros _. split; [reflexivity|]. split; [discriminate|].
    intros H. exfalso. refine (H _ _ Esg). rewrite Eg. discriminate.
  - unfold Api.getSymbols.
    destruct (Api.cachedSymbols st) eqn:Es;
      destruct (Api.cachedTarget st) as [t|];
      simpl; try (destruct (Str.truthy t)); simpl; try discriminate.
    destruct (symbolGraphOf t); [discriminate|].
    intros _. simpl. split; [exact Es | split; intros; reflexivity].
  - discriminate.
  - unfold Api.getGraph. destruct (Api.cachedGraph st); discriminate.
  - unfold Api.autoAnalyze. destruct (Str.truthy targetArg); [|discriminate].
    destruct (fileGraphOf _); [|discriminate].
    destruct (symbolGraphOf _); discriminate.
Qed.

Hypothesis symbols_follow :
  forall dir, fileGraphOf dir <> None -> symbolGraphOf dir <> None.

Lemma serve_coherent st r :
  Api.coherent fileGraphOf symbolGraphOf st ->
  Api.coherent fileGraphOf symbolGraphOf
    (fst (Api.serve w fileGraphOf symbolGraphOf st r)).
Proof.
  intros Hst.
  destruct r as [bodyPath| |queryPath| |targetArg]; simpl.
  - unfold Api.postAnalyze.
    destruct (fileGraphOf _) as [g|] eqn:Eg; [|exact Hst].
    destruct (symbolGraphOf _) as [sg|] eqn:Esg.
    + unfold Api.coherent. simpl. rewrite Eg, Esg.
      repeat split; discriminate.
    + exfalso. refine (symbols_follow _ _ Esg). rewrite Eg. discriminate.
  - unfold Api.getSymbols, Api.coherent in *.
    destruct (Api.cachedSymbols st) as [s|] eqn:Es;
      destruct (Api.cachedTarget st) as [t|] eqn:Et; simpl;
      try (destruct (Str.truthy t)); simpl; rewrite ?Es, ?Et; try exact Hst.
    destruct Hst as [_ [_ [_ H]]]. congruence.
  - exact Hst.
  - unfold Api.getGraph. destruct (Api.cachedGraph st); exact Hst.
  - unfold Api.autoAnalyze. destruct (Str.truthy targetArg); [|exact Hst].
    destruct (fileGraphOf _) as [g|] eqn:Eg; [|exact Hst].
    destruct (symbolGraphOf _) as [sg|] eqn:Esg.
    + unfold Api.coherent. simpl. rewrite Eg, Esg.
      repeat split; discriminate.
    + exfalso. refine (symbols_follow _ _ Esg). rewrite Eg. discriminate.
Qed.

Lemma run_coherent :
  forall rs st,
    Api.coherent fileGraphOf symbolGraphOf st ->
    Api.coherent fileGraphOf symbolGraphOf
      (Api.run w fileGraphOf symbolGraphOf st rs).
Proof.
  induction rs as [|r rs IH]; simpl; intros st H; [exact H|].
  apply IH. now apply serve_coherent.
Qed.

(** Symbols in a reply are those of the target then cached. *)
Lemma symbols_reply st r sg :
  Api.coherent fileGraphOf symbolGraphOf st ->
  snd (Api.serve w fileGraphOf symbolGraphOf st r) = Api.Symbols sg ->
  exists target,
    Api.cachedTarget
      (fst (Api.serve w fileGraphOf symbolGraphOf st r)) = Some target /\
    symbolGraphOf target = Some sg.
Proof.
  intros Hst.
  destruct r as [bodyPath| |queryPath| |targetArg]; simpl.
  - unfold Api.postAnalyze.
    destruct (fileGraphOf _); [|discriminate].
    destruct (symbolGraphOf _); discriminate.
  - unfold Api.getSymbols, Api.coherent in *.
    destruct (Api.cachedSymbols st) as [s|] eqn:Es;
      destruct (Api.cachedTarget st) as [t|] eqn:Et; simpl;
      try (destruct (Str.truthy t)); simpl; try discriminate.
    + intros H. inversion H; subst s. exists t. rewrite Et.
      destruct Hst as [_ [Hs _]]. auto.
    + destruct Hst as [_ [_ [_ H]]]. congruence.
  - discriminate.
  - unfold Api.getGraph. destruct (Api.cachedGraph st); discriminate.
  - unfold Api.autoAnalyze. destruct (Str.truthy targetArg); [|discriminate].
    destruct (fileGraphOf _); [|discriminate].
    destruct (symbolGraphOf _); discriminate.
Qed.

End Caches.

(** X16. The requests are served one after the other, over a file system
    that does not change. Whatever the two builders do, the cached graph
    and the cached target are set together and the graph is that of the
    target; cached symbols come with a target and are the symbols of a
    directory; a graph in a reply is the graph of the target then cached;
    and a request answered with status 500 leaves the cached symbols as
    they were (a failed /api/symbols leaves every cache). If the symbol
    graph can be built wherever the file graph can, the caches are
    coherent: the cached symbols are those of the cached target, so are the
    symbols in a reply, and a request answered with status 500 has changed
    no cache. Without that, /api/analyze can leave the symbols of an
    earlier target beside a new graph. *)
Theorem server_graph_cache_follows_its_target (w : World)
  (fileGraphOf : string -> option FileGraph)
  (symbolGraphOf : string -> option SymbolGraph)
  (rs : list Api.Request) (r : Api.Request) :
  let serve := Api.serve w fileGraphOf symbolGraphOf in
  let st := Api.run w fileGraphOf symbolGraphOf Api.start rs in
  (Api.graphOfTarget fileGraphOf st /\
   Api.symbolsOfSomeTarget symbolGraphOf st) /\
  (forall g, snd (serve st r) = Api.Graph g ->
             exists target,
               Api.cachedTarget (fst (serve st r)) = Some target /\
               fileGraphOf target = Some g) /\
  (snd (serve st r) = Api.Failed ->
   Api.cachedSymbols (fst (serve st r)) = Api.cachedSymbols st /\
   (r = Api.GetSymbols -> fst (serve st r) = st)) /\
  ((forall dir, fileGraphOf dir <> None -> symbolGraphOf dir <> None) ->
   Api.coherent fileGraphOf symbolGraphOf st /\
   (forall sg, snd (serve st r) = Api.Symbols sg ->
               exists target,
                 Api.cachedTarget (fst (serve st r)) = Some target /\
                 symbolGraphOf target = Some sg) /\
   (snd (serve st r) = Api.Failed -> fst (serve st r) = st)) /\
  (exists (graphs : string -> option FileGraph)
          (symbols : string -> option SymbolGraph) requests target,
      Api.cachedTarget (Api.run w graphs symbols Api.start requests)
      = Some target /\
      Api.cachedSymbols (Api.run w graphs symbols Api.start requests)
      <> symbols target).
Proof.
  intros serve st.
  assert (Hkeep : Api.graphOfTarget fileGraphOf st /\
                  Api.symbolsOfSomeTarget symbolGraphOf st).
  { apply run_keeps. split; [reflexivity | intros s H; discriminate]. }
  split; [exact Hkeep|].
  split; [intros g; apply graph_reply; exact (proj1 Hkeep)|].
  split.
  { intros H. destruct (failed_reply w fileGraphOf symbolGraphOf st r H)
      as [H1 [H2 _]]. split; assumption. }
  split.
  { intros Hfollow.
    assert (Hst : Api.coherent fileGraphOf symbolGraphOf st).
    { apply run_coherent; [exact Hfollow | split; reflexivity]. }
    split; [exact Hst|]. split.
    - intros sg. now apply symbols_reply.
    - intros H. now apply (failed_reply w fileGraphOf symbolGraphOf st r H). }
  exists (fun _ => Some (mkFileGraph [] [] [] [])).
  exists (fun dir => if String.eqb dir (Path.resolve (cwd w) ["/a"])
                     then Some (mkSymbolGraph [] [] []) else None).
  exists [Api.PostAnalyze (Some "/a"); Api.PostAnalyze (Some "/b")].
  exists (Path.resolve (cwd w) ["/b"]).
  split; [reflexivity | cbv; discriminate].
Qed.

(* ------------------------------------------------------------------ *)
(** ** Resolved paths *)

Lemma split_chars_segment (c : ascii) (x : list ascii) :
  ~ In c x ->
  forall cur rest,
    Str.split_chars c cur (x ++ c :: rest)
    = Str.of_chars (rev cur ++ x) :: Str.split_chars c [] rest.
Proof.
  induction x as [|a x IH]; intros Hc cur rest; simpl.
  - rewrite Ascii.eqb_refl, app_nil_r. reflexivity.
  - destruct (Ascii.eqb_spec a c) as [->|Hne]; [exfalso; apply Hc; now left|].
    rewrite IH by (intros H; apply Hc; now right).
    simpl. now rewrite <- app_assoc.
Qed.

Lemma split_chars_last (c : ascii) (x : list ascii) :
  ~ In c x ->
  forall cur, Str.split_chars c cur x = [Str.of_chars (rev cur ++ x)].
Proof.
  induction x as [|a x IH]; intros Hc cur; simpl.
  - now rewrite app_nil_r.
  - destruct (Ascii.eqb_spec a c) as [->|Hne]; [exfalso; apply Hc; now left|].
    rewrite IH by (intros H; apply Hc; now right).
    simpl. now rewrite <- app_assoc.
Qed.

Lemma split_chars_no_sep (c : ascii) (l : list ascii) :
  forall cur s, ~ In c cur ->
                In s (Str.split_chars c cur l) -> ~ In c (Str.chars s).
Proof.
  induction l as [|a l IH]; intros cur s Hcur Hs; simpl in Hs.
  - destruct Hs as [<-|[]]. rewrite chars_of_chars. now rewrite <- in_rev.
  - destruct (Ascii.eqb_spec a c) as [->|Hne].
    + destruct Hs as [<-|Hs].
      * rewrite chars_of_chars. now rewrite <- in_rev.
      * apply (IH [] s); auto.
    + apply (IH (a :: cur) s); [|assumption].
      intros [H|H]; [congruence | auto].
Qed.

Lemma chars_join_cons (a b : string) (l : list string) :
  Str.chars (Str.join "/" (a :: b :: l))
  = (Str.chars a ++ Path.sep :: Str.chars (Str.join "/" (b :: l)))%list.
Proof.
  unfold Str.join. simpl. rewrite chars_append. simpl. reflexivity.
Qed.

Lemma split_join (l : list string) :
  Forall plainSegment l -> l <> [] ->
  forall cur,
    Str.split_chars Path.sep cur (Str.chars (Str.join "/" l))
    = match l with
      | a :: rest => Str.of_chars (rev cur ++ Str.chars a) :: rest
      | [] => []
      end.
Proof.
  induction l as [|a l IH]; intros Hl Hne cur; [congruence|].
  inversion Hl as [|? ? [_ [_ [_ Ha]]] Hl']; subst.
  destruct l as [|b l].
  - unfold Str.join. cbn [String.concat]. apply split_chars_last. exact Ha.
  - rewrite chars_join_cons, split_chars_segment by exact Ha.
    f_equal. rewrite IH by (assumption || discriminate).
    simpl. now rewrite of_chars_chars.
Qed.

Lemma normSegs_plain (above : bool) (l : list string) :
  Forall plainSegment l ->
  forall acc, Forall plainSegment acc ->
              Path.normSegs above acc l = (rev acc ++ l)%list.
Proof.
  induction l as [|s l IH]; intros Hl acc Hacc; simpl.
  - now rewrite app_nil_r.
  - inversion Hl as [|? ? Hs Hl']; subst.
    pose proof Hs as [H1 [H2 [H3 H4]]].
    apply String.eqb_neq in H1, H2, H3. rewrite H1, H2, H3. simpl.
    rewrite IH by (assumption || now constructor).
    simpl. now rewrite <- app_assoc.
Qed.

Lemma normSegs_false_plain (l : list string) :
  (forall s, In s l -> ~ In Path.sep (Str.chars s)) ->
  forall acc, Forall plainSegment acc ->
              Forall plainSegment (Path.normSegs false acc l).
Proof.
  induction l as [|s l IH]; intros Hl acc Hacc; simpl.
  - now apply Forall_rev.
  - assert (Hl' : forall s0, In s0 l -> ~ In Path.sep (Str.chars s0))
      by (intros; apply Hl; now right).
    destruct (String.eqb_spec s "") as [->|H1]; simpl; [now apply IH|].
    destruct (String.eqb_spec s ".") as [->|H2]; simpl; [now apply IH|].
    destruct (String.eqb_spec s "..") as [->|H3].
    + destruct acc as [|top acc]; [now apply IH|].
      inversion Hacc as [|? ? [_ [_ [Ht _]]] Hacc']; subst.
      apply String.eqb_neq in Ht. rewrite Ht. now apply IH.
    + apply IH; [assumption|]. constructor; [|assumption].
      repeat split; auto. apply Hl. now left.
Qed.

Lemma split_plain (p : string) :
  forall s, In s (Str.split Path.sep p) -> ~ In Path.sep (Str.chars s).
Proof. intros s. apply split_chars_no_sep. intros []. Qed.

Lemma split_chars_trailing (c : ascii) (l : list ascii) :
  forall cur,
    Str.split_chars c cur (l ++ [c])
    = (Str.split_chars c cur l ++ [""])%list.
Proof.
  induction l as [|a l IH]; intros cur; simpl.
  - rewrite Ascii.eqb_refl. reflexivity.
  - destruct (Ascii.eqb a c); simpl; now rewrite IH.
Qed.

Lemma split_lead (rest : list ascii) :
  Str.split_chars Path.sep [] (Path.sep :: rest)
  = "" :: Str.split_chars Path.sep [] rest.
Proof. reflexivity. Qed.

Lemma normSegs_trailing :
  forall rest acc,
    Forall plainSegment rest ->
    Path.normSegs false acc (rest ++ [""]) = Path.normSegs false acc rest.
Proof.
  induction rest as [|s rest IH]; intros acc Hrest; [reflexivity|].
  inversion Hrest as [|? ? [H1 [H2 [H3 _]]] Hr]; subst.
  apply String.eqb_neq in H1, H2, H3.
  simpl. rewrite H1, H2, H3. simpl. now apply IH.
Qed.

(** the segments of [/a/b/c], and of [/a/b/c/] *)
Lemma split_rooted (l : list string) :
  Forall plainSegment l ->
  Path.normSegs false [] (Str.split Path.sep ("/" ++ Str.join "/" l)) = l /\
  Path.normSegs false []
    (Str.split Path.sep (("/" ++ Str.join "/" l) ++ "/" ++ "")) = l.
Proof.
  intros Hl. unfold Str.split. rewrite !chars_append.
  change (Str.chars "/") with [Path.sep].
  change (Str.chars "") with (@nil ascii).
  change ([Path.sep] ++ Str.chars (Str.join "/" l))%list
    with (Path.sep :: Str.chars (Str.join "/" l)).
  change ((Path.sep :: Str.chars (Str.join "/" l)) ++ [Path.sep] ++ [])%list
    with (Path.sep :: (Str.chars (Str.join "/" l) ++ [Path.sep]))%list.
  rewrite !split_lead, split_chars_trailing.
  destruct l as [|a l].
  - split; reflexivity.
  - rewrite split_join by (assumption || discriminate).
    cbn [rev app]. rewrite of_chars_chars.
    change (Path.normSegs false [] ("" :: a :: l))
      with (Path.normSegs false [] (a :: l)).
    change (Path.normSegs false [] ("" :: a :: l ++ [""]))
      with (Path.normSegs false [] ((a :: l) ++ [""])).
    split.
    + now rewrite normSegs_plain by (assumption || constructor).
    + rewrite normSegs_trailing by assumption.
      now rewrite normSegs_plain by (assumption || constructor).
Qed.

Lemma append_assoc (a b c : string) : (a ++ b) ++ c = a ++ (b ++ c).
Proof. induction a as [|x a IH]; simpl; [reflexivity | now rewrite IH]. Qed.

Lemma append_empty (a : string) : a ++ "" = a.
Proof. induction a as [|x a IH]; simpl; [reflexivity | now rewrite IH]. Qed.

Lemma prefix_append (p x : string) : String.prefix p (p ++ x) = true.
Proof.
  induction p as [|a p IH]; simpl; [now destruct x|].
  destruct (ascii_dec a a); [exact IH | congruence].
Qed.

Lemma join_app (a c : list string) :
  exists x, Str.join "/" (a ++ c) = Str.join "/" a ++ x.
Proof.
  unfold Str.join. induction a as [|s a IH]; simpl.
  - eexists. reflexivity.
  - destruct a as [|s2 a]; simpl in *.
    + destruct c; [exists ""; symmetry; apply append_empty|eexists; reflexivity].
    + destruct IH as [x Hx]. exists x. rewrite Hx.
      now rewrite !append_assoc.
Qed.

Lemma segPrefix_app :
  forall a b, Server.segPrefix a b = true -> exists c, b = (a ++ c)%list.
Proof.
  induction a as [|x a IH]; intros b H; simpl in *.
  - exists b. reflexivity.
  - destruct b as [|y b]; [discriminate|].
    apply andb_true_iff in H as [Hx H]. apply String.eqb_eq in Hx. subst y.
    destruct (IH _ H) as [c ->]. exists c. reflexivity.
Qed.

Section Resolve.
Variable cwd0 : string.
Hypothesis cwd_absolute : Path.isAbsolute cwd0 = true.

Lemma resolveAcc_absolute :
  forall rargs acc, snd (Path.resolveAcc acc (rargs ++ [cwd0])) = true.
Proof.
  induction rargs as [|p rargs IH]; intros acc; simpl.
  - destruct (String.eqb_spec cwd0 "") as [E|E].
    + rewrite E in cwd_absolute. discriminate.
    + now rewrite cwd_absolute.
  - destruct (String.eqb p ""); [apply IH|].
    destruct (Path.isAbsolute p); [reflexivity | apply IH].
Qed.

Lemma resolve_form (args : list string) :
  exists l, Forall plainSegment l /\
            Path.resolve cwd0 args = "/" ++ Str.join "/" l.
Proof.
  unfold Path.resolve.
  pose proof (resolveAcc_absolute (rev args) "") as Habs.
  destruct (Path.resolveAcc "" (rev args ++ [cwd0])) as [p abs].
  simpl in Habs. subst abs. simpl.
  eexists. split; [|reflexivity].
  apply normSegs_false_plain; [apply split_plain | constructor].
Qed.

End Resolve.

Lemma resolve_rooted (cwd0 : string) (l : list string) :
  Forall plainSegment l ->
  Path.resolve cwd0 ["/" ++ Str.join "/" l] = "/" ++ Str.join "/" l.
Proof.
  intros Hl. unfold Path.resolve. cbn [rev app Path.resolveAcc].
  assert (E1 : String.eqb ("/" ++ Str.join "/" l) "" = false) by reflexivity.
  assert (E2 : Path.isAbsolute ("/" ++ Str.join "/" l) = true)
    by apply prefix_append.
  rewrite E1, E2. unfold Path.normalizeString. cbn [negb].
  now rewrite (proj2 (split_rooted l Hl)).
Qed.

Lemma segments_rooted (cwd0 : string) (l : list string) :
  Forall plainSegment l ->
  Path.segments cwd0 ("/" ++ Str.join "/" l) = l.
Proof.
  intros Hl. unfold Path.segments. rewrite resolve_rooted by assumption.
  apply (proj1 (split_rooted l Hl)).
Qed.

(** X17. In a process whose working directory is absolute, the file
    endpoint does not answer 403 for a path that lies inside the analysed
    directory. *)
Theorem file_endpoint_admits_paths_below_the_root (w : World)
  (target relPath : string) :
  Path.isAbsolute (cwd w) = true ->
  Server.insideRoot w target (Path.resolve (cwd w) [target; relPath]) = true ->
  Server.apiFile w (Some target) (Some relPath) <> Server.Forbidden.
Proof.
  intros Habs Hin. unfold Server.apiFile.
  destruct (negb (Str.truthy relPath)); [discriminate|].
  destruct (resolve_form (cwd w) Habs [target]) as [a [Ha Hroot]].
  destruct (resolve_form (cwd w) Habs [target; relPath]) as [b [Hb Hfull]].
  unfold Server.insideRoot in Hin. rewrite Hfull in Hin.
  rewrite (segments_rooted _ _ Hb) in Hin.
  unfold Path.segments in Hin. rewrite Hroot in Hin.
  rewrite (proj1 (split_rooted a Ha)) in Hin.
  apply segPrefix_app in Hin as [c ->].
  rewrite Hroot, Hfull.
  destruct (join_app a c) as [x ->].
  unfold Str.startsWith. rewrite <- append_assoc, prefix_append. simpl.
  destruct (readFileSync w _); discriminate.
Qed.

(** The same on a concrete run. *)
Lemma file_endpoint_admits_paths_below_the_root_witness :
  Path.isAbsolute (cwd Scenarios.serverWorld) = true /\
  Server.insideRoot Scenarios.serverWorld "/srv/app"
    (Path.resolve (cwd Scenarios.serverWorld) ["/srv/app"; "src/../lib/a.js"])
  = true /\
  Server.apiFile Scenarios.serverWorld (Some "/srv/app")
    (Some "src/../lib/a.js")
  <> Server.Forbidden.
Proof.
  assert (Ha : Path.isAbsolute (cwd Scenarios.serverWorld) = true)
    by reflexivity.
  assert (Hi : Server.insideRoot Scenarios.serverWorld "/srv/app"
                 (Path.resolve (cwd Scenarios.serverWorld)
                    ["/srv/app"; "src/../lib/a.js"]) = true)
    by (vm_compute; reflexivity).
  split; [exact Ha | split; [exact Hi |]].
  exact (file_endpoint_admits_paths_below_the_root _ _ _ Ha Hi).
Defined.

(* ------------------------------------------------------------------ *)
(** ** The search box *)

Lemma list_prefix_subsequence :
  forall q l, Str.list_prefix q l = true -> Subsequence q l.
Proof.
  induction q as [|c q IH]; intros l H; [constructor|].
  destruct l as [|x l]; [discriminate|]. simpl in H.
  apply andb_true_iff in H as [Hc H]. apply Ascii.eqb_eq in Hc. subst x.
  constructor. now apply IH.
Qed.

Lemma indexOf_subsequence :
  forall l q i j, View.indexOf q l i = Some j -> Subsequence q l.
Proof.
  induction l as [|x l IH]; intros q i j H; simpl in H.
  - destruct (Str.list_prefix q []) eqn:E; [|discriminate].
    now apply list_prefix_subsequence.
  - destruct (Str.list_prefix q (x :: l)) eqn:E.
    + now apply list_prefix_subsequence.
    + constructor. eapply IH. exact H.
Qed.

Lemma indexOf_empty (l : list ascii) (i : nat) : View.indexOf [] l i = Some i.
Proof. destruct l; reflexivity. Qed.

Lemma subsequence_tail c q l : Subsequence (c :: q) l -> Subsequence q l.
Proof.
  intros H. remember (c :: q) as cq eqn:E. revert c q E.
  induction H; intros c0 q0 E; try discriminate.
  - inversion E; subst. now constructor.
  - constructor. eapply IHSubsequence. exact E.
Qed.

Lemma fuzzyLoop_spec :
  forall l q score,
    (fst (View.fuzzyLoop l q score) = [] <-> Subsequence q l) /\
    (fst (View.fuzzyLoop l q score) = [] ->
     snd (View.fuzzyLoop l q score) = score + List.length q).
Proof.
  induction l as [|x l IH]; intros q score.
  - destruct q as [|c q]; simpl.
    + split; [split; [constructor | reflexivity] | intros; lia].
    + split; [split; [discriminate | intros H; inversion H] | discriminate].
  - destruct q as [|c q]; simpl.
    + split; [split; [constructor | reflexivity] | intros; lia].
    + destruct (Ascii.eqb_spec x c) as [->|Hne].
      * destruct (IH q (score + 1)) as [Hsub Hscore]. split.
        -- rewrite Hsub. split; [now constructor|].
           intros H. inversion H; subst; [assumption|].
           now apply subsequence_tail in H2.
        -- intros H. rewrite (Hscore H). lia.
      * destruct (IH (c :: q) score) as [Hsub Hscore]. split.
        -- rewrite Hsub. split; [now constructor|].
           intros H. inversion H; subst; [congruence | assumption].
        -- exact Hscore.
Qed.

(** X20. fuzzyMatch gives a positive score exactly when the query can
    be read off the text from left to right, both in lower case (these are
    the symbols the search box lists), and -1 exactly when it cannot. The
    score is 100, 80 or the length of the query. *)
Theorem fuzzy_match_accepts_the_subsequences (query text : string) :
  ((0 < View.fuzzyMatch query text)%Z <->
   Subsequence (View.toLowerCase query) (View.toLowerCase text)) /\
  (View.fuzzyMatch query text = (-1)%Z <->
   ~ Subsequence (View.toLowerCase query) (View.toLowerCase text)) /\
  (View.fuzzyMatch query text = 100%Z \/
   View.fuzzyMatch query text = 80%Z \/
   View.fuzzyMatch query text = Z.of_nat (String.length query) \/
   View.fuzzyMatch query text = (-1)%Z).
Proof.
  unfold View.fuzzyMatch.
  set (lower := View.toLowerCase text). set (q := View.toLowerCase query).
  assert (Hlen : List.length q = String.length query).
  { unfold q, View.toLowerCase. now rewrite length_map, length_chars. }
  destruct (View.indexOf q lower 0) as [[|i]|] eqn:Ei.
  - apply indexOf_subsequence in Ei.
    split; [split; [auto | lia]|]. split; [split; [lia | tauto]|]. auto.
  - apply indexOf_subsequence in Ei.
    split; [split; [auto | lia]|]. split; [split; [lia | tauto]|]. auto.
  - destruct (fuzzyLoop_spec lower q 0) as [Hsub Hscore].
    destruct (View.fuzzyLoop lower q 0) as [rest score] eqn:El. simpl in *.
    destruct rest as [|r rest].
    + specialize (Hscore eq_refl). subst score.
      assert (Hq : Subsequence q lower) by now apply Hsub.
      assert (Hpos : 0 < List.length q).
      { destruct q; [|simpl; lia].
        rewrite indexOf_empty in Ei. discriminate. }
      split; [split; [auto | lia]|]. split; [split; [lia | tauto]|].
      right. right. left. now rewrite Hlen.
    + assert (Hq : ~ Subsequence q lower).
      { intros H. apply Hsub in H. discriminate. }
      split; [split; [lia | tauto]|]. split; [split; [auto | reflexivity]|].
      auto.
Qed.

(* ------------------------------------------------------------------ *)
(** ** Escaping and colours *)

Lemma replaceAll_app c rep a b :
  View.replaceAll c rep (a ++ b)
  = (View.replaceAll c rep a ++ View.replaceAll c rep b)%list.
Proof. apply flat_map_app. Qed.

Lemma escape_one (c : ascii) :
  View.replaceAll ">" "&gt;"
    (View.replaceAll "<" "&lt;" (View.replaceAll "&" "&amp;" [c]))
  = entityOf c.
Proof.
  unfold entityOf, View.replaceAll.
  destruct (Ascii.eqb_spec c "&") as [->|H1]; [reflexivity|].
  destruct (Ascii.eqb_spec c "<") as [->|H2]; [reflexivity|].
  destruct (Ascii.eqb_spec c ">") as [->|H3]; [reflexivity|].
  apply Ascii.eqb_neq in H1, H2, H3.
  simpl. rewrite H1. simpl. rewrite H2. simpl. rewrite H3. reflexivity.
Qed.

Lemma escapeHtml_entities (str : string) :
  Str.chars (View.escapeHtml str) = flat_map entityOf (Str.chars str).
Proof.
  unfold View.escapeHtml. rewrite chars_of_chars.
  induction (Str.chars str) as [|c l IH]; [reflexivity|].
  change (c :: l) with ([c] ++ l)%list.
  rewrite !replaceAll_app, escape_one, IH. reflexivity.
Qed.

Lemma entityOf_plain (c x : ascii) :
  In x (entityOf c) -> x <> "<"%char /\ x <> ">"%char.
Proof.
  unfold entityOf.
  destruct (Ascii.eqb_spec c "&"); [|destruct (Ascii.eqb_spec c "<");
    [|destruct (Ascii.eqb_spec c ">")]]; simpl; intros H;
    repeat (destruct H as [H|H]; [subst; split; congruence|]);
    try destruct H.
Qed.

Lemma entityOf_prefix_free (c d : ascii) (a b : list ascii) :
  (entityOf c ++ a)%list = (entityOf d ++ b)%list -> c = d /\ a = b.
Proof.
  unfold entityOf.
  destruct (Ascii.eqb_spec c "&") as [->|C1];
    [|destruct (Ascii.eqb_spec c "<") as [->|C2];
      [|destruct (Ascii.eqb_spec c ">") as [->|C3]]];
    (destruct (Ascii.eqb_spec d "&") as [->|D1];
     [|destruct (Ascii.eqb_spec d "<") as [->|D2];
       [|destruct (Ascii.eqb_spec d ">") as [->|D3]]]);
    simpl; intros H; inversion H; subst; try congruence; auto.
Qed.

Lemma entities_injective :
  forall a b, flat_map entityOf a = flat_map entityOf b -> a = b.
Proof.
  induction a as [|c a IH]; intros b H.
  - destruct b as [|d b]; [reflexivity|]. simpl in H.
    unfold entityOf in H.
    destruct (Ascii.eqb d "&"); [discriminate|].
    destruct (Ascii.eqb d "<"); [discriminate|].
    destruct (Ascii.eqb d ">"); discriminate.
  - destruct b as [|d b].
    + simpl in H. unfold entityOf in H.
      destruct (Ascii.eqb c "&"); [discriminate|].
      destruct (Ascii.eqb c "<"); [discriminate|].
      destruct (Ascii.eqb c ">"); discriminate.
    + simpl in H. apply entityOf_prefix_free in H as [-> H].
      f_equal. now apply IH.
Qed.

Lemma chars_injective (a b : string) : Str.chars a = Str.chars b -> a = b.
Proof.
  intros H. rewrite <- (of_chars_chars a), <- (of_chars_chars b).
  now rewrite H.
Qed.

(** X21. The text escapeHtml returns holds neither < nor >; two texts
    with the same result are the same text; a text without &, < and > is
    returned as it is. *)
Theorem escaped_text_is_inert_and_faithful :
  (forall str,
      ~ In "<"%char (Str.chars (View.escapeHtml str)) /\
      ~ In ">"%char (Str.chars (View.escapeHtml str))) /\
  (forall a b, View.escapeHtml a = View.escapeHtml b -> a = b) /\
  (forall str,
      ~ In "&"%char (Str.chars str) -> ~ In "<"%char (Str.chars str) ->
      ~ In ">"%char (Str.chars str) -> View.escapeHtml str = str).
Proof.
  split; [|split].
  - intros str. rewrite escapeHtml_entities.
    split; intros H; apply in_flat_map in H as [c [_ H]];
      apply entityOf_plain in H; tauto.
  - intros a b H. apply chars_injective, entities_injective.
    now rewrite <- !escapeHtml_entities, H.
  - intros str H1 H2 H3. apply chars_injective.
    rewrite escapeHtml_entities.
    induction (Str.chars str) as [|c l IH]; [reflexivity|].
    simpl in *. rewrite IH by tauto.
    unfold entityOf.
    destruct (Ascii.eqb_spec c "&") as [->|_]; [tauto|].
    destruct (Ascii.eqb_spec c "<") as [->|_]; [tauto|].
    destruct (Ascii.eqb_spec c ">") as [->|_]; [tauto|].
    reflexivity.
Qed.

Lemma toInt32_range (x : Z) :
  (-2147483648 <= View.toInt32 x < 2147483648)%Z.
Proof.
  unfold View.toInt32.
  pose proof (Z.mod_pos_bound (x + 2147483648) 4294967296 ltac:(lia)). lia.
Qed.

Lemma folderHash_range (folder : string) :
  (-2147483648 <= View.folderHash folder < 2147483648)%Z.
Proof.
  unfold View.folderHash.
  apply (fold_left_invariant
           (fun h => (-2147483648 <= h < 2147483648)%Z)); [lia|].
  intros h c _ _. apply toInt32_range.
Qed.

(** X19. The hash of folderColor stays a signed 32-bit integer, and
    every folder gets one of the ten colours: the result is never
    undefined. *)
Theorem every_folder_has_a_colour (folder : string) :
  (-2147483648 <= View.folderHash folder < 2147483648)%Z /\
  exists colour,
    View.folderColor folder = Some colour /\ In colour View.FOLDER_COLORS.
Proof.
  split; [apply folderHash_range|].
  unfold View.folderColor.
  set (i := Z.to_nat (Z.abs (View.folderHash folder)
                      mod Z.of_nat (List.length View.FOLDER_COLORS))).
  assert (Hi : i < List.length View.FOLDER_COLORS).
  { unfold i. simpl List.length.
    pose proof (Z.mod_pos_bound (Z.abs (View.folderHash folder)) 10
                  ltac:(lia)).
    change (Z.of_nat 10) with 10%Z. lia. }
  destruct (nth_error View.FOLDER_COLORS i) as [c|] eqn:E.
  - exists c. split; [reflexivity|]. eapply nth_error_In. exact E.
  - apply nth_error_None in E. lia.
Qed.

(* ------------------------------------------------------------------ *)
(** ** The filters of the galaxy *)

Lemma filter_idempotent {A} (f : A -> bool) (l : list A) :
  filter f (filter f l) = filter f l.
Proof.
  induction l as [|a l IH]; simpl; [reflexivity|].
  destruct (f a) eqn:E; simpl; [rewrite E, IH; reflexivity | exact IH].
Qed.

Lemma filter_all {A} (f : A -> bool) (l : list A) :
  (forall a, In a l -> f a = true) -> filter f l = l.
Proof.
  induction l as [|a l IH]; simpl; intros H; [reflexivity|].
  rewrite H by now left. rewrite IH; [reflexivity|]. intros; apply H; now right.
Qed.

Lemma run_edge_endpoints w rootDir g e :
  analyzeCodebase w rootDir = Some g ->
  In e (g_edges g) ->
  In (fe_source e) (scannedFiles w rootDir) /\
  knownFile w rootDir (fe_target e) = true.
Proof.
  intros Hrun He.
  destruct (run_edges _ _ _ Hrun)
    as [fd [em1 [em2 [Hfd [H1 [H2 [Hedges [Hnd Hkey]]]]]]]].
  rewrite Hedges in He. apply In_values_entry in He as [k He].
  apply (edgeMap_entries (scannedFiles w rootDir) fd
           (fun _ e => In (fe_source e) (scannedFiles w rootDir) /\
                       knownFile w rootDir (fe_target e) = true))
    with (em1 := em1) (em2 := em2) (k := k); try assumption.
  - intros k0 e0 weight refs H. exact H.
  - intros file data imp Hfile Hdata Himp _ Htruthy. simpl.
    split; [assumption|]. now rewrite <- (run_truthyAt w rootDir fd Hfd).
  - intros file data refs t Hfile Hdata Hrefs Hin Htruthy. simpl.
    split; [assumption|]. now rewrite <- (run_truthyAt w rootDir fd Hfd).
Qed.

(** X18. applyFilters keeps a closed graph: every edge it keeps is an
    edge of the data, joins two nodes it keeps and weighs at least the
    threshold. Filtering the result again changes nothing. With no filter
    set, the result on a graph of analyzeCodebase holds every node, and
    every edge whose target is not a name that every object inherits. *)
Theorem filtered_graph_is_closed_and_stable :
  (forall data filters e,
      In e (snd (View.applyFilters data filters)) ->
      In e (g_edges data) /\
      In (fe_source e) (map n_id (fst (View.applyFilters data filters))) /\
      In (fe_target e) (map n_id (fst (View.applyFilters data filters))) /\
      View.f_minWeight filters <= fe_weight e) /\
  (forall data filters,
      View.applyFilters
        (mkFileGraph (fst (View.applyFilters data filters))
           (snd (View.applyFilters data filters))
           (g_folders data) (g_extensions data))
        filters
      = View.applyFilters data filters) /\
  (forall w rootDir g,
      analyzeCodebase w rootDir = Some g ->
      fst (View.applyFilters g noFilters) = g_nodes g /\
      forall e, In e (g_edges g) ->
                ~ In (fe_target e) JsObj.prototype_names ->
                In e (snd (View.applyFilters g noFilters))).
Proof.
  split; [|split].
  - intros data filters e He. unfold View.applyFilters in *. simpl in *.
    apply filter_In in He as [He Hf]. split; [assumption|].
    destruct (negb (Str.mem (fe_source e) _) || negb (Str.mem (fe_target e) _))
      eqn:E; [discriminate|].
    apply orb_false_iff in E as [Es Et].
    apply negb_false_iff in Es, Et. apply mem_In in Es, Et.
    destruct (Nat.ltb_spec (fe_weight e) (View.f_minWeight filters));
      [discriminate|]. auto.
  - intros data filters. unfold View.applyFilters. simpl.
    rewrite !filter_idempotent. reflexivity.
  - intros w rootDir g Hrun.
    assert (Hnodes : fst (View.applyFilters g noFilters) = g_nodes g).
    { unfold View.applyFilters. simpl. now apply filter_all. }
    split; [exact Hnodes|]. intros e He Hproto.
    unfold View.applyFilters in *. simpl in *. rewrite Hnodes.
    apply filter_In. split; [assumption|].
    destruct (run_edge_endpoints _ _ _ _ Hrun He) as [Hs Ht].
    destruct (analyzeCodebase_shape _ _ _ Hrun) as [fd [Hfd Hbuild]].
    destruct (buildGraph_shape _ _ _ Hbuild)
      as [nodes0 [em1 [em2 [_ [_ [_ [_ [Hids _]]]]]]]].
    rewrite Hids.
    unfold knownFile in Ht. apply orb_true_iff in Ht as [Ht|Ht];
      [|apply mem_In in Ht; contradiction].
    apply mem_In in Hs. rewrite Hs, Ht. reflexivity.
Qed.

(* ------------------------------------------------------------------ *)
(** ** Conditions of the symbol edges *)

Lemma grows_refl h : grows h h.
Proof. split; auto. Qed.

Lemma grows_trans h1 h2 h3 : grows h1 h2 -> grows h2 h3 -> grows h1 h3.
Proof.
  intros [L1 N1] [L2 N2]. split; [lia|].
  intros r Hr Hn. apply N2; [lia|]. now apply N1.
Qed.

Lemma grows_app (h x : Store) : grows h (h ++ x)%list.
Proof.
  split; [rewrite length_app; lia|].
  intros r Hr Hn. now rewrite app_nth1.
Qed.

Lemma soundEdge_grows h h' e : grows h h' -> soundEdge h e -> soundEdge h' e.
Proof.
  intros [L N] [Ht Hr]. split; [assumption|].
  intros r Hc. destruct (Hr r Hc) as [H1 H2]. split; [lia | now apply N].
Qed.

Lemma soundConditions_nil : soundConditions [].
Proof. split; [constructor | intros c []]. Qed.

Lemma soundStore_app (h x : Store) :
  soundStore h -> Forall soundConditions x -> soundStore (h ++ x)%list.
Proof.
  intros Hh Hx r. destruct (Nat.lt_ge_cases r (List.length h)) as [H|H].
  - rewrite app_nth1 by assumption. apply Hh.
  - rewrite app_nth2 by assumption.
    destruct (Nat.lt_ge_cases (r - List.length h) (List.length x)) as [H'|H'].
    + rewrite Forall_forall in Hx. apply Hx. now apply nth_In.
    + rewrite nth_overflow by assumption. apply soundConditions_nil.
Qed.

(* the conditions of a call fact *)

Lemma branch_names (call scope : node) :
  In (ifBranch call scope) ["if"; "else"; "?"; ":"] /\
  In (ternaryBranch call scope) ["if"; "else"; "?"; ":"].
Proof.
  unfold ifBranch, ternaryBranch.
  destruct (field "alternate" scope); [|simpl; auto].
  split.
  - destruct (_ && _); simpl; auto.
  - destruct (Nat.leb _ _); simpl; auto 6.
Qed.

Lemma enclosingFrom_branches (call : node) (sourceCode : string) :
  forall chain c,
    In c (enclosingFrom call sourceCode chain) ->
    In (c_branch c) ["if"; "else"; "?"; ":"].
Proof.
  induction chain as [|scope chain IH]; intros c H; [destruct H|].
  destruct chain as [|outer rest]; [destruct H|].
  cbn [enclosingFrom] in H.
  assert (Hcont : In c (if isFunctionBoundary scope then []
                        else enclosingFrom call sourceCode (outer :: rest)) ->
                  In (c_branch c) ["if"; "else"; "?"; ":"]).
  { destruct (isFunctionBoundary scope); [intros [] | apply IH]. }
  destruct (isType "IfStatement" scope).
  - destruct (condTextOf scope sourceCode); [|auto].
    destruct H as [<-|[]]. apply branch_names.
  - destruct (isType "ConditionalExpression" scope); [|auto].
    destruct (condTextOf scope sourceCode); [|auto].
    destruct H as [<-|[]]. apply branch_names.
Qed.

Lemma getEnclosingConditions_sound (p : NodePath) (sourceCode : string) :
  soundConditions (getEnclosingConditions p sourceCode).
Proof.
  unfold getEnclosingConditions.
  destruct (enclosingFrom_one_bounded (p_node p) sourceCode (p_ancestors p))
    as [Hlen Hb].
  split.
  - destruct (enclosingFrom _ _ _) as [|c [|c' l]]; simpl in Hlen.
    + constructor.
    + constructor; [intros [] | constructor].
    + lia.
  - intros c Hc. destruct (Hb c Hc) as [H1 H2].
    repeat split; try assumption.
    exact (enclosingFrom_branches _ _ _ _ Hc).
Qed.

Lemma callsAt_conditions (sourceCode : string) (p : NodePath) (c : Call) :
  In c (callsAt sourceCode p) ->
  k_conditions c = getEnclosingConditions p sourceCode.
Proof.
  unfold callsAt. intros H.
  destruct (isType "CallExpression" (p_node p)); [|destruct H].
  destruct (match field "callee" (p_node p) with
            | Some c0 => _ | None => _ end) as [calledName objectName].
  destruct calledName as [called|]; [|destruct H].
  destruct (negb (Str.truthy called) || String.eqb called "require");
    [destruct H|].
  destruct (findCaller _) as [caller|]; [|destruct H].
  destruct H as [<-|[]]. reflexivity.
Qed.

Lemma extracted_calls_sound ast filePath relFile sourceCode c :
  In c (snd (extractSymbols ast filePath relFile sourceCode)) ->
  soundConditions (k_conditions c).
Proof.
  unfold extractSymbols. simpl. intros H.
  apply in_flat_map in H as [p [_ H]].
  rewrite (callsAt_conditions _ _ _ H). apply getEnclosingConditions_sound.
Qed.

(* facts and their arrays *)

Lemma adopt_spec :
  forall calls h facts h',
    adopt calls h = Some (facts, h') ->
    h' = (h ++ map k_conditions calls)%list /\
    forall cf, In cf facts ->
               In (cf_call cf) calls /\
               cf_conditions cf < List.length h' /\
               nth (cf_conditions cf) h' [] = k_conditions (cf_call cf).
Proof.
  induction calls as [|c calls IH]; intros h facts h' H; simpl in H.
  - apply ret_Some in H as [-> ->]. rewrite app_nil_r.
    split; [reflexivity | intros cf []].
  - apply bindS_Some in H as [r [h1 [Ha H]]].
    unfold alloc in Ha. inversion Ha; subst r h1; clear Ha.
    apply bindS_Some in H as [rest [h2 [Hr H]]].
    apply ret_Some in H as [-> ->].
    destruct (IH _ _ _ Hr) as [-> Hfacts].
    split; [now rewrite <- app_assoc|].
    intros cf [<-|Hcf]; simpl.
    + split; [now left|]. rewrite <- app_assoc. split.
      * rewrite length_app. simpl. lia.
      * rewrite app_nth2 by lia. now rewrite Nat.sub_diag.
    + destruct (Hfacts cf Hcf) as [H1 [H2 H3]]. auto.
Qed.

Lemma condsOf_Some cf r :
  condsOf cf = Some r ->
  r = cf_conditions cf /\ k_conditions (cf_call cf) <> [].
Proof.
  unfold condsOf. destruct (k_conditions (cf_call cf)); simpl; intros H.
  - discriminate.
  - inversion H. split; [reflexivity | discriminate].
Qed.

Lemma fact_edge_sound h cf e :
  cf_conditions cf < List.length h ->
  nth (cf_conditions cf) h [] = k_conditions (cf_call cf) ->
  re_type e = "calls" ->
  re_conditions e = condsOf cf ->
  soundEdge h e.
Proof.
  intros Hlt Hnth Ht Hc. split; [now left|].
  intros r Hr. rewrite Hc in Hr. apply condsOf_Some in Hr as [-> Hne].
  split; [assumption | now rewrite Hnth].
Qed.

Lemma intraFileEdge_shape symbols cf e :
  In e (intraFileEdge symbols cf) ->
  re_type e = "calls" /\ re_conditions e = condsOf cf.
Proof.
  unfold intraFileEdge. intros H.
  destruct (mapGet _ (k_caller (cf_call cf))) as [callerId|]; [|destruct H].
  destruct (negb (Str.truthy callerId)); [destruct H|].
  match type of H with
  | In _ (match ?x with _ => _ end) => destruct x as [i|]; [|destruct H]
  end.
  destruct (_ && _); [|destruct H].
  destruct H as [<-|[]]. auto.
Qed.

Lemma importEdgesOf_shape symbolByFile file imports e :
  In e (importEdgesOf symbolByFile file imports) ->
  re_type e = "imports" /\ re_conditions e = None.
Proof.
  unfold importEdgesOf. intros H. apply in_flat_map in H as [imp [_ H]].
  destruct (lookupOf _ _); [|destruct H].
  destruct (firstId _ _); [|destruct H].
  destruct H as [<-|[]]. auto.
Qed.

Lemma crossFileEdges_shape symbolByFile file localImportMap cf e :
  In e (crossFileEdges symbolByFile file localImportMap cf) ->
  re_type e = "calls" /\ re_conditions e = condsOf cf.
Proof.
  unfold crossFileEdges. intros H.
  destruct (lookupOf symbolByFile file) as [callerSymbols|]; [|destruct H].
  destruct (firstId callerSymbols _) as [callerId|]; [|destruct H].
  assert (Hvia : forall imp names,
             In e (match lookupOf symbolByFile (ir_fromFile imp) with
                   | None => []
                   | Some targetLookup =>
                       match firstId targetLookup names with
                       | Some targetId =>
                           [mkRawEdge callerId targetId "calls" (condsOf cf)]
                       | None => []
                       end
                   end) ->
             re_type e = "calls" /\ re_conditions e = condsOf cf).
  { intros imp names Hin.
    destruct (lookupOf symbolByFile (ir_fromFile imp)); [|destruct Hin].
    destruct (firstId _ names); [|destruct Hin].
    destruct Hin as [<-|[]]. auto. }
  destruct (importMapGet localImportMap (k_callee (cf_call cf))) as [imp| |].
  - eapply Hvia. exact H.
  - destruct H.
  - destruct (k_objectName (cf_call cf)) as [objectName|]; [|destruct H].
    destruct (negb (Str.truthy objectName)); [destruct H|].
    destruct (importMapGet localImportMap objectName) as [imp| |].
    + eapply Hvia. exact H.
    + destruct H.
    + apply in_flat_map in H as [targetFile [_ H]].
      destruct (JsObj.own symbolByFile targetFile); [|destruct H].
      apply in_flat_map in H as [symName [_ H]].
      destruct (_ && _); [|destruct H].
      destruct (JsObj.own _ symName); [|destruct H].
      destruct (_ && _); [|destruct H].
      destruct H as [<-|[]]. auto.
Qed.

Lemma adopted_facts_sound ast filePath relFile sourceCode h facts h' edges :
  adopt (snd (extractSymbols ast filePath relFile sourceCode)) h
  = Some (facts, h') ->
  soundEdges h edges ->
  soundEdges h' edges /\
  forall cf e, In cf facts -> re_type e = "calls" ->
               re_conditions e = condsOf cf -> soundEdge h' e.
Proof.
  intros Ha [Hs He]. destruct (adopt_spec _ _ _ _ Ha) as [-> Hfacts].
  split; [split|].
  - apply soundStore_app; [assumption|].
    apply Forall_forall. intros cs Hcs. apply in_map_iff in Hcs as [c [<- Hc]].
    now apply (extracted_calls_sound ast filePath relFile sourceCode).
  - intros e Hin. apply (soundEdge_grows h); [apply grows_app | now apply He].
  - intros cf e Hcf Ht Hc. destruct (Hfacts cf Hcf) as [_ [H1 H2]].
    now apply (fact_edge_sound _ cf).
Qed.

Lemma firstPassSymbols_sound w rootDir acc file h acc' h' :
  firstPassSymbols w rootDir acc file h = Some (acc', h') ->
  soundEdges h (allEdges acc) -> soundEdges h' (allEdges acc').
Proof.
  unfold firstPassSymbols. intros H Hacc.
  apply bindS_Some in H as [ast [h0 [Hp H]]].
  apply lift_Some in Hp as [_ ->].
  destruct ast as [ast|]; [|apply ret_Some in H as [-> ->]; exact Hacc].
  apply bindS_Some in H as [src [h0 [Hr H]]].
  apply lift_Some in Hr as [_ ->].
  destruct (extractSymbols ast (Path.join rootDir file) file src)
    as [symbols calls] eqn:Ex.
  apply bindS_Some in H as [facts [h1 [Ha H]]].
  apply ret_Some in H as [-> ->]. simpl.
  assert (Hcalls : calls
                   = snd (extractSymbols ast (Path.join rootDir file) file src))
    by now rewrite Ex.
  rewrite Hcalls in Ha.
  destruct (adopted_facts_sound _ _ _ _ _ _ _ _ Ha Hacc) as [[Hs He] Hnew].
  split; [assumption|].
  intros e Hin. apply in_app_or in Hin as [Hin|Hin]; [now apply He|].
  apply in_flat_map in Hin as [cf [Hcf Hin]].
  apply intraFileEdge_shape in Hin as [Ht Hc]. now apply (Hnew cf).
Qed.

Lemma secondPassSymbols_sound w rootDir imports idx edges file h edges' h' :
  secondPassSymbols w rootDir imports idx edges file h = Some (edges', h') ->
  soundEdges h edges -> soundEdges h' edges'.
Proof.
  unfold secondPassSymbols. intros H [Hs He].
  assert (Hacc : soundEdges h
                   (edges ++ importEdgesOf idx file
                               match JsObj.own imports file with
                               | Some l => l | None => [] end)%list).
  { split; [assumption|]. intros e Hin.
    apply in_app_or in Hin as [Hin|Hin]; [now apply He|].
    apply importEdgesOf_shape in Hin as [Ht Hc].
    split; [now right|]. intros r Hr. congruence. }
  apply bindS_Some in H as [ast [h0 [Hp H]]].
  apply lift_Some in Hp as [_ ->].
  destruct ast as [ast|]; [|apply ret_Some in H as [-> ->]; exact Hacc].
  apply bindS_Some in H as [src [h0 [Hr H]]].
  apply lift_Some in Hr as [_ ->].
  destruct (extractSymbols ast (Path.join rootDir file) file src)
    as [symbols calls] eqn:Ex.
  apply bindS_Some in H as [facts [h1 [Ha H]]].
  apply ret_Some in H as [-> ->].
  assert (Hcalls : calls
                   = snd (extractSymbols ast (Path.join rootDir file) file src))
    by now rewrite Ex.
  rewrite Hcalls in Ha.
  destruct (adopted_facts_sound _ _ _ _ _ _ _ _ Ha Hacc) as [[Hs' He'] Hnew].
  split; [assumption|].
  intros e Hin. apply in_app_or in Hin as [Hin|Hin]; [now apply He'|].
  apply in_flat_map in Hin as [cf [Hcf Hin]].
  apply crossFileEdges_shape in Hin as [Ht Hc]. now apply (Hnew cf).
Qed.

Lemma soundStore_empty : soundStore [].
Proof. intros r. destruct r; apply soundConditions_nil. Qed.

Lemma collectRun_sound w rootDir symbols edges files h :
  collectRun w rootDir [] = Some ((symbols, edges, files), h) ->
  soundEdges h edges.
Proof.
  unfold collectRun. intros H.
  apply bindS_Some in H as [p1 [h1 [H1 H]]].
  apply bindS_Some in H as [edges1 [h2 [H2 H]]].
  apply ret_Some in H as [H ->]. inversion H; subst; clear H.
  apply (foldS_invariant (fun e h => soundEdges h e)
           (secondPassSymbols w rootDir (fileImports p1)
              (indexSymbols (allSymbols p1)))
           _ _ _ _ _) with (3 := H2).
  - apply (foldS_invariant (fun p h => soundEdges h (allEdges p))
             (firstPassSymbols w rootDir) _ _ _ _ _) with (3 := H1).
    + split; [apply soundStore_empty | intros e []].
    + intros s0 h0 a s1 h3 _ Hs Hstep.
      exact (firstPassSymbols_sound _ _ _ _ _ _ _ Hstep Hs).
  - intros s0 h0 a s1 h3 _ Hs Hstep.
    exact (secondPassSymbols_sound _ _ _ _ _ _ _ _ _ Hstep Hs).
Qed.

Lemma sameCondition_iff (a b : Condition) : sameCondition a b = true <-> a = b.
Proof.
  split.
  - intros H. apply sameCondition_eq in H as [H1 H2].
    destruct a, b. simpl in *. congruence.
  - intros ->. apply sameCondition_refl.
Qed.

Lemma hasCondition_In (l : list Condition) (c : Condition) :
  hasCondition l c = true <-> In c l.
Proof.
  unfold hasCondition. rewrite existsb_exists. split.
  - intros [x [Hx Hs]]. apply sameCondition_iff in Hs. now subst.
  - intros H. exists c. split; [assumption | apply sameCondition_refl].
Qed.

Lemma mergeConditions_sound (incoming : list Condition) :
  forall existing,
    soundConditions existing -> soundConditions incoming ->
    soundConditions (mergeConditions existing incoming) /\
    (existing <> [] \/ incoming <> [] ->
     mergeConditions existing incoming <> []).
Proof.
  unfold mergeConditions.
  induction incoming as [|c cs IH]; intros existing He Hi; simpl.
  - split; [assumption|]. intros [H|H]; congruence.
  - assert (Hcs : soundConditions cs).
    { destruct Hi as [Hn Hw]. inversion Hn; subst.
      split; [assumption|]. intros x Hx. apply Hw. now right. }
    destruct (hasCondition existing c) eqn:E.
    + destruct (IH existing He Hcs) as [Hs Hne]. split; [assumption|].
      intros _. apply Hne. left. apply hasCondition_In in E.
      intros ->. destruct E.
    + assert (He' : soundConditions (existing ++ [c])%list).
      { destruct He as [Hn Hw]. split.
        - apply NoDup_app; [assumption | constructor; [intros []|constructor]|].
          intros x Hx [<-|[]]. apply hasCondition_In in Hx. congruence.
        - intros x Hx. apply in_app_or in Hx as [Hx|[<-|[]]]; [now apply Hw|].
          apply (proj2 Hi). now left. }
      destruct (IH _ He' Hcs) as [Hs Hne]. split; [assumption|].
      intros _. apply Hne. left. destruct existing; discriminate.
Qed.

Lemma rev_chars_rawKey (e : RawEdge) :
  rev (Str.chars (rawKey e))
  = (rev (Str.chars (re_type e)) ++ "|"%char
       :: rev (Str.chars (re_source e ++ "|" ++ re_target e)))%list.
Proof.
  unfold rawKey.
  replace (re_source e ++ "|" ++ re_target e ++ "|" ++ re_type e)
    with ((re_source e ++ "|" ++ re_target e) ++ "|" ++ re_type e)
    by (now rewrite !append_assoc).
  rewrite !chars_append, !rev_app_distr. simpl.
  now rewrite <- app_assoc.
Qed.

Lemma rawKey_kind (e1 e2 : RawEdge) :
  rawKey e1 = rawKey e2 ->
  re_type e1 = "calls" -> re_type e2 = "imports" -> False.
Proof.
  intros Hk H1 H2.
  pose proof (rev_chars_rawKey e1) as R1.
  pose proof (rev_chars_rawKey e2) as R2.
  rewrite Hk, H1 in R1. rewrite H2 in R2. rewrite R1 in R2.
  simpl in R2. discriminate.
Qed.

Lemma dedupStep_sound emitted em edge h em' h' :
  In edge emitted ->
  soundMap emitted em h ->
  dedupStep em edge h = Some (em', h') ->
  soundMap emitted em' h'.
Proof.
  intros Hin [Hs [Hemit Hmap]] H. unfold dedupStep in H.
  destruct (JsObj.own em (rawKey edge)) as [existing|] eqn:Eo.
  2:{ apply ret_Some in H as [-> ->]. split; [assumption|]. split; [assumption|].
      intros k e Hke. apply DictFacts.In_put in Hke as [[-> ->]|Hke];
        [split; [now apply Hemit | reflexivity] | now apply Hmap]. }
  destruct (re_conditions edge) as [r|] eqn:Er.
  2:{ apply ret_Some in H as [-> ->]. split; [assumption|]. split; assumption. }
  apply DictFacts.own_In in Eo.
  destruct (Hmap _ _ Eo) as [[Hkind Hex] Hkey].
  destruct (Hemit _ Hin) as [Hekind Hedge].
  destruct (Hedge r Er) as [Hr Hrne].
  assert (Hcalls : re_type existing = "calls").
  { destruct Hkind as [Hc|[Hi _]]; [assumption|].
    destruct Hekind as [Hc|[_ Hn]]; [|congruence].
    exfalso. exact (rawKey_kind _ _ Hkey Hc Hi). }
  apply bindS_Some in H as [target [h1 [Ht H]]].
  assert (Hh1 : soundStore h1 /\ grows h h1 /\ target < List.length h1 /\
                (re_conditions existing = None -> nth target h1 [] = []) /\
                (re_conditions existing <> None -> nth target h1 [] <> [])).
  { destruct (re_conditions existing) as [r'|] eqn:Ec.
    - apply ret_Some in Ht as [-> ->].
      destruct (Hex r' eq_refl) as [H1 H2].
      split; [assumption|]. split; [apply grows_refl|].
      split; [assumption|]. split; [discriminate | intros _; assumption].
    - unfold alloc in Ht. inversion Ht; subst target h1; clear Ht.
      split; [|split; [apply grows_app|split; [|split]]].
      + apply soundStore_app; [assumption|].
        constructor; [apply soundConditions_nil | constructor].
      + rewrite length_app. simpl. lia.
      + intros _. rewrite app_nth2 by lia. now rewrite Nat.sub_diag.
      + congruence. }
  destruct Hh1 as [Hs1 [Hg1 [Htl [Hnone Hsome]]]].
  apply bindS_Some in H as [cs [h2 [Hread H]]].
  unfold readArr in Hread. inversion Hread; subst cs h2; clear Hread.
  apply bindS_Some in H as [u [h2 [Hpush H]]]. destruct u.
  apply ret_Some in H as [-> ->].
  destruct (pushAll_merges target _ _ _ Htl Hpush) as [Hnt [Hother Hlen]].
  assert (Hcs : nth r h1 [] <> []).
  { apply (proj2 Hg1); assumption. }
  destruct (mergeConditions_sound (nth r h1 []) (nth target h1 [])
              (Hs1 target) (Hs1 r)) as [Hms Hmne].
  assert (Hs2 : soundStore h2).
  { intros r0. destruct (Nat.eq_dec r0 target) as [->|Hne].
    - now rewrite Hnt.
    - rewrite (Hother r0 Hne). apply Hs1. }
  assert (Hg2 : grows h h2).
  { apply (grows_trans h h1 h2); [assumption|]. split; [lia|].
    intros r0 Hr0 Hn. destruct (Nat.eq_dec r0 target) as [->|Hne].
    - rewrite Hnt. apply Hmne. now left.
    - now rewrite (Hother r0 Hne). }
  split; [assumption|]. split.
  - intros e He. apply (soundEdge_grows h); [assumption | now apply Hemit].
  - intros k e Hke. apply DictFacts.In_put in Hke as [[-> ->]|Hke].
    + split; [|exact Hkey]. split; [now left|]. simpl.
      intros r0 Hr0. inversion Hr0; subst r0. split; [lia|].
      rewrite Hnt. apply Hmne. now right.
    + destruct (Hmap _ _ Hke) as [He Hk]. split; [|assumption].
      now apply (soundEdge_grows h).
Qed.

Lemma dedupEdges_sound emitted h deduped h' :
  soundEdges h emitted ->
  dedupEdges emitted h = Some (deduped, h') ->
  soundEdges h' deduped.
Proof.
  intros [Hs He] H. unfold dedupEdges in H.
  apply bindS_Some in H as [em [h1 [Hf H]]].
  apply ret_Some in H as [-> ->].
  assert (Hm : soundMap emitted em h1).
  { apply (foldS_invariant (fun m h0 => soundMap emitted m h0) dedupStep
             _ _ _ _ _) with (3 := Hf).
    - split; [assumption|]. split; [assumption | intros k e []].
    - intros s0 h0 a s1 h2 Ha Hs0 Hstep.
      exact (dedupStep_sound _ _ _ _ _ _ Ha Hs0 Hstep). }
  destruct Hm as [Hs1 [_ Hmap]]. split; [assumption|].
  intros e Hin. apply In_values_entry in Hin as [k Hin].
  now apply (Hmap k).
Qed.

(** X13. Every edge of the symbol graph is of kind calls or imports. An
    edge with a condition list is of kind calls; its list is not empty and
    holds no entry twice, and every entry has a text of at most 40
    characters with its whitespace collapsed and one of the branch tags
    if, else, ? and :. *)
Theorem edge_conditions_are_sound (w : World) (rootDir : string)
  (g : SymbolGraph) (e : SymbolEdge) :
  analyzeSymbols w rootDir = Some g ->
  In e (sg_edges g) ->
  (e_type e = "calls" \/ e_type e = "imports") /\
  forall cs, e_conditions e = Some cs ->
             e_type e = "calls" /\ cs <> [] /\ soundConditions cs.
Proof.
  intros Hrun He.
  destruct (analyzeSymbols_shape _ _ _ Hrun)
    as [emitted [h1 [deduped [h2 [Hc [Hd Hedges]]]]]].
  apply collectRun_sound in Hc.
  destruct (dedupEdges_sound _ _ _ _ Hc Hd) as [Hs Hraw].
  rewrite Hedges in He. apply in_map_iff in He as [raw [<- Hin]].
  apply filter_In in Hin as [Hin _].
  destruct (Hraw raw Hin) as [Hkind Hr]. unfold viewEdge. simpl. split.
  - destruct Hkind as [H|[H _]]; auto.
  - intros cs Hcs. destruct (re_conditions raw) as [r|] eqn:Er; [|discriminate].
    inversion Hcs; subst cs. destruct (Hr r eq_refl) as [_ Hne].
    split; [|split; [assumption | apply Hs]].
    destruct Hkind as [H|[_ H]]; [assumption | discriminate].
Qed.

(** The same on a concrete run. *)
Lemma edge_conditions_are_sound_witness :
  analyzeSymbols Site.siteProject "/proj" = Some Site.siteSymbols /\
  In Site.guardedCall (sg_edges Site.siteSymbols) /\
  e_type Site.guardedCall = "calls" /\
  [mkCondition "total" "if"] <> [] /\
  soundConditions [mkCondition "total" "if"].
Proof.
  assert (Hrun : analyzeSymbols Site.siteProject "/proj"
                 = Some Site.siteSymbols) by (vm_compute; reflexivity).
  assert (He : In Site.guardedCall (sg_edges Site.siteSymbols))
    by (vm_compute; auto).
  split; [exact Hrun | split; [exact He |]].
  exact (proj2 (edge_conditions_are_sound _ _ _ _ Hrun He) _ eq_refl).
Defined.
